(** * go-cdb: the lookup engine of the constant-database reader

    A shallow embedding of [cdb.go].  The repository carries the file in two
    variants that differ only in how they reach the bytes of the database:
    one slices a memory-mapped copy of the whole file (module [Mmap]), the
    other issues positioned reads on an [io.ReaderAt] through a scratch
    buffer owned by the context (module [Reader]).

    Go features and how they are rendered:
    - [uint32] values are [Z] with the wrap-around modulo 2^32 written out;
    - [[]byte] is [list byte];
    - an [error] value is a member of [error], with [nil] one of its values;
    - a method that mutates [*Context] is a state transformer on [Context];
    - [panic], [return] out of the middle of [find] and the deferred
      [recover] are the constructors of [ctl] and the combinator [recover];
    - every access to the storage is appended to a log of [(offset, length)]
      pairs, so that statements about which reads a step performs can be
      made. *)

From Stdlib Require Import ZArith List Bool Lia.
From Stdlib.Strings Require Import Byte.
Import ListNotations.
Local Open Scope Z_scope.

(** ** Unsigned 32-bit arithmetic *)

Definition wrap32 (z : Z) : Z := z mod 2 ^ 32.
Definition add32 (a b : Z) : Z := wrap32 (a + b).
Definition shl32 (a n : Z) : Z := wrap32 (Z.shiftl a n).
Definition shr32 (a n : Z) : Z := Z.shiftr a n.
Definition u32 (z : Z) : Prop := 0 <= z < 2 ^ 32.

(** ** Bytes *)

Definition byte_to_Z (b : byte) : Z := Z.of_N (Byte.to_N b).

Definition byte_of_Z (z : Z) : byte :=
  match Byte.of_N (Z.to_N (z mod 256)) with
  | Some b => b
  | None => x00
  end.

Definition len (b : list byte) : Z := Z.of_nat (length b).

(** [bytes.Equal] *)
Fixpoint bytes_Equal (a b : list byte) : bool :=
  match a, b with
  | [], [] => true
  | x :: a', y :: b' => Byte.eqb x y && bytes_Equal a' b'
  | _, _ => false
  end.

(** [binary.LittleEndian.Uint32(b)].  Go checks [b[3]] first; every call in
    [cdb.go] passes at least eight bytes, so the check is not modelled and a
    missing byte reads as zero. *)
Definition Uint32 (b : list byte) : Z :=
  Z.lor (Z.lor (Z.lor (byte_to_Z (nth 0 b x00))
                      (Z.shiftl (byte_to_Z (nth 1 b x00)) 8))
               (Z.shiftl (byte_to_Z (nth 2 b x00)) 16))
        (Z.shiftl (byte_to_Z (nth 3 b x00)) 24).

(** The inverse direction, used to lay out databases for the examples. *)
Definition PutUint32 (v : Z) : list byte :=
  [byte_of_Z v; byte_of_Z (Z.shiftr v 8);
   byte_of_Z (Z.shiftr v 16); byte_of_Z (Z.shiftr v 24)].

(** ** Errors and control *)

(** Values of Go's [error] interface that [find] can return: [nil], the
    sentinel [io.EOF], the [runtime.Error] raised by a slice expression that
    is out of range, and any other error an [io.ReaderAt] may report. *)
Inductive error : Type :=
| nil_error
| io_EOF
| boundsError
| readError (code : nat).

Definition error_eqb (a b : error) : bool :=
  match a, b with
  | nil_error, nil_error => true
  | io_EOF, io_EOF => true
  | boundsError, boundsError => true
  | readError m, readError n => Nat.eqb m n
  | _, _ => false
  end.

(** How a statement finishes. *)
Inductive ctl (A : Type) : Type :=
| Next (a : A)          (* ran to its end, control falls through *)
| Return (err : error)  (* executed [return err] *)
| Panic (e : error)     (* executed [panic(e)], or a run-time panic *)
| Fuel.                 (* the bounded unrolling of a [for] was used up *)
Arguments Next {A} a.
Arguments Return {A} err.
Arguments Panic {A} e.
Arguments Fuel {A}.

(** One access to the storage: offset and number of bytes asked for. *)
Definition event : Type := (Z * Z)%type.

(** State [S] (the context behind the pointer), a log of storage accesses,
    and a [ctl] outcome.  The state survives [Return] and [Panic]: writes
    through the pointer are not undone by unwinding. *)
Definition M (S A : Type) : Type := S -> S * list event * ctl A.

Section Monad.
Context {S : Type}.

Definition ret {A} (a : A) : M S A := fun s => (s, [], Next a).

Definition bind {A B} (m : M S A) (k : A -> M S B) : M S B :=
  fun s =>
    match m s with
    | (s1, l1, Next a) => let '(s2, l2, r) := k a s1 in (s2, l1 ++ l2, r)
    | (s1, l1, Return e) => (s1, l1, Return e)
    | (s1, l1, Panic e) => (s1, l1, Panic e)
    | (s1, l1, Fuel) => (s1, l1, Fuel)
    end.

Definition get : M S S := fun s => (s, [], Next s).
Definition modify (f : S -> S) : M S unit := fun s => (f s, [], Next tt).
Definition return_ {A} (e : error) : M S A := fun s => (s, [], Return e).
Definition panic {A} (e : error) : M S A := fun s => (s, [], Panic e).
Definition access (off n : Z) : M S unit := fun s => (s, [(off, n)], Next tt).

(** [defer func() { if e := recover(); e != nil { err = e.(error) } }()]
    around a body whose result parameter is [err]: a [return e] yields
    [e], a panic with the error [e] yields [e] as well. *)
Definition recover (body : M S error) : M S error :=
  fun s =>
    match body s with
    | (s1, l1, Next e) => (s1, l1, Next e)
    | (s1, l1, Return e) => (s1, l1, Next e)
    | (s1, l1, Panic e) => (s1, l1, Next e)
    | (s1, l1, Fuel) => (s1, l1, Fuel)
    end.

(** [for cond { body }], unrolled at most [fuel] times. *)
Fixpoint for_ (fuel : nat) (cond : S -> bool) (body : M S unit) : M S unit :=
  fun s =>
    if cond s then
      match fuel with
      | O => (s, [], Fuel)
      | Datatypes.S fuel' => bind body (fun _ => for_ fuel' cond body) s
      end
    else (s, [], Next tt).
End Monad.

Notation "x <- m ;; k" := (bind m (fun x => k))
  (at level 61, m at next level, right associativity).
Notation "' pat <- m ;; k" := (bind m (fun x => match x with pat => k end))
  (at level 61, pat pattern, m at next level, right associativity).
Notation "m ;; k" := (bind m (fun _ => k))
  (at level 61, right associativity).

(** ** The key hash *)

(** Modelled from the spec: [checksum], which [find] calls on the key, is
    defined in a file of the repository that is not part of [cdb.go].  The
    specification gives it as: seed 5381; for each byte [c],
    [h = ((h << 5) + h) ^ c] in unsigned 32-bit arithmetic. *)
Definition checksum_step (h : Z) (c : byte) : Z :=
  Z.lxor (add32 (shl32 h 5) h) (byte_to_Z c).

Definition checksum (key : list byte) : Z :=
  fold_left checksum_step key 5381.

(** ** Reading the file's bytes directly *)

(** The [n] bytes at [pos] lie inside the file and below 2^32. *)
Definition readable (data : list byte) (pos n : Z) : Prop :=
  0 <= pos /\ 0 <= n /\ pos + n <= len data /\ pos + n < 2 ^ 32.

Definition bytes_at (data : list byte) (pos n : Z) : list byte :=
  firstn (Z.to_nat n) (skipn (Z.to_nat pos) data).

(** The two little-endian numbers stored at [pos]. *)
Definition nums_at (data : list byte) (pos : Z) : Z * Z :=
  (Uint32 (skipn (Z.to_nat pos) data), Uint32 (skipn (Z.to_nat (pos + 4)) data)).

(** The slot at [kp] holds the hash [kh] and points to a record at [pos]
    whose key is [key] and whose data has [rdlen] bytes. *)
Definition hit (data key : list byte) (kh kp pos rdlen : Z) : Prop :=
  readable data kp 8 /\ nums_at data kp = (kh, pos) /\ pos <> 0
  /\ readable data pos 8 /\ nums_at data pos = (len key, rdlen)
  /\ readable data (pos + 8) (len key)
  /\ bytes_at data (pos + 8) (len key) = key.

(** ** The memory-mapped variant *)

Module Mmap.

Record Cdb : Type := { mmappedData : list byte }.

Record Context : Type := {
  loop : Z;    (* number of hash slots searched under this key *)
  khash : Z;
  kpos : Z;
  hpos : Z;
  hslots : Z;
  dpos : Z;
  dlen : Z
}.

Definition set_loop v c := {| loop := v; khash := khash c; kpos := kpos c;
  hpos := hpos c; hslots := hslots c; dpos := dpos c; dlen := dlen c |}.
Definition set_khash v c := {| loop := loop c; khash := v; kpos := kpos c;
  hpos := hpos c; hslots := hslots c; dpos := dpos c; dlen := dlen c |}.
Definition set_kpos v c := {| loop := loop c; khash := khash c; kpos := v;
  hpos := hpos c; hslots := hslots c; dpos := dpos c; dlen := dlen c |}.
Definition set_hpos v c := {| loop := loop c; khash := khash c; kpos := kpos c;
  hpos := v; hslots := hslots c; dpos := dpos c; dlen := dlen c |}.
Definition set_hslots v c := {| loop := loop c; khash := khash c; kpos := kpos c;
  hpos := hpos c; hslots := v; dpos := dpos c; dlen := dlen c |}.
Definition set_dpos v c := {| loop := loop c; khash := khash c; kpos := kpos c;
  hpos := hpos c; hslots := hslots c; dpos := v; dlen := dlen c |}.
Definition set_dlen v c := {| loop := loop c; khash := khash c; kpos := kpos c;
  hpos := hpos c; hslots := hslots c; dpos := dpos c; dlen := v |}.

(** Zero values for the context are ok. *)
Definition NewContext : Context :=
  {| loop := 0; khash := 0; kpos := 0; hpos := 0; hslots := 0;
     dpos := 0; dlen := 0 |}.

(** The slice expression [c.mmappedData[lo : lo+n]] with [uint32] operands:
    a run-time panic unless [lo <= hi <= cap] for [hi] the wrapped sum; the
    mapping has its capacity equal to its length. *)
Definition slice (c : Cdb) (lo n : Z) : M Context (list byte) :=
  let hi := add32 lo n in
  access lo n ;;
  if (lo <=? hi) && (hi <=? len (mmappedData c))
  then ret (firstn (Z.to_nat (hi - lo)) (skipn (Z.to_nat lo) (mmappedData c)))
  else panic boundsError.

Definition readNums (c : Cdb) (pos : Z) : M Context (Z * Z) :=
  data <- slice c pos 8 ;;
  ret (Uint32 data, Uint32 (skipn 4 data)).

Definition match_ (c : Cdb) (key : list byte) (pos : Z) : M Context bool :=
  s <- slice c pos (wrap32 (len key)) ;;
  ret (bytes_Equal s key).

(** The statements of [find] under [if context.loop == 0]. *)
Definition find_init (c : Cdb) (key : list byte) : M Context unit :=
  let h := checksum key in
  '(p, s) <- readNums c (Z.land (shl32 h 3) 2047) ;;
  modify (set_hpos p) ;;
  modify (set_hslots s) ;;
  context <- get ;;
  if hslots context =? 0 then return_ io_EOF else
  modify (set_khash h) ;;
  let h := shr32 h 8 in
  let h := h mod hslots context in
  let h := shl32 h 3 in
  modify (set_kpos (add32 (hpos context) h)).

(** The last statement of the loop body, [if h == context.khash { ... }],
    for the slot [(h, pos)] just read. *)
Definition find_record (c : Cdb) (key : list byte) (h pos : Z)
  : M Context unit :=
  let klen := wrap32 (len key) in
  context <- get ;;
  if h =? khash context then
    '(rklen, rdlen) <- readNums c pos ;;
    if rklen =? klen then
      m <- match_ c key (add32 pos 8) ;;
      if m then
        modify (set_dlen rdlen) ;;
        modify (set_dpos (add32 (add32 pos 8) klen)) ;;
        return_ nil_error
      else ret tt
    else ret tt
  else ret tt.

(** The body of the [for] loop of [find]. *)
Definition find_body (c : Cdb) (key : list byte) : M Context unit :=
  context <- get ;;
  '(h, pos) <- readNums c (kpos context) ;;
  if pos =? 0 then return_ io_EOF else
  modify (fun x => set_loop (add32 (loop x) 1) x) ;;
  modify (fun x => set_kpos (add32 (kpos x) 8) x) ;;
  context <- get ;;
  (if kpos context =? add32 (hpos context) (shl32 (hslots context) 3)
   then modify (set_kpos (hpos context)) else ret tt) ;;
  find_record c key h pos.

Definition find_cond (context : Context) : bool :=
  loop context <? hslots context.

(** The loop visits a slot per turn and counts the turns in [loop], so
    [hslots - loop] turns are all it can take. *)
Definition find_loop (c : Cdb) (key : list byte) : M Context unit :=
  context <- get ;;
  for_ (Z.to_nat (hslots context - loop context)) find_cond (find_body c key).

Definition find (c : Cdb) (key : list byte) : M Context error :=
  recover (
    context <- get ;;
    (if loop context =? 0 then find_init c key else ret tt) ;;
    find_loop c key ;;
    return_ io_EOF).

(** [FindStart] *)
Definition FindStart : M Context unit := modify (set_loop 0).

(** [FindNext]: the slice of the data is taken outside [find], so a panic
    there is not recovered. *)
Definition FindNext (c : Cdb) (key : list byte)
  : M Context (list byte * error) :=
  err <- find c key ;;
  if negb (error_eqb err nil_error) then ret ([], err) else
  context <- get ;;
  d <- slice c (dpos context) (dlen context) ;;
  ret (d, nil_error).

Definition Find (c : Cdb) (key : list byte) : M Context (list byte * error) :=
  FindStart ;; FindNext c key.

Definition Data (c : Cdb) (key : list byte) : M Context (list byte * error) :=
  FindStart ;;
  err <- find c key ;;
  if negb (error_eqb err nil_error) then ret ([], err) else
  context <- get ;;
  d <- slice c (dpos context) (dlen context) ;;
  ret (d, nil_error).

(** The effect of the three statements of the loop body that follow the
    test of the sentinel: count the slot, step to the next one, wrap. *)
Definition advance (x : Context) : Context :=
  let x := set_loop (add32 (loop x) 1) x in
  let x := set_kpos (add32 (kpos x) 8) x in
  if kpos x =? add32 (hpos x) (shl32 (hslots x) 3)
  then set_kpos (hpos x) x else x.

(** The context once the header entry [(p, n)] has been stored, and once
    the probe for the hash [h] has been set up in a table of [n] slots. *)
Definition bucket (p n : Z) (x : Context) : Context :=
  set_hslots n (set_hpos p x).

Definition start (h p n : Z) (x : Context) : Context :=
  set_kpos (add32 p (shl32 (shr32 h 8 mod n) 3)) (set_khash h (bucket p n x)).

(** The context after a match for the record at [pos] with [rdlen] bytes of
    data and a key of [klen] bytes, found from [x]. *)
Definition found (pos klen rdlen : Z) (x : Context) : Context :=
  set_dpos (pos + 8 + klen) (set_dlen rdlen (advance x)).

(** The well-formed contexts: every field is a [uint32]. *)
Definition wf (s : Context) : Prop :=
  u32 (loop s) /\ u32 (khash s) /\ u32 (kpos s) /\ u32 (hpos s)
  /\ u32 (hslots s) /\ u32 (dpos s) /\ u32 (dlen s).

(** How many slots the loop may still visit. *)
Definition slots_left (s : Context) : nat := Z.to_nat (hslots s - loop s).

(** The loop entered with the context [s] takes turns that go on to the
    next and so comes to the context [s']. *)
Inductive probes_to (c : Cdb) (key : list byte) : Context -> Context -> Prop :=
| probes_here s : probes_to c key s s
| probes_on s s1 l1 s' :
    find_cond s = true -> find_body c key s = (s1, l1, Next tt) ->
    probes_to c key s1 s' -> probes_to c key s s'.

End Mmap.


(** ** The positioned-read variant *)

Module Reader.

(** [io.ReaderAt]: asked for [n] bytes at offset [off], a reader hands back
    the bytes it could read and an error, [nil_error] when there is none. *)
Definition ReaderAt : Type := nat -> Z -> list byte * error.

(** [os.File.ReadAt] on a file holding [data], the reader [Open] installs:
    it reads what the file has from [off] on and reports [io.EOF] when that
    is less than what was asked for. *)
Definition fileReader (data : list byte) : ReaderAt :=
  fun n off =>
    let got := firstn n (skipn (Z.to_nat off) data) in
    (got, if (length got <? n)%nat then io_EOF else nil_error).

(** The field [closer] only serves [Close] and is left out. *)
Record Cdb : Type := { r : ReaderAt }.

Definition New (rd : ReaderAt) : Cdb := {| r := rd |}.

(** [buf] is modelled with its capacity equal to its length, which is how
    [NewContext] makes it. *)
Record Context : Type := {
  buf : list byte;
  loop : Z;    (* number of hash slots searched under this key *)
  khash : Z;
  kpos : Z;
  hpos : Z;
  hslots : Z;
  dpos : Z;
  dlen : Z
}.

Definition set_buf v c := {| buf := v; loop := loop c; khash := khash c;
  kpos := kpos c; hpos := hpos c; hslots := hslots c; dpos := dpos c;
  dlen := dlen c |}.
Definition set_loop v c := {| buf := buf c; loop := v; khash := khash c;
  kpos := kpos c; hpos := hpos c; hslots := hslots c; dpos := dpos c;
  dlen := dlen c |}.
Definition set_khash v c := {| buf := buf c; loop := loop c; khash := v;
  kpos := kpos c; hpos := hpos c; hslots := hslots c; dpos := dpos c;
  dlen := dlen c |}.
Definition set_kpos v c := {| buf := buf c; loop := loop c; khash := khash c;
  kpos := v; hpos := hpos c; hslots := hslots c; dpos := dpos c;
  dlen := dlen c |}.
Definition set_hpos v c := {| buf := buf c; loop := loop c; khash := khash c;
  kpos := kpos c; hpos := v; hslots := hslots c; dpos := dpos c;
  dlen := dlen c |}.
Definition set_hslots v c := {| buf := buf c; loop := loop c; khash := khash c;
  kpos := kpos c; hpos := hpos c; hslots := v; dpos := dpos c;
  dlen := dlen c |}.
Definition set_dpos v c := {| buf := buf c; loop := loop c; khash := khash c;
  kpos := kpos c; hpos := hpos c; hslots := hslots c; dpos := v;
  dlen := dlen c |}.
Definition set_dlen v c := {| buf := buf c; loop := loop c; khash := khash c;
  kpos := kpos c; hpos := hpos c; hslots := hslots c; dpos := dpos c;
  dlen := v |}.

Definition NewContext : Context :=
  {| buf := repeat x00 64; loop := 0; khash := 0; kpos := 0; hpos := 0;
     hslots := 0; dpos := 0; dlen := 0 |}.

(** [c.r.ReadAt(p, int64(pos))]: the bytes read overwrite the front of [p];
    the new contents of [p] are handed back with the error. *)
Definition ReadAt (c : Cdb) (p : list byte) (pos : Z)
  : M Context (list byte * error) :=
  access pos (len p) ;;
  let '(got, err) := r c (length p) pos in
  let got := firstn (length p) got in
  ret (got ++ skipn (length got) p, err).

(** [read] *)
Definition read (c : Cdb) (p : list byte) (pos : Z)
  : M Context (list byte * error) :=
  ReadAt c p pos.

(** [readNums]: [context.buf[:8]] panics when the buffer is shorter; the
    read lands in the first eight bytes of the context's buffer. *)
Definition readNums (c : Cdb) (pos : Z) : M Context (Z * Z) :=
  context <- get ;;
  if len (buf context) <? 8 then panic boundsError else
  '(p, err) <- ReadAt c (firstn 8 (buf context)) pos ;;
  modify (set_buf (p ++ skipn 8 (buf context))) ;;
  if negb (error_eqb err nil_error) then panic err else
  context <- get ;;
  ret (Uint32 (buf context), Uint32 (skipn 4 (buf context))).

(** The [for] loop of [match]: [n] bytes of the key are compared, the local
    slice [buf] is the first [blen] bytes of the context's buffer. *)
Fixpoint match_loop (fuel : nat) (c : Cdb) (key : list byte)
    (n blen : nat) (pos : Z) : M Context bool :=
  if (n <? length key)%nat then
    match fuel with
    | O => fun s => (s, [], Fuel)
    | S fuel' =>
      let nleft := (length key - n)%nat in
      let blen := if (nleft <? blen)%nat then nleft else blen in
      context <- get ;;
      '(p, err) <- read c (firstn blen (buf context)) pos ;;
      modify (set_buf (p ++ skipn blen (buf context))) ;;
      if negb (error_eqb err nil_error) then panic err else
      context <- get ;;
      if negb (bytes_Equal (firstn blen (buf context))
                           (firstn blen (skipn n key)))
      then ret false
      else match_loop fuel' c key (n + blen)%nat blen
                      (add32 pos (wrap32 (Z.of_nat blen)))
    end
  else ret true.

Definition match_ (c : Cdb) (key : list byte) (pos : Z) : M Context bool :=
  context <- get ;;
  match_loop (length key) c key 0%nat (length (buf context)) pos.

(** The statements of [find] under [if context.loop == 0]. *)
Definition find_init (c : Cdb) (key : list byte) : M Context unit :=
  let h := checksum key in
  '(p, s) <- readNums c (Z.land (shl32 h 3) 2047) ;;
  modify (set_hpos p) ;;
  modify (set_hslots s) ;;
  context <- get ;;
  if hslots context =? 0 then return_ io_EOF else
  modify (set_khash h) ;;
  let h := shr32 h 8 in
  let h := h mod hslots context in
  let h := shl32 h 3 in
  modify (set_kpos (add32 (hpos context) h)).

(** The last statement of the loop body, [if h == context.khash { ... }],
    for the slot [(h, pos)] just read. *)
Definition find_record (c : Cdb) (key : list byte) (h pos : Z)
  : M Context unit :=
  let klen := wrap32 (len key) in
  context <- get ;;
  if h =? khash context then
    '(rklen, rdlen) <- readNums c pos ;;
    if rklen =? klen then
      m <- match_ c key (add32 pos 8) ;;
      if m then
        modify (set_dlen rdlen) ;;
        modify (set_dpos (add32 (add32 pos 8) klen)) ;;
        return_ nil_error
      else ret tt
    else ret tt
  else ret tt.

(** The body of the [for] loop of [find]. *)
Definition find_body (c : Cdb) (key : list byte) : M Context unit :=
  context <- get ;;
  '(h, pos) <- readNums c (kpos context) ;;
  if pos =? 0 then return_ io_EOF else
  modify (fun x => set_loop (add32 (loop x) 1) x) ;;
  modify (fun x => set_kpos (add32 (kpos x) 8) x) ;;
  context <- get ;;
  (if kpos context =? add32 (hpos context) (shl32 (hslots context) 3)
   then modify (set_kpos (hpos context)) else ret tt) ;;
  find_record c key h pos.

Definition find_cond (context : Context) : bool :=
  loop context <? hslots context.

Definition find_loop (c : Cdb) (key : list byte) : M Context unit :=
  context <- get ;;
  for_ (Z.to_nat (hslots context - loop context)) find_cond (find_body c key).

Definition find (c : Cdb) (key : list byte) : M Context error :=
  recover (
    context <- get ;;
    (if loop context =? 0 then find_init c key else ret tt) ;;
    find_loop c key ;;
    return_ io_EOF).

Definition FindStart : M Context unit := modify (set_loop 0).

(** [io.NewSectionReader(c.r, off, n)] over the database's reader. *)
Record SectionReader : Type := { off : Z; n : Z }.

Definition FindNext (c : Cdb) (key : list byte)
  : M Context (option SectionReader * error) :=
  err <- find c key ;;
  if negb (error_eqb err nil_error) then ret (None, err) else
  context <- get ;;
  ret (Some {| off := dpos context; n := dlen context |}, nil_error).

Definition Find (c : Cdb) (key : list byte)
  : M Context (option SectionReader * error) :=
  FindStart ;; FindNext c key.

(** [Data] reads into a fresh slice and hands it back with the read's
    error. *)
Definition Data (c : Cdb) (key : list byte) : M Context (list byte * error) :=
  FindStart ;;
  err <- find c key ;;
  if negb (error_eqb err nil_error) then ret ([], err) else
  context <- get ;;
  read c (repeat x00 (Z.to_nat (dlen context))) (dpos context).

(** The effect of the three statements of the loop body that follow the
    test of the sentinel: count the slot, step to the next one, wrap. *)
Definition advance (x : Context) : Context :=
  let x := set_loop (add32 (loop x) 1) x in
  let x := set_kpos (add32 (kpos x) 8) x in
  if kpos x =? add32 (hpos x) (shl32 (hslots x) 3)
  then set_kpos (hpos x) x else x.

(** The context once the header entry [(p, n)] has been stored, and once
    the probe for the hash [h] has been set up in a table of [n] slots. *)
Definition bucket (p n : Z) (x : Context) : Context :=
  set_hslots n (set_hpos p x).

Definition start (h p n : Z) (x : Context) : Context :=
  set_kpos (add32 p (shl32 (shr32 h 8 mod n) 3)) (set_khash h (bucket p n x)).

(** The context after a match for the record at [pos] with [rdlen] bytes of
    data and a key of [klen] bytes, found from [x]. *)
Definition found (pos klen rdlen : Z) (x : Context) : Context :=
  set_dpos (pos + 8 + klen) (set_dlen rdlen (advance x)).

(** The seven counters of a context, as a context of the other variant. *)
Definition core (s : Context) : Mmap.Context :=
  {| Mmap.loop := loop s; Mmap.khash := khash s; Mmap.kpos := kpos s;
     Mmap.hpos := hpos s; Mmap.hslots := hslots s; Mmap.dpos := dpos s;
     Mmap.dlen := dlen s |}.

Definition wf (s : Context) : Prop := Mmap.wf (core s).

(** How many slots the loop may still visit. *)
Definition slots_left (s : Context) : nat := Z.to_nat (hslots s - loop s).

(** What a read at [pos] leaves in a buffer [p]. *)
Definition filled (c : Cdb) (p : list byte) (pos : Z) : list byte :=
  let got := firstn (length p) (fst (r c (length p) pos)) in
  got ++ skipn (length got) p.

(** The context's buffer after [readNums] has read at [pos]. *)
Definition nums_buf (c : Cdb) (pos : Z) (s : Context) : list byte :=
  filled c (firstn 8 (buf s)) pos ++ skipn 8 (buf s).

End Reader.

(** What a step returns when its loop has ended with [r]: the statement
    after the loop is [return io.EOF], and the deferred [recover] turns a
    panic into the error returned. *)
Definition close (r : ctl unit) : ctl error :=
  match r with
  | Next _ => Next io_EOF
  | Return e => Next e
  | Panic e => Next e
  | Fuel => Fuel
  end.

(** ** Relating the two variants *)

(** A context of the positioned-read variant stands for the context of the
    memory-mapped variant with the same counters; its buffer has room for
    the two numbers of a slot. *)
Definition sim (ms : Mmap.Context) (rs : Reader.Context) : Prop :=
  Reader.core rs = ms /\ (8 <= length (Reader.buf rs))%nat /\ Mmap.wf ms.

(** [rm] does what [mm] does whenever [mm] does not panic. *)
Definition refines {A} (mm : M Mmap.Context A) (rm : M Reader.Context A)
  : Prop :=
  forall ms rs, sim ms rs ->
    forall ms' ml mo, mm ms = (ms', ml, mo) -> (forall e, mo <> Panic e) ->
      exists rs' rl, rm rs = (rs', rl, mo) /\ sim ms' rs'.

(** ** Databases for the examples *)

(** A header whose entry [bucket] is [(hp, hs)], every other entry zero. *)
Definition header (bucket hp hs : Z) : list byte :=
  flat_map (fun i => if Z.of_nat i =? bucket
                     then PutUint32 hp ++ PutUint32 hs
                     else repeat x00 8) (seq 0 256).

Definition slot (h pos : Z) : list byte := PutUint32 h ++ PutUint32 pos.

Definition record (key data : list byte) : list byte :=
  PutUint32 (len key) ++ PutUint32 (len data) ++ key ++ data.

Definition key_a : list byte := ["a"%byte].

(** Key [a] hashes to 177604: bucket 196, and with two slots the probe
    starts at slot 1, the last one.  That slot holds a record of another
    key with the same bucket and start, the record of [a] sits in slot 0. *)
Definition db_wrap : list byte :=
  header 196 2048 2
  ++ slot 177604 2064 ++ slot 452 2074
  ++ record key_a ["x"%byte] ++ record ["b"%byte] ["y"%byte].

(** The only slot of key [a] points past the end of the file. *)
Definition db_corrupt : list byte :=
  header 196 2048 1 ++ slot 177604 5000.

(** A key of 65 bytes, one more than the buffer of a context holds; it
    hashes to 3704193486: bucket 206, and with two slots the probe starts at
    slot 1. *)
Definition key65 : list byte := repeat "k"%byte 65.

(** Slot 1 points to a record at the end of the file that announces a key
    of 65 bytes of which the file holds only 64, all different from those of
    [key65]; slot 0 points to the record of [key65]. *)
Definition db_chunk : list byte :=
  header 206 2048 2
  ++ slot 3704193486 2064 ++ slot 3704193486 2138
  ++ record key65 ["v"%byte]
  ++ PutUint32 65 ++ PutUint32 1 ++ repeat x00 64.

(** A header and nothing else: every bucket is empty. *)
Definition db_empty : list byte := header 196 0 0.

(** Key [a] stored twice, in slots 0 and 1 of a table of three; with three
    slots the probe starts at slot 0. *)
Definition db_dup : list byte :=
  header 196 2048 3
  ++ slot 177604 2072 ++ slot 177604 2082 ++ slot 0 0
  ++ record key_a ["1"%byte] ++ record key_a ["2"%byte; "3"%byte].


(** The counters after the first and after the second match of [a] in
    [db_dup]. *)
Definition dup_first : Mmap.Context :=
  {| Mmap.loop := 1; Mmap.khash := 177604; Mmap.kpos := 2056;
     Mmap.hpos := 2048; Mmap.hslots := 3; Mmap.dpos := 2081;
     Mmap.dlen := 1 |}.

Definition dup_second : Mmap.Context :=
  {| Mmap.loop := 2; Mmap.khash := 177604; Mmap.kpos := 2064;
     Mmap.hpos := 2048; Mmap.hslots := 3; Mmap.dpos := 2091;
     Mmap.dlen := 2 |}.

(** The counters in [db_wrap] once the probe for [a] has passed slot 1 and
    stands at slot 0. *)
Definition wrap_second : Mmap.Context :=
  {| Mmap.loop := 1; Mmap.khash := 177604; Mmap.kpos := 2048;
     Mmap.hpos := 2048; Mmap.hslots := 2; Mmap.dpos := 0; Mmap.dlen := 0 |}.

(** A context of the positioned-read variant with the counters of [x] and a
    buffer as [NewContext] makes it. *)
Definition with_buf (x : Mmap.Context) : Reader.Context :=
  {| Reader.buf := repeat x00 64; Reader.loop := Mmap.loop x;
     Reader.khash := Mmap.khash x; Reader.kpos := Mmap.kpos x;
     Reader.hpos := Mmap.hpos x; Reader.hslots := Mmap.hslots x;
     Reader.dpos := Mmap.dpos x; Reader.dlen := Mmap.dlen x |}.

(** ** Well-formed databases *)

(** [readable], as a test. *)
Definition readableb (data : list byte) (pos n : Z) : bool :=
  (0 <=? pos) && (0 <=? n) && (pos + n <=? len data) && (pos + n <? 2 ^ 32).

(** The slot at [kp] lies in the file, and when it is occupied so do the
    header, the key and the data of the record it points to. *)
Definition slot_okb (data : list byte) (kp : Z) : bool :=
  readableb data kp 8
  && (let '(_, pos) := nums_at data kp in
      (pos =? 0)
      || (readableb data pos 8
          && (let '(kl, dl) := nums_at data pos in
              readableb data (pos + 8) kl
              && readableb data (pos + 8 + kl) dl))).

(** The table of [n] slots at [p] ends below 2^32 and every slot is fine. *)
Definition table_okb (data : list byte) (p n : Z) : bool :=
  (p + 8 * n <? 2 ^ 32)
  && forallb (fun j => slot_okb data (p + 8 * Z.of_nat j))
             (seq 0 (Z.to_nat n)).

(** Each of the 256 header entries lies in the file and describes a table
    that is fine. *)
Definition well_formedb (data : list byte) : bool :=
  forallb (fun i => readableb data (8 * Z.of_nat i) 8
                    && (let '(p, n) := nums_at data (8 * Z.of_nat i) in
                        table_okb data p n))
          (seq 0 256).

(** A context in the middle of a probe of a table that is fine: [kpos] is at
    one of the slots. *)
Definition probing (data : list byte) (s : Mmap.Context) : Prop :=
  Mmap.wf s /\ 0 < Mmap.hslots s
  /\ table_okb data (Mmap.hpos s) (Mmap.hslots s) = true
  /\ exists j, 0 <= j < Mmap.hslots s
               /\ Mmap.kpos s = Mmap.hpos s + 8 * j.

(** The contexts a caller holds between two calls on the database [data]:
    fresh or reset ([loop] is zero), or left in a table by an earlier
    step. *)
Definition settled (data : list byte) (s : Mmap.Context) : Prop :=
  Mmap.wf s /\ (Mmap.loop s = 0 \/ probing data s).

(** The record of key [a] announces 100 bytes of data, the file ends after
    the first of them. *)
Definition db_trunc : list byte :=
  header 196 2048 1 ++ slot 177604 2056
  ++ PutUint32 1 ++ PutUint32 100 ++ key_a ++ ["x"%byte].

(** The zero value of [Context] in the positioned-read variant, as
    [new(Context)] or [&Context{}] makes it: no buffer. *)
Definition zero_Context : Reader.Context :=
  {| Reader.buf := []; Reader.loop := 0; Reader.khash := 0; Reader.kpos := 0;
     Reader.hpos := 0; Reader.hslots := 0; Reader.dpos := 0;
     Reader.dlen := 0 |}.

(** Two contexts that differ at most in [dpos] and [dlen], the fields a
    step writes but never reads. *)
Definition same_probe (a b : Mmap.Context) : Prop :=
  Mmap.loop a = Mmap.loop b /\ Mmap.khash a = Mmap.khash b
  /\ Mmap.kpos a = Mmap.kpos b /\ Mmap.hpos a = Mmap.hpos b
  /\ Mmap.hslots a = Mmap.hslots b.

(** Two runs agree: the same accesses and the same way of finishing, with
    [R] between the contexts when control falls through and [Q] when the
    run returns [nil]. *)
Definition agree {A} (R Q : Mmap.Context -> Mmap.Context -> Prop)
    (x y : Mmap.Context * list event * ctl A) : Prop :=
  let '(a', la, ra) := x in
  let '(b', lb, rb) := y in
  la = lb /\ ra = rb /\ (forall v, ra = Next v -> R a' b')
  /\ (ra = Return nil_error -> Q a' b').
(** * Properties of the lookup engine *)

(** ** Arithmetic *)

Lemma wrap32_range (z : Z) : u32 (wrap32 z).
Proof. unfold u32, wrap32. apply Z.mod_pos_bound. lia. Qed.

Lemma wrap32_small (z : Z) : u32 z -> wrap32 z = z.
Proof. unfold u32, wrap32. intros H. apply Z.mod_small. exact H. Qed.

Lemma add32_range (a b : Z) : u32 (add32 a b).
Proof. apply wrap32_range. Qed.

Lemma shl32_range (a n : Z) : u32 (shl32 a n).
Proof. apply wrap32_range. Qed.

Lemma add32_small (a b : Z) : 0 <= a + b < 2 ^ 32 -> add32 a b = a + b.
Proof. intros H. apply wrap32_small. exact H. Qed.

Lemma shl32_3 (a : Z) : 0 <= a * 8 < 2 ^ 32 -> shl32 a 3 = a * 8.
Proof.
  intros H. unfold shl32. rewrite Z.shiftl_mul_pow2 by lia.
  apply wrap32_small. exact H.
Qed.

Lemma pow2_bound_bits (z k : Z) :
  0 <= k -> 0 <= z -> (forall i, k <= i -> Z.testbit z i = false) -> z < 2 ^ k.
Proof.
  intros Hk Hz Hbits.
  destruct (Z.eq_dec z 0) as [->|Hnz]; [apply Z.pow_pos_nonneg; lia|].
  apply Z.log2_lt_pow2; [lia|].
  destruct (Z_lt_le_dec (Z.log2 z) k) as [Hlt|Hge]; [exact Hlt|].
  specialize (Hbits (Z.log2 z) Hge).
  rewrite Z.bit_log2 in Hbits by lia. discriminate.
Qed.

Lemma bits_above (z k i : Z) :
  0 <= z < 2 ^ k -> k <= i -> Z.testbit z i = false.
Proof.
  intros Hz Hi.
  destruct (Z.eq_dec z 0) as [->|Hnz]; [apply Z.bits_0|].
  apply Z.bits_above_log2; [lia|].
  assert (Z.log2 z < k) by (apply Z.log2_lt_pow2; lia). lia.
Qed.

Lemma lor_bound (a b k : Z) :
  0 <= k -> 0 <= a < 2 ^ k -> 0 <= b < 2 ^ k -> 0 <= Z.lor a b < 2 ^ k.
Proof.
  intros Hk Ha Hb. split; [apply Z.lor_nonneg; lia|].
  apply pow2_bound_bits; [lia|apply Z.lor_nonneg; lia|].
  intros i Hi. rewrite Z.lor_spec, (bits_above a k i), (bits_above b k i) by lia.
  reflexivity.
Qed.

Lemma lxor_bound (a b k : Z) :
  0 <= k -> 0 <= a < 2 ^ k -> 0 <= b < 2 ^ k -> 0 <= Z.lxor a b < 2 ^ k.
Proof.
  intros Hk Ha Hb. split; [apply Z.lxor_nonneg; lia|].
  apply pow2_bound_bits; [lia|apply Z.lxor_nonneg; lia|].
  intros i Hi. rewrite Z.lxor_spec, (bits_above a k i), (bits_above b k i) by lia.
  reflexivity.
Qed.

Lemma byte_to_Z_range (b : byte) : 0 <= byte_to_Z b < 256.
Proof.
  unfold byte_to_Z. pose proof (Byte.to_N_bounded b) as H. lia.
Qed.

Lemma shiftl_byte_bound (b : byte) (s : Z) :
  0 <= s <= 24 -> 0 <= Z.shiftl (byte_to_Z b) s < 2 ^ 32.
Proof.
  intros Hs. pose proof (byte_to_Z_range b) as Hb.
  rewrite Z.shiftl_mul_pow2 by lia.
  assert (0 < 2 ^ s) by (apply Z.pow_pos_nonneg; lia).
  assert (2 ^ s <= 2 ^ 24) by (apply Z.pow_le_mono_r; lia).
  assert (byte_to_Z b * 2 ^ s <= 255 * 2 ^ 24) by nia.
  split; [nia|]. change (2 ^ 32) with (256 * 2 ^ 24). lia.
Qed.

Lemma Uint32_range (b : list byte) : u32 (Uint32 b).
Proof.
  unfold u32, Uint32.
  repeat apply lor_bound; try lia; try (apply shiftl_byte_bound; lia).
  pose proof (byte_to_Z_range (nth 0 b x00)). lia.
Qed.

Lemma checksum_step_range (h : Z) (c : byte) : u32 (checksum_step h c).
Proof.
  unfold checksum_step, u32. apply lxor_bound; [lia|apply add32_range|].
  pose proof (byte_to_Z_range c). lia.
Qed.

Lemma checksum_range (key : list byte) : u32 (checksum key).
Proof.
  unfold checksum.
  assert (H : forall k h, u32 h -> u32 (fold_left checksum_step k h)).
  { induction k as [|c k IH]; intros h Hh; simpl; [exact Hh|].
    apply IH, checksum_step_range. }
  apply H. unfold u32. lia.
Qed.

Lemma times33 (h : Z) : add32 (shl32 h 5) h = wrap32 (h * 33).
Proof.
  unfold add32, shl32, wrap32. rewrite Z.shiftl_mul_pow2 by lia.
  rewrite Zplus_mod_idemp_l. f_equal. lia.
Qed.

Lemma header_offset (h : Z) : Z.land (shl32 h 3) 2047 = Z.land h 255 * 8.
Proof.
  unfold shl32, wrap32. rewrite Z.shiftl_mul_pow2 by lia.
  change 2047 with (Z.ones 11). change 255 with (Z.ones 8).
  rewrite !Z.land_ones by lia.
  rewrite Z.mod_mod_divide by (exists (2 ^ 21); reflexivity).
  change (2 ^ 11) with (2 ^ 8 * 2 ^ 3). change (2 ^ 3) with 8.
  rewrite Z.mul_mod_distr_r by lia. reflexivity.
Qed.

Lemma header_offset_range (h : Z) : 0 <= Z.land (shl32 h 3) 2047 <= 2040.
Proof.
  rewrite header_offset. change 255 with (Z.ones 8).
  rewrite Z.land_ones by lia.
  pose proof (Z.mod_pos_bound h (2 ^ 8)). lia.
Qed.

(** ** Running the monad *)

Section Runs.
Context {S : Type}.

Lemma bind_Next {A B} (m : M S A) (k : A -> M S B) s s1 l1 a :
  m s = (s1, l1, Next a) ->
  bind m k s = (let '(s2, l2, r) := k a s1 in (s2, l1 ++ l2, r)).
Proof. intros H. unfold bind. rewrite H. reflexivity. Qed.

Lemma bind_Return {A B} (m : M S A) (k : A -> M S B) s s1 l1 e :
  m s = (s1, l1, Return e) -> bind m k s = (s1, l1, Return e).
Proof. intros H. unfold bind. rewrite H. reflexivity. Qed.

Lemma bind_Panic {A B} (m : M S A) (k : A -> M S B) s s1 l1 e :
  m s = (s1, l1, Panic e) -> bind m k s = (s1, l1, Panic e).
Proof. intros H. unfold bind. rewrite H. reflexivity. Qed.

(** A [for] that starts with its condition false does nothing. *)
Lemma for_done fuel (cond : S -> bool) body s :
  cond s = false -> for_ fuel cond body s = (s, [], Next tt).
Proof. intros H. destruct fuel; simpl; rewrite H; reflexivity. Qed.

(** One turn of a [for] whose condition holds. *)
Lemma for_turn fuel (cond : S -> bool) body s :
  cond s = true ->
  for_ (Datatypes.S fuel) cond body s
  = bind body (fun _ => for_ fuel cond body) s.
Proof. intros H. simpl. rewrite H. reflexivity. Qed.

(** A property of the state that every turn keeps is kept by the loop. *)
Lemma for_invariant (I : S -> Prop) (cond : S -> bool) body :
  (forall s, I s -> cond s = true -> I (fst (fst (body s)))) ->
  forall fuel s, I s -> I (fst (fst (for_ fuel cond body s))).
Proof.
  intros Hbody. induction fuel as [|fuel IH]; intros s Hs; simpl.
  - destruct (cond s); exact Hs.
  - destruct (cond s) eqn:Hc; [|exact Hs].
    specialize (Hbody s Hs Hc). unfold bind.
    destruct (body s) as [[s1 l1] [[]| | |]]; simpl in *; try exact Hbody.
    specialize (IH s1 Hbody).
    destruct (for_ fuel cond body s1) as [[s2 l2] r2]. exact IH.
Qed.

(** A loop whose turns each lower a measure, from a state where the
    measure is within the fuel, does not use the fuel up.  [I] is what the
    argument may assume of the states the loop goes through. *)
Lemma for_fuel (I : S -> Prop) (mu : S -> nat) (cond : S -> bool)
    (body : M S unit) :
  (forall s, I s -> cond s = true -> I (fst (fst (body s)))) ->
  (forall s, I s -> cond s = true -> (0 < mu s)%nat) ->
  (forall s, I s -> cond s = true -> snd (body s) <> Fuel) ->
  (forall s s1 l1, I s -> cond s = true -> body s = (s1, l1, Next tt) ->
                   (mu s1 < mu s)%nat) ->
  forall fuel s, I s -> (mu s <= fuel)%nat ->
                 snd (for_ fuel cond body s) <> Fuel.
Proof.
  intros Hinv Hpos Hnf Hdec. induction fuel as [|fuel IH]; intros s HI Hs; simpl.
  - destruct (cond s) eqn:Hc; [|discriminate].
    specialize (Hpos s HI Hc). lia.
  - destruct (cond s) eqn:Hc; [|discriminate].
    unfold bind. specialize (Hnf s HI Hc). specialize (Hdec s).
    specialize (Hinv s HI Hc).
    destruct (body s) as [[s1 l1] [[]| | |]]; simpl in *;
      try discriminate; try congruence.
    specialize (Hdec s1 l1 HI Hc eq_refl).
    specialize (IH s1 Hinv ltac:(lia)).
    destruct (for_ fuel cond body s1) as [[s2 l2] r2]. exact IH.
Qed.


End Runs.

(** ** Bytes *)

Lemma bytes_Equal_eq (a b : list byte) : bytes_Equal a b = true <-> a = b.
Proof.
  revert b. induction a as [|x a IH]; intros [|y b]; simpl;
    try (split; [discriminate|discriminate]); [tauto|].
  rewrite andb_true_iff, IH. split.
  - intros [H1 H2]. apply Byte.byte_dec_bl in H1. congruence.
  - intros H. injection H as -> ->. split; [|reflexivity].
    apply Byte.byte_dec_lb. reflexivity.
Qed.

Lemma bytes_Equal_refl (a : list byte) : bytes_Equal a a = true.
Proof. apply bytes_Equal_eq. reflexivity. Qed.

Lemma Uint32_firstn (k : nat) (b : list byte) :
  (4 <= k)%nat -> Uint32 (firstn k b) = Uint32 b.
Proof.
  intros Hk. unfold Uint32. rewrite !nth_firstn.
  destruct k as [|[|[|[|k]]]]; try lia. reflexivity.
Qed.

Lemma Uint32_app (a b : list byte) :
  (4 <= length a)%nat -> Uint32 (a ++ b) = Uint32 a.
Proof.
  intros Ha. unfold Uint32. rewrite !app_nth1 by lia. reflexivity.
Qed.

Lemma nums_of_bytes_at (data : list byte) (pos : Z) :
  0 <= pos ->
  (Uint32 (bytes_at data pos 8), Uint32 (skipn 4 (bytes_at data pos 8)))
  = nums_at data pos.
Proof.
  intros Hpos. unfold bytes_at, nums_at.
  change (Z.to_nat 8) with 8%nat.
  rewrite Uint32_firstn by lia.
  rewrite skipn_firstn_comm, skipn_skipn, Uint32_firstn by (simpl; lia).
  replace (Z.to_nat (pos + 4)) with (4 + Z.to_nat pos)%nat by lia.
  reflexivity.
Qed.

Lemma length_bytes_at (data : list byte) (pos n : Z) :
  0 <= pos -> 0 <= n -> pos + n <= len data ->
  length (bytes_at data pos n) = Z.to_nat n.
Proof.
  intros Hp Hn Hl. unfold bytes_at, len in *.
  rewrite length_firstn, length_skipn. lia.
Qed.

(** ** The memory-mapped variant: how its parts run *)

Module MmapFacts.
Import Mmap.

Lemma slice_state (c : Cdb) (lo n : Z) (s : Context) :
  fst (fst (slice c lo n s)) = s /\ snd (fst (slice c lo n s)) = [(lo, n)].
Proof.
  unfold slice, bind, access, ret, panic.
  destruct ((lo <=? add32 lo n) && (add32 lo n <=? len (mmappedData c)));
    simpl; auto.
Qed.

Lemma slice_ok (c : Cdb) (lo n : Z) (s : Context) :
  readable (mmappedData c) lo n ->
  slice c lo n s = (s, [(lo, n)], Next (bytes_at (mmappedData c) lo n)).
Proof.
  intros (Hlo & Hn & Hlen & H32).
  unfold slice, bind, access, ret, bytes_at.
  rewrite add32_small by lia.
  replace (lo <=? lo + n) with true by (symmetry; apply Z.leb_le; lia).
  replace (lo + n <=? len (mmappedData c)) with true
    by (symmetry; apply Z.leb_le; lia).
  simpl. replace (lo + n - lo) with n by lia. reflexivity.
Qed.

Lemma slice_panic (c : Cdb) (lo n : Z) (s : Context) :
  u32 lo -> u32 n -> ~ readable (mmappedData c) lo n ->
  slice c lo n s = (s, [(lo, n)], Panic boundsError).
Proof.
  intros Hlo Hn Hnr. unfold slice, bind, access, panic.
  destruct ((lo <=? add32 lo n) && (add32 lo n <=? len (mmappedData c))) eqn:E;
    [|reflexivity].
  exfalso. apply Hnr. apply andb_true_iff in E. destruct E as [E1 E2].
  apply Z.leb_le in E1, E2. unfold u32, readable in *.
  assert (Hc : lo + n < 2 ^ 32 \/ 2 ^ 32 <= lo + n) by lia.
  destruct Hc as [Hc|Hc].
  - rewrite add32_small in E1, E2 by lia. lia.
  - exfalso. unfold add32, wrap32 in E1.
    replace (lo + n) with (lo + n - 2 ^ 32 + 1 * 2 ^ 32) in E1 by lia.
    rewrite Z.mod_add in E1 by lia.
    rewrite Z.mod_small in E1 by lia. lia.
Qed.

Lemma readNums_ok (c : Cdb) (pos : Z) (s : Context) :
  readable (mmappedData c) pos 8 ->
  readNums c pos s = (s, [(pos, 8)], Next (nums_at (mmappedData c) pos)).
Proof.
  intros H. unfold readNums.
  rewrite (bind_Next _ _ _ _ _ _ (slice_ok c pos 8 s H)).
  unfold ret. simpl. rewrite nums_of_bytes_at by (destruct H; lia).
  reflexivity.
Qed.

Lemma readNums_panic (c : Cdb) (pos : Z) (s : Context) :
  u32 pos -> ~ readable (mmappedData c) pos 8 ->
  readNums c pos s = (s, [(pos, 8)], Panic boundsError).
Proof.
  intros Hp H. unfold readNums.
  apply bind_Panic. apply slice_panic; [exact Hp|unfold u32; lia|exact H].
Qed.

Lemma match_ok (c : Cdb) (key : list byte) (pos : Z) (s : Context) :
  len key < 2 ^ 32 ->
  readable (mmappedData c) pos (len key) ->
  match_ c key pos s
  = (s, [(pos, len key)],
     Next (bytes_Equal (bytes_at (mmappedData c) pos (len key)) key)).
Proof.
  intros Hk H. unfold match_.
  rewrite wrap32_small by (unfold u32, len in *; lia).
  rewrite (bind_Next _ _ _ _ _ _ (slice_ok c pos (len key) s H)).
  reflexivity.
Qed.

End MmapFacts.

Module MmapBody.
Import Mmap MmapFacts.

Lemma khash_advance s : khash (advance s) = khash s.
Proof. unfold advance. simpl. destruct (_ =? _); reflexivity. Qed.

Lemma hpos_advance s : hpos (advance s) = hpos s.
Proof. unfold advance. simpl. destruct (_ =? _); reflexivity. Qed.

Lemma hslots_advance s : hslots (advance s) = hslots s.
Proof. unfold advance. simpl. destruct (_ =? _); reflexivity. Qed.

Lemma loop_advance s : loop (advance s) = add32 (loop s) 1.
Proof. unfold advance. simpl. destruct (_ =? _); reflexivity. Qed.

Lemma kpos_advance s :
  kpos (advance s)
  = if add32 (kpos s) 8 =? add32 (hpos s) (shl32 (hslots s) 3)
    then hpos s else add32 (kpos s) 8.
Proof. unfold advance. simpl. destruct (_ =? _); reflexivity. Qed.

Section Body.
Variables (c : Cdb) (key : list byte) (s : Context).
Let data := mmappedData c.

Lemma body_unreadable :
  u32 (kpos s) -> ~ readable data (kpos s) 8 ->
  find_body c key s = (s, [(kpos s, 8)], Panic boundsError).
Proof.
  intros Hk Hr. unfold find_body.
  unfold bind at 1. unfold get at 1.
  rewrite (bind_Panic _ _ _ _ _ _ (readNums_panic c (kpos s) s Hk Hr)).
  reflexivity.
Qed.

Lemma body_empty h :
  readable data (kpos s) 8 -> nums_at data (kpos s) = (h, 0) ->
  find_body c key s = (s, [(kpos s, 8)], Return io_EOF).
Proof.
  intros Hr Hn. unfold find_body.
  unfold bind at 1. unfold get at 1.
  rewrite (bind_Next _ _ _ _ _ _ (readNums_ok c (kpos s) s Hr)).
  fold data. rewrite Hn. reflexivity.
Qed.

Lemma body_occupied h pos :
  readable data (kpos s) 8 -> nums_at data (kpos s) = (h, pos) -> pos <> 0 ->
  find_body c key s
  = (let '(s2, l2, r) := find_record c key h pos (advance s) in
     (s2, (kpos s, 8) :: l2, r)).
Proof.
  intros Hr Hn Hp. unfold find_body.
  unfold bind at 1. unfold get at 1.
  rewrite (bind_Next _ _ _ _ _ _ (readNums_ok c (kpos s) s Hr)).
  fold data. rewrite Hn.
  apply Z.eqb_neq in Hp. rewrite Hp.
  unfold advance.
  unfold bind at 1 2 3 4. unfold modify at 1 2. unfold get at 1. simpl.
  destruct (add32 (kpos s) 8 =? add32 (hpos s) (shl32 (hslots s) 3));
    simpl;
    match goal with
    | |- context [find_record c key h pos ?x] =>
        destruct (find_record c key h pos x) as [[? ?] ?]
    end; reflexivity.
Qed.

Lemma record_other_hash h pos :
  h <> khash s -> find_record c key h pos s = (s, [], Next tt).
Proof.
  intros Hh. unfold find_record, bind, get.
  apply Z.eqb_neq in Hh. rewrite Hh. reflexivity.
Qed.

Lemma record_unreadable pos :
  u32 pos -> ~ readable data pos 8 ->
  find_record c key (khash s) pos s = (s, [(pos, 8)], Panic boundsError).
Proof.
  intros Hp Hr. unfold find_record.
  unfold bind at 1. unfold get at 1. rewrite Z.eqb_refl.
  rewrite (bind_Panic _ _ _ _ _ _ (readNums_panic c pos s Hp Hr)).
  reflexivity.
Qed.

Lemma record_other_length pos rklen rdlen :
  readable data pos 8 -> nums_at data pos = (rklen, rdlen) ->
  rklen <> wrap32 (len key) ->
  find_record c key (khash s) pos s = (s, [(pos, 8)], Next tt).
Proof.
  intros Hr Hn Hl. unfold find_record.
  unfold bind at 1. unfold get at 1. rewrite Z.eqb_refl.
  rewrite (bind_Next _ _ _ _ _ _ (readNums_ok c pos s Hr)).
  fold data. rewrite Hn. apply Z.eqb_neq in Hl. rewrite Hl. reflexivity.
Qed.

Lemma record_key_unreadable pos rdlen :
  readable data pos 8 -> nums_at data pos = (wrap32 (len key), rdlen) ->
  ~ readable data (pos + 8) (wrap32 (len key)) ->
  find_record c key (khash s) pos s
  = (s, [(pos, 8); (pos + 8, wrap32 (len key))], Panic boundsError).
Proof.
  intros Hr Hn Hk. unfold find_record.
  unfold bind at 1. unfold get at 1. rewrite Z.eqb_refl.
  rewrite (bind_Next _ _ _ _ _ _ (readNums_ok c pos s Hr)).
  fold data. rewrite Hn, Z.eqb_refl.
  assert (Ha : add32 pos 8 = pos + 8)
    by (apply add32_small; unfold readable in Hr; lia).
  rewrite Ha. unfold match_.
  assert (Hu : u32 (pos + 8)) by (destruct Hr as (? & ? & ? & ?); split; lia).
  rewrite (bind_Panic _ _ _ _ _ _
             (bind_Panic _ _ _ _ _ _
                (slice_panic c (pos + 8) (wrap32 (len key)) s
                   Hu (wrap32_range _) Hk))).
  reflexivity.
Qed.

Lemma record_other_key pos rdlen :
  len key < 2 ^ 32 ->
  readable data pos 8 -> nums_at data pos = (len key, rdlen) ->
  readable data (pos + 8) (len key) ->
  bytes_at data (pos + 8) (len key) <> key ->
  find_record c key (khash s) pos s
  = (s, [(pos, 8); (pos + 8, len key)], Next tt).
Proof.
  intros Hlen Hr Hn Hk Hne. unfold find_record.
  assert (Hw : wrap32 (len key) = len key)
    by (apply wrap32_small; unfold u32, len in *; lia).
  unfold bind at 1. unfold get at 1. rewrite Z.eqb_refl.
  rewrite (bind_Next _ _ _ _ _ _ (readNums_ok c pos s Hr)).
  fold data. rewrite Hn, Hw, Z.eqb_refl.
  assert (Ha : add32 pos 8 = pos + 8)
    by (apply add32_small; unfold readable in Hr; lia).
  rewrite Ha.
  rewrite (bind_Next _ _ _ _ _ _ (match_ok c key (pos + 8) s Hlen Hk)).
  fold data.
  destruct (bytes_Equal (bytes_at data (pos + 8) (len key)) key) eqn:E.
  - apply bytes_Equal_eq in E. contradiction.
  - reflexivity.
Qed.

Lemma record_match pos rdlen :
  len key < 2 ^ 32 ->
  readable data pos 8 -> nums_at data pos = (len key, rdlen) ->
  readable data (pos + 8) (len key) ->
  bytes_at data (pos + 8) (len key) = key ->
  find_record c key (khash s) pos s
  = (set_dpos (pos + 8 + len key) (set_dlen rdlen s),
     [(pos, 8); (pos + 8, len key)], Return nil_error).
Proof.
  intros Hlen Hr Hn Hk He. unfold find_record.
  assert (Hw : wrap32 (len key) = len key)
    by (apply wrap32_small; unfold u32, len in *; lia).
  unfold bind at 1. unfold get at 1. rewrite Z.eqb_refl.
  rewrite (bind_Next _ _ _ _ _ _ (readNums_ok c pos s Hr)).
  fold data. rewrite Hn, Hw, Z.eqb_refl.
  assert (Ha : add32 pos 8 = pos + 8)
    by (apply add32_small; unfold readable in Hr; lia).
  rewrite Ha.
  rewrite (bind_Next _ _ _ _ _ _ (match_ok c key (pos + 8) s Hlen Hk)).
  fold data. rewrite He, bytes_Equal_refl.
  rewrite (add32_small (pos + 8) (len key)) by (unfold readable in Hk; lia).
  reflexivity.
Qed.

End Body.
End MmapBody.

Module MmapLoop.
Import Mmap MmapFacts MmapBody.

Ltac break_ifs :=
  repeat match goal with
         | |- context [if ?b then _ else _] => destruct b eqn:?
         end.

(** Every way a turn of the loop can end. *)
Lemma body_shape (c : Cdb) (key : list byte) (s : Context) :
  let '(s', l, r) := find_body c key s in
  (s' = s /\ (r = Panic boundsError \/ r = Return io_EOF))
  \/ (s' = advance s /\ (r = Next tt \/ r = Panic boundsError))
  \/ (exists dp dl, s' = set_dpos dp (set_dlen dl (advance s))
                    /\ r = Return nil_error /\ u32 dp /\ u32 dl).
Proof.
  unfold find_body, find_record, readNums, match_, slice, advance.
  unfold bind, get, modify, ret, return_, panic, access. simpl.
  break_ifs; simpl; auto 6.
  all: right; right; eexists; eexists; split; [reflexivity|];
    split; [reflexivity|]; split; [apply add32_range|apply Uint32_range].
Qed.

Lemma wf_advance s : wf s -> wf (advance s).
Proof.
  unfold wf, advance. intros (H1 & H2 & H3 & H4 & H5 & H6 & H7). simpl.
  destruct (add32 (kpos s) 8 =? add32 (hpos s) (shl32 (hslots s) 3)); simpl;
    repeat match goal with |- _ /\ _ => split end;
    try apply add32_range; assumption.
Qed.

(** What a turn leaves alone, and what it counts. *)
Lemma body_frame (c : Cdb) (key : list byte) (s : Context) :
  let s' := fst (fst (find_body c key s)) in
  hpos s' = hpos s /\ hslots s' = hslots s /\ khash s' = khash s
  /\ (loop s' = loop s \/ loop s' = add32 (loop s) 1)
  /\ (wf s -> wf s').
Proof.
  pose proof (body_shape c key s) as H.
  destruct (find_body c key s) as [[s' l] r]. simpl.
  destruct H as [[-> _]|[[-> _]|(dp & dl & -> & _ & Hdp & Hdl)]].
  - repeat match goal with |- _ /\ _ => split end; auto.
  - rewrite hpos_advance, hslots_advance, khash_advance, loop_advance.
    repeat match goal with |- _ /\ _ => split end; auto using wf_advance.
  - simpl. rewrite hpos_advance, hslots_advance, khash_advance, loop_advance.
    repeat match goal with |- _ /\ _ => split end; auto.
    intros Hw. apply wf_advance in Hw. unfold wf in *; simpl; tauto.
Qed.

Lemma body_Next (c : Cdb) (key : list byte) (s s1 : Context) l1 :
  find_body c key s = (s1, l1, Next tt) -> s1 = advance s.
Proof.
  intros H. pose proof (body_shape c key s) as Hs. rewrite H in Hs.
  destruct Hs as [[_ [Hr|Hr]]|[[-> _]|(dp & dl & _ & Hr & _)]];
    try discriminate; reflexivity.
Qed.

Lemma body_no_Fuel (c : Cdb) (key : list byte) (s : Context) :
  snd (find_body c key s) <> Fuel.
Proof.
  pose proof (body_shape c key s) as Hs.
  destruct (find_body c key s) as [[s' l] r]. simpl.
  destruct Hs as [[_ [Hr|Hr]]|[[_ [Hr|Hr]]|(dp & dl & _ & Hr & _)]];
    subst r; discriminate.
Qed.

(** Counting one more slot below [hslots] does not wrap. *)
Lemma count_slot (s : Context) :
  hslots s < 2 ^ 32 -> find_cond s = true ->
  loop s + 1 <= add32 (loop s) 1 /\ (0 <= loop s -> add32 (loop s) 1 = loop s + 1).
Proof.
  unfold find_cond. intros Hh Hc. apply Z.ltb_lt in Hc.
  split.
  - destruct (Z_lt_le_dec (loop s) 0).
    + pose proof (add32_range (loop s) 1) as Hr. unfold u32 in Hr. lia.
    + rewrite add32_small; lia.
  - intros H0. apply add32_small. lia.
Qed.

Lemma loop_no_Fuel (c : Cdb) (key : list byte) :
  forall fuel s, hslots s < 2 ^ 32 -> (slots_left s <= fuel)%nat ->
  snd (for_ fuel find_cond (find_body c key) s) <> Fuel.
Proof.
  apply (for_fuel (fun s => hslots s < 2 ^ 32) slots_left).
  - intros s HI _. destruct (body_frame c key s) as (_ & -> & _). exact HI.
  - intros s _ Hc. unfold find_cond in Hc. apply Z.ltb_lt in Hc.
    unfold slots_left. lia.
  - intros s _ _. apply body_no_Fuel.
  - intros s s1 l1 HI Hc Hb. apply body_Next in Hb. subst s1.
    unfold slots_left. rewrite hslots_advance, loop_advance.
    destruct (count_slot s HI Hc) as [Hle _].
    unfold find_cond in Hc. apply Z.ltb_lt in Hc. lia.
Qed.

End MmapLoop.

(** ** The positioned-read variant: how its parts run *)

Module ReaderFacts.
Import Reader.

Lemma length_filled c p pos : length (filled c p pos) = length p.
Proof.
  unfold filled. rewrite length_app, length_skipn, length_firstn. lia.
Qed.

Lemma ReadAt_run (c : Cdb) (p : list byte) (pos : Z) (s : Context) :
  ReadAt c p pos s
  = (s, [(pos, len p)], Next (filled c p pos, snd (r c (length p) pos))).
Proof.
  unfold ReadAt, filled, bind, access, ret.
  destruct (r c (length p) pos) as [got err]. reflexivity.
Qed.

Lemma length_nums_buf c pos s :
  (8 <= length (buf s))%nat -> length (nums_buf c pos s) = length (buf s).
Proof.
  intros H. unfold nums_buf.
  rewrite length_app, length_filled, length_firstn, length_skipn. lia.
Qed.

Lemma readNums_short (c : Cdb) (pos : Z) (s : Context) :
  (length (buf s) < 8)%nat ->
  readNums c pos s = (s, [], Panic boundsError).
Proof.
  intros H. unfold readNums, bind, get, panic.
  replace (len (buf s) <? 8) with true
    by (symmetry; apply Z.ltb_lt; unfold len; lia).
  reflexivity.
Qed.

Lemma readNums_run (c : Cdb) (pos : Z) (s : Context) :
  (8 <= length (buf s))%nat ->
  readNums c pos s
  = (set_buf (nums_buf c pos s) s, [(pos, 8)],
     let err := snd (r c 8%nat pos) in
     if negb (error_eqb err nil_error) then Panic err
     else Next (Uint32 (nums_buf c pos s), Uint32 (skipn 4 (nums_buf c pos s)))).
Proof.
  intros H. unfold readNums.
  unfold bind at 1. unfold get at 1.
  replace (len (buf s) <? 8) with false
    by (symmetry; apply Z.ltb_ge; unfold len; lia).
  rewrite (bind_Next _ _ _ _ _ _ (ReadAt_run c (firstn 8 (buf s)) pos s)).
  assert (Hl : length (firstn 8 (buf s)) = 8%nat)
    by (rewrite length_firstn; lia).
  unfold len. rewrite Hl. fold (nums_buf c pos s).
  unfold bind, modify, get, ret, panic. simpl.
  destruct (negb (error_eqb (snd (r c 8%nat pos)) nil_error)); reflexivity.
Qed.

(** Reading a file. *)
Lemma fileReader_ok (data : list byte) (pos n : Z) :
  readable data pos n ->
  fileReader data (Z.to_nat n) pos = (bytes_at data pos n, nil_error).
Proof.
  intros (Hp & Hn & Hl & _). unfold fileReader. fold (bytes_at data pos n).
  rewrite length_bytes_at by lia.
  rewrite Nat.ltb_irrefl. reflexivity.
Qed.

Lemma fileReader_EOF (data : list byte) (pos n : Z) :
  0 <= pos -> 0 < n -> len data < pos + n ->
  snd (fileReader data (Z.to_nat n) pos) = io_EOF.
Proof.
  intros Hp Hn Hl. unfold fileReader. cbn [snd].
  replace (_ <? _)%nat with true; [reflexivity|].
  symmetry. apply Nat.ltb_lt. rewrite length_firstn, length_skipn.
  unfold len in Hl. lia.
Qed.

Lemma filled_file (data p : list byte) (pos : Z) :
  readable data pos (len p) ->
  filled (New (fileReader data)) p pos = bytes_at data pos (len p).
Proof.
  intros H. unfold filled. cbn [r New].
  assert (E : fileReader data (length p) pos
              = (bytes_at data pos (len p), nil_error)).
  { rewrite <- (Nat2Z.id (length p)) at 1. apply fileReader_ok. exact H. }
  rewrite E. cbn [fst].
  assert (Hb : length (bytes_at data pos (len p)) = length p).
  { destruct H as (? & ? & ? & ?). rewrite length_bytes_at by lia.
    unfold len. apply Nat2Z.id. }
  rewrite firstn_all2 by lia.
  rewrite Hb, skipn_all, app_nil_r. reflexivity.
Qed.

Lemma readNums_file_ok (data : list byte) (pos : Z) (s : Context) :
  (8 <= length (buf s))%nat -> readable data pos 8 ->
  readNums (New (fileReader data)) pos s
  = (set_buf (bytes_at data pos 8 ++ skipn 8 (buf s)) s, [(pos, 8)],
     Next (nums_at data pos)).
Proof.
  intros Hb Hr. rewrite readNums_run by exact Hb.
  assert (Hl : len (firstn 8 (buf s)) = 8)
    by (unfold len; rewrite length_firstn; lia).
  assert (Hf : nums_buf (New (fileReader data)) pos s
               = bytes_at data pos 8 ++ skipn 8 (buf s)).
  { unfold nums_buf. rewrite filled_file by (rewrite Hl; exact Hr).
    rewrite Hl. reflexivity. }
  rewrite Hf. simpl r.
  change 8%nat with (Z.to_nat 8). rewrite (fileReader_ok data pos 8 Hr).
  change (Z.to_nat 8) with 8%nat.
  cbv beta iota zeta delta [snd negb error_eqb].
  assert (Hlen : length (bytes_at data pos 8) = 8%nat)
    by (destruct Hr as (? & ? & ? & ?); rewrite length_bytes_at; lia).
  rewrite Uint32_app by lia.
  rewrite skipn_app, Hlen. simpl (4 - 8)%nat. rewrite skipn_0.
  rewrite Uint32_app by (rewrite length_skipn; lia).
  rewrite nums_of_bytes_at by (destruct Hr; lia). reflexivity.
Qed.

Lemma readNums_file_EOF (data : list byte) (pos : Z) (s : Context) :
  (8 <= length (buf s))%nat -> 0 <= pos -> len data < pos + 8 ->
  exists b, length b = length (buf s) /\
  readNums (New (fileReader data)) pos s
  = (set_buf b s, [(pos, 8)], Panic io_EOF).
Proof.
  intros Hb Hp Hl. rewrite readNums_run by exact Hb.
  simpl r. change 8%nat with (Z.to_nat 8).
  rewrite (fileReader_EOF data pos 8) by lia.
  cbv beta iota zeta delta [snd negb error_eqb].
  eexists; split; [|reflexivity]. apply length_nums_buf. exact Hb.
Qed.

End ReaderFacts.

Module ReaderMatch.
Import Reader ReaderFacts.

Lemma set_buf_set_buf b b' s : set_buf b' (set_buf b s) = set_buf b' s.
Proof. reflexivity. Qed.

Lemma set_buf_same s : set_buf (buf s) s = s.
Proof. destruct s; reflexivity. Qed.

(** One pass of the loop of [match], unfolded. *)
Lemma match_loop_turn fuel c key n blen pos s :
  (n < length key)%nat ->
  match_loop (S fuel) c key n blen pos s
  = (let nleft := (length key - n)%nat in
     let blen := if (nleft <? blen)%nat then nleft else blen in
     let p := filled c (firstn blen (buf s)) pos in
     let err := snd (r c (length (firstn blen (buf s))) pos) in
     let s1 := set_buf (p ++ skipn blen (buf s)) s in
     let ev := (pos, len (firstn blen (buf s))) in
     if negb (error_eqb err nil_error) then (s1, [ev], Panic err)
     else if negb (bytes_Equal (firstn blen (buf s1))
                               (firstn blen (skipn n key)))
          then (s1, [ev], Next false)
          else let '(s2, l2, r2) :=
                 match_loop fuel c key (n + blen)%nat blen
                            (add32 pos (wrap32 (Z.of_nat blen))) s1 in
               (s2, ev :: l2, r2)).
Proof.
  intros Hn. cbn [match_loop].
  replace (n <? length key)%nat with true by (symmetry; apply Nat.ltb_lt; lia).
  cbv zeta.
  set (blen' := if (length key - n <? blen)%nat then (length key - n)%nat else blen).
  unfold bind at 1. unfold get at 1. unfold read.
  rewrite (bind_Next _ _ _ _ _ _ (ReadAt_run c (firstn blen' (buf s)) pos s)).
  unfold bind at 1. unfold modify at 1.
  destruct (negb (error_eqb (snd (r c (length (firstn blen' (buf s))) pos)) nil_error));
    [reflexivity|].
  unfold bind at 1. unfold get at 1.
  match goal with |- context [negb (bytes_Equal ?a ?b)] =>
    destruct (negb (bytes_Equal a b)) end; [reflexivity|].
  match goal with |- context [match_loop fuel c key ?a ?b ?d ?e] =>
    destruct (match_loop fuel c key a b d e) as [[s2 l2] r2] end.
  reflexivity.
Qed.

(** [match] only writes to the buffer, keeps its length, and ends with an
    answer or with the panic of a failed read. *)
Lemma match_loop_shape c key :
  forall fuel n blen pos s,
    (1 <= blen <= length (buf s))%nat -> (length key - n <= fuel)%nat ->
    exists b l r,
      match_loop fuel c key n blen pos s = (set_buf b s, l, r)
      /\ length b = length (buf s)
      /\ ((exists m, r = Next m) \/ (exists e, r = Panic e)).
Proof.
  induction fuel as [|fuel IH]; intros n blen pos s Hb Hf.
  - exists (buf s), [], (Next true). rewrite set_buf_same.
    simpl. replace (n <? length key)%nat with false
      by (symmetry; apply Nat.ltb_ge; lia).
    split; [reflexivity|]. split; [reflexivity|]. left. eauto.
  - destruct (Nat.ltb_spec n (length key)) as [Hn|Hn].
    + rewrite match_loop_turn by exact Hn. cbv zeta.
      set (blen' := if (length key - n <? blen)%nat
                    then (length key - n)%nat else blen).
      assert (Hb' : (1 <= blen' <= length (buf s))%nat).
      { unfold blen'. destruct (Nat.ltb_spec (length key - n) blen); lia. }
      set (b1 := filled c (firstn blen' (buf s)) pos ++ skipn blen' (buf s)).
      assert (Hl1 : length b1 = length (buf s)).
      { unfold b1. rewrite length_app, length_filled, length_firstn,
          length_skipn. lia. }
      destruct (negb (error_eqb _ nil_error)).
      { exists b1. do 2 eexists. split; [reflexivity|]. split; [exact Hl1|].
        right. eauto. }
      destruct (negb (bytes_Equal _ _)).
      { exists b1. do 2 eexists. split; [reflexivity|]. split; [exact Hl1|].
        left. eauto. }
      destruct (IH (n + blen')%nat blen'
                   (add32 pos (wrap32 (Z.of_nat blen'))) (set_buf b1 s))
        as (b2 & l2 & r2 & E & Hl2 & Hr2).
      { simpl. lia. }
      { lia. }
      rewrite E. exists b2. do 2 eexists.
      split; [reflexivity|]. split; [simpl in Hl2; lia|exact Hr2].
    + exists (buf s), [], (Next true). rewrite set_buf_same.
      simpl. replace (n <? length key)%nat with false
        by (symmetry; apply Nat.ltb_ge; lia).
      split; [reflexivity|]. split; [reflexivity|]. left. eauto.
Qed.

Lemma match_shape c key pos s :
  (1 <= length (buf s))%nat ->
  exists b l r,
    match_ c key pos s = (set_buf b s, l, r)
    /\ length b = length (buf s)
    /\ ((exists m, r = Next m) \/ (exists e, r = Panic e)).
Proof.
  intros H. unfold match_, bind, get.
  destruct (match_loop_shape c key (length key) 0%nat (length (buf s)) pos s)
    as (b & l & r & E & Hl & Hr); [lia|lia|].
  rewrite E. exists b, l, r. auto.
Qed.

Lemma bytes_Equal_split (k : nat) :
  forall a b, bytes_Equal a b
              = bytes_Equal (firstn k a) (firstn k b)
                && bytes_Equal (skipn k a) (skipn k b).
Proof.
  induction k as [|k IH]; intros a b; [reflexivity|].
  destruct a as [|x a], b as [|y b]; try reflexivity.
  simpl. rewrite (IH a b), andb_assoc. reflexivity.
Qed.

Lemma firstn_bytes_at data pos (k m : nat) :
  (k <= m)%nat ->
  firstn k (bytes_at data pos (Z.of_nat m)) = bytes_at data pos (Z.of_nat k).
Proof.
  intros H. unfold bytes_at. rewrite !Nat2Z.id, firstn_firstn.
  replace (Nat.min k m) with k by lia. reflexivity.
Qed.

Lemma skipn_bytes_at data pos (k m : nat) :
  0 <= pos -> (k <= m)%nat ->
  skipn k (bytes_at data pos (Z.of_nat m))
  = bytes_at data (pos + Z.of_nat k) (Z.of_nat (m - k)).
Proof.
  intros Hp H. unfold bytes_at.
  rewrite !Nat2Z.id, skipn_firstn_comm, skipn_skipn.
  replace (Z.to_nat (pos + Z.of_nat k)) with (k + Z.to_nat pos)%nat by lia.
  reflexivity.
Qed.

(** On a file, with the key's bytes inside the file, the chunked comparison
    computes the comparison of the whole. *)
Lemma match_loop_file data key :
  forall fuel n blen pos s,
    (1 <= blen <= length (buf s))%nat -> (length key - n <= fuel)%nat ->
    readable data pos (Z.of_nat (length key - n)) ->
    exists b l,
      match_loop fuel (New (fileReader data)) key n blen pos s
      = (set_buf b s, l,
         Next (bytes_Equal (bytes_at data pos (Z.of_nat (length key - n)))
                           (skipn n key)))
      /\ length b = length (buf s).
Proof.
  induction fuel as [|fuel IH]; intros n blen pos s Hb Hf Hr.
  - exists (buf s), []. rewrite set_buf_same.
    simpl. replace (n <? length key)%nat with false
      by (symmetry; apply Nat.ltb_ge; lia).
    replace (length key - n)%nat with 0%nat by lia.
    rewrite skipn_all2 by lia. auto.
  - destruct (Nat.ltb_spec n (length key)) as [Hn|Hn].
    + rewrite match_loop_turn by exact Hn. cbv zeta.
      set (nleft := (length key - n)%nat) in *.
      set (k := if (nleft <? blen)%nat then nleft else blen).
      assert (Hk : (1 <= k <= length (buf s))%nat /\ (k <= nleft)%nat
                   /\ (k <= blen)%nat).
      { unfold k. destruct (Nat.ltb_spec nleft blen); lia. }
      assert (Hlk : length (firstn k (buf s)) = k)
        by (rewrite length_firstn; lia).
      assert (Hrk : readable data pos (Z.of_nat k))
        by (unfold readable in *; lia).
      rewrite Hlk.
      rewrite filled_file
        by (unfold len; rewrite length_firstn;
            replace (Nat.min k (length (buf s))) with k by lia; exact Hrk).
      assert (Hlen : len (firstn k (buf s)) = Z.of_nat k)
        by (unfold len; rewrite Hlk; reflexivity).
      rewrite !Hlen. cbn [r New].
      assert (E : fileReader data k pos
                  = (bytes_at data pos (Z.of_nat k), nil_error)).
      { rewrite <- (Nat2Z.id k) at 1. apply fileReader_ok. exact Hrk. }
      rewrite E.
      cbv beta iota zeta delta [snd negb error_eqb].
      set (b1 := bytes_at data pos (Z.of_nat k) ++ skipn k (buf s)).
      assert (Hbk : length (bytes_at data pos (Z.of_nat k)) = k).
      { destruct Hrk as (? & ? & ? & ?). rewrite length_bytes_at by lia.
        apply Nat2Z.id. }
      assert (Hl1 : length b1 = length (buf s)).
      { unfold b1. rewrite length_app, Hbk, length_skipn. lia. }
      assert (Hf1 : firstn k (buf (set_buf b1 s)) = bytes_at data pos (Z.of_nat k)).
      { simpl. unfold b1. rewrite firstn_app, Hbk, Nat.sub_diag, firstn_O,
          app_nil_r. apply firstn_all2. lia. }
      rewrite Hf1.
      rewrite (bytes_Equal_split k (bytes_at data pos (Z.of_nat nleft))
                 (skipn n key)).
      rewrite firstn_bytes_at by lia.
      destruct (bytes_Equal (bytes_at data pos (Z.of_nat k))
                            (firstn k (skipn n key))).
      * cbv beta iota delta [negb andb].
        assert (Hp' : add32 pos (wrap32 (Z.of_nat k)) = pos + Z.of_nat k).
        { rewrite wrap32_small by (unfold u32, readable in *; lia).
          apply add32_small. unfold readable in *. lia. }
        rewrite Hp'.
        destruct (IH (n + k)%nat k (pos + Z.of_nat k) (set_buf b1 s))
          as (b2 & l2 & E2 & Hl2).
        { simpl. lia. }
        { lia. }
        { unfold readable in *. fold nleft in Hr. lia. }
        rewrite E2. exists b2. eexists. split; [|simpl in Hl2; lia].
        rewrite set_buf_set_buf.
        rewrite skipn_bytes_at by (unfold readable in *; lia).
        rewrite skipn_skipn.
        replace (length key - (n + k))%nat with (nleft - k)%nat by lia.
        replace (k + n)%nat with (n + k)%nat by lia.
        reflexivity.
      * cbv beta iota delta [negb andb].
        exists b1. eexists. split; [reflexivity|exact Hl1].
    + exists (buf s), []. rewrite set_buf_same.
      simpl. replace (n <? length key)%nat with false
        by (symmetry; apply Nat.ltb_ge; lia).
      replace (length key - n)%nat with 0%nat by lia.
      rewrite skipn_all2 by lia. auto.
Qed.

Lemma match_file data key pos s :
  (1 <= length (buf s))%nat -> readable data pos (len key) ->
  exists b l,
    match_ (New (fileReader data)) key pos s
    = (set_buf b s, l, Next (bytes_Equal (bytes_at data pos (len key)) key))
    /\ length b = length (buf s).
Proof.
  intros Hb Hr. unfold match_, bind, get.
  destruct (match_loop_file data key (length key) 0%nat (length (buf s)) pos s)
    as (b & l & E & Hl); [lia|lia| |].
  { rewrite Nat.sub_0_r. exact Hr. }
  rewrite E. rewrite Nat.sub_0_r. exists b, l. auto.
Qed.

End ReaderMatch.

Module ReaderBody.
Import Reader ReaderFacts ReaderMatch.

Lemma core_set_buf b s : core (set_buf b s) = core s.
Proof. reflexivity. Qed.

Lemma core_advance s : core (advance s) = Mmap.advance (core s).
Proof.
  unfold advance, Mmap.advance. simpl.
  destruct (add32 (kpos s) 8 =? add32 (hpos s) (shl32 (hslots s) 3));
    reflexivity.
Qed.

Lemma buf_advance s : buf (advance s) = buf s.
Proof.
  unfold advance. simpl.
  destruct (add32 (kpos s) 8 =? add32 (hpos s) (shl32 (hslots s) 3));
    reflexivity.
Qed.

Lemma khash_core s : Mmap.khash (core s) = khash s.
Proof. reflexivity. Qed.

(** The loop body, as far as the slot read. *)
Lemma body_unfold (c : Cdb) (key : list byte) (s : Context) :
  (8 <= length (buf s))%nat ->
  find_body c key s
  = (let b := nums_buf c (kpos s) s in
     let s0 := set_buf b s in
     let err := snd (r c 8%nat (kpos s)) in
     if negb (error_eqb err nil_error) then (s0, [(kpos s, 8)], Panic err)
     else if Uint32 (skipn 4 b) =? 0 then (s0, [(kpos s, 8)], Return io_EOF)
     else let '(s2, l2, r2) :=
            find_record c key (Uint32 b) (Uint32 (skipn 4 b)) (advance s0) in
          (s2, (kpos s, 8) :: l2, r2)).
Proof.
  intros Hb. unfold find_body.
  unfold bind at 1. unfold get at 1.
  unfold bind at 1. rewrite (readNums_run c (kpos s) s Hb). cbv zeta.
  destruct (negb (error_eqb (snd (r c 8%nat (kpos s))) nil_error));
    [reflexivity|].
  destruct (Uint32 (skipn 4 (nums_buf c (kpos s) s)) =? 0); [reflexivity|].
  unfold advance.
  unfold bind at 1 2 3 4. unfold modify at 1 2. unfold get at 1. simpl.
  destruct (add32 (kpos s) 8 =? add32 (hpos s) (shl32 (hslots s) 3)); simpl;
    match goal with
    | |- context [find_record c key ?h ?p ?x] =>
        destruct (find_record c key h p x) as [[? ?] ?]
    end; reflexivity.
Qed.

(** The record check, as far as the comparison of the keys. *)
Lemma record_unfold (c : Cdb) (key : list byte) (h pos : Z) (s : Context) :
  (8 <= length (buf s))%nat ->
  find_record c key h pos s
  = (if h =? khash s then
       let b := nums_buf c pos s in
       let s0 := set_buf b s in
       let err := snd (r c 8%nat pos) in
       if negb (error_eqb err nil_error) then (s0, [(pos, 8)], Panic err)
       else if Uint32 b =? wrap32 (len key) then
         let '(s2, l2, r2) := match_ c key (add32 pos 8) s0 in
         match r2 with
         | Next true =>
             (set_dpos (add32 (add32 pos 8) (wrap32 (len key)))
                       (set_dlen (Uint32 (skipn 4 b)) s2),
              (pos, 8) :: l2, Return nil_error)
         | Next false => (s2, (pos, 8) :: l2, Next tt)
         | Return e => (s2, (pos, 8) :: l2, Return e)
         | Panic e => (s2, (pos, 8) :: l2, Panic e)
         | Fuel => (s2, (pos, 8) :: l2, Fuel)
         end
       else (s0, [(pos, 8)], Next tt)
     else (s, [], Next tt)).
Proof.
  intros Hb. unfold find_record.
  unfold bind at 1. unfold get at 1.
  destruct (h =? khash s); [|reflexivity].
  unfold bind at 1. rewrite (readNums_run c pos s Hb). cbv zeta.
  destruct (negb (error_eqb (snd (r c 8%nat pos)) nil_error)); [reflexivity|].
  destruct (Uint32 (nums_buf c pos s) =? wrap32 (len key)); [|reflexivity].
  unfold bind at 1.
  destruct (match_ c key (add32 pos 8) (set_buf (nums_buf c pos s) s))
    as [[s2 l2] [[|]| | |]];
    unfold bind, modify, return_, ret; cbn [app]; rewrite ?app_nil_r;
    reflexivity.
Qed.

Lemma record_shape (c : Cdb) (key : list byte) (h pos : Z) (s : Context) :
  (8 <= length (buf s))%nat ->
  let '(s', l, r) := find_record c key h pos s in
  length (buf s') = length (buf s)
  /\ ((core s' = core s /\ (r = Next tt \/ exists e, r = Panic e))
      \/ (exists dp dl,
            core s' = Mmap.set_dpos dp (Mmap.set_dlen dl (core s))
            /\ r = Return nil_error /\ u32 dp /\ u32 dl)).
Proof.
  intros Hb. rewrite record_unfold by exact Hb.
  destruct (h =? khash s); [|eauto 6].
  cbv zeta. pose proof (length_nums_buf c pos s Hb) as Hl.
  destruct (negb (error_eqb _ nil_error)); [simpl; eauto 8|].
  destruct (Uint32 _ =? wrap32 _); [|simpl; eauto 8].
  destruct (match_shape c key (add32 pos 8) (set_buf (nums_buf c pos s) s))
    as (b & l & r2 & E & Hlb & Hr2); [simpl; lia|].
  rewrite E. simpl in Hlb.
  destruct Hr2 as [[[|] ->]|[e ->]]; simpl.
  - split; [lia|]. right. do 2 eexists. split; [reflexivity|].
    split; [reflexivity|]. split; [apply add32_range|apply Uint32_range].
  - split; [lia|]. eauto.
  - split; [lia|]. eauto 6.
Qed.

(** Every way a turn of the loop can end. *)
Lemma turn_shape (c : Cdb) (key : list byte) (s : Context) :
  let '(s', l, r) := find_body c key s in
  length (buf s') = length (buf s)
  /\ ((core s' = core s /\ ((exists e, r = Panic e) \/ r = Return io_EOF))
      \/ (core s' = Mmap.advance (core s)
          /\ (r = Next tt \/ exists e, r = Panic e))
      \/ (exists dp dl,
            core s' = Mmap.set_dpos dp (Mmap.set_dlen dl
                                          (Mmap.advance (core s)))
            /\ r = Return nil_error /\ u32 dp /\ u32 dl)).
Proof.
  destruct (Nat.lt_ge_cases (length (buf s)) 8) as [Hs|Hb].
  { unfold find_body. unfold bind at 1. unfold get at 1.
    rewrite (bind_Panic _ _ _ _ _ _ (readNums_short c (kpos s) s Hs)).
    eauto 8. }
  rewrite body_unfold by exact Hb. cbv zeta.
  pose proof (length_nums_buf c (kpos s) s Hb) as Hl.
  destruct (negb (error_eqb _ nil_error)); [simpl; eauto 8|].
  destruct (Uint32 _ =? 0); [simpl; eauto 8|].
  set (s0 := set_buf (nums_buf c (kpos s) s) s).
  pose proof (record_shape c key (Uint32 (nums_buf c (kpos s) s))
                (Uint32 (skipn 4 (nums_buf c (kpos s) s))) (advance s0)) as H.
  rewrite buf_advance in H. specialize (H ltac:(simpl; lia)).
  destruct (find_record c key _ _ (advance s0)) as [[s2 l2] r2].
  rewrite core_advance in H. unfold s0 in H. rewrite core_set_buf in H.
  simpl in H. destruct H as [Hlen H]. split; [lia|].
  destruct H as [[Hc Hr]|(dp & dl & Hc & Hr & Hu)].
  - right. left. auto.
  - right. right. exists dp, dl. auto.
Qed.

End ReaderBody.

(** ** The positioned-read variant on a file *)

Module ReaderFile.
Import Reader ReaderFacts ReaderMatch ReaderBody.

Section OnFile.
Variables (data key : list byte).
Let c := New (fileReader data).

Lemma nums_buf_file pos s h p :
  (8 <= length (buf s))%nat -> readable data pos 8 ->
  nums_at data pos = (h, p) ->
  snd (r c 8%nat pos) = nil_error
  /\ Uint32 (nums_buf c pos s) = h
  /\ Uint32 (skipn 4 (nums_buf c pos s)) = p.
Proof.
  intros Hb Hr Hn. pose proof (readNums_file_ok data pos s Hb Hr) as H.
  fold c in H. rewrite readNums_run in H by exact Hb. cbv zeta in H.
  assert (E : snd (r c 8%nat pos) = nil_error).
  { unfold c. cbn [r New]. change 8%nat with (Z.to_nat 8).
    rewrite (fileReader_ok data pos 8 Hr). reflexivity. }
  split; [exact E|]. rewrite E in H.
  cbv beta iota delta [negb error_eqb] in H. rewrite Hn in H.
  split; congruence.
Qed.

Lemma file_body_empty s h :
  (8 <= length (buf s))%nat ->
  readable data (kpos s) 8 -> nums_at data (kpos s) = (h, 0) ->
  exists s', find_body c key s = (s', [(kpos s, 8)], Return io_EOF)
             /\ core s' = core s /\ length (buf s') = length (buf s).
Proof.
  intros Hb Hr Hn. rewrite body_unfold by exact Hb. cbv zeta.
  destruct (nums_buf_file (kpos s) s _ _ Hb Hr Hn) as (E1 & E2 & E3).
  rewrite E1, E3. cbv beta iota delta [negb error_eqb]. rewrite Z.eqb_refl.
  eexists. split; [reflexivity|]. split; [reflexivity|].
  apply length_nums_buf. exact Hb.
Qed.

Lemma file_body_occupied s h pos :
  (8 <= length (buf s))%nat ->
  readable data (kpos s) 8 -> nums_at data (kpos s) = (h, pos) -> pos <> 0 ->
  exists s0, core s0 = core s /\ length (buf s0) = length (buf s)
  /\ find_body c key s
     = (let '(s2, l2, r) := find_record c key h pos (advance s0) in
        (s2, (kpos s, 8) :: l2, r)).
Proof.
  intros Hb Hr Hn Hp. rewrite body_unfold by exact Hb. cbv zeta.
  destruct (nums_buf_file (kpos s) s _ _ Hb Hr Hn) as (E1 & E2 & E3).
  rewrite E1, E2, E3. cbv beta iota delta [negb error_eqb].
  apply Z.eqb_neq in Hp. rewrite Hp.
  exists (set_buf (nums_buf c (kpos s) s) s).
  split; [reflexivity|]. split; [apply length_nums_buf; exact Hb|reflexivity].
Qed.

Lemma file_record_other_hash s h pos :
  h <> khash s -> find_record c key h pos s = (s, [], Next tt).
Proof.
  intros Hh. unfold find_record, bind, get.
  apply Z.eqb_neq in Hh. rewrite Hh. reflexivity.
Qed.

Lemma file_record_other_length s pos rklen rdlen :
  (8 <= length (buf s))%nat ->
  readable data pos 8 -> nums_at data pos = (rklen, rdlen) ->
  rklen <> wrap32 (len key) ->
  exists s', find_record c key (khash s) pos s = (s', [(pos, 8)], Next tt)
             /\ core s' = core s /\ length (buf s') = length (buf s).
Proof.
  intros Hb Hr Hn Hl. rewrite record_unfold by exact Hb.
  rewrite Z.eqb_refl. cbv zeta.
  destruct (nums_buf_file pos s _ _ Hb Hr Hn) as (E1 & E2 & E3).
  rewrite E1, E2. cbv beta iota delta [negb error_eqb].
  apply Z.eqb_neq in Hl. rewrite Hl.
  eexists. split; [reflexivity|]. split; [reflexivity|].
  apply length_nums_buf. exact Hb.
Qed.

Lemma record_compare s pos rdlen :
  (8 <= length (buf s))%nat -> len key < 2 ^ 32 ->
  readable data pos 8 -> nums_at data pos = (len key, rdlen) ->
  readable data (pos + 8) (len key) ->
  exists s' l,
    core s' = core s /\ length (buf s') = length (buf s)
    /\ find_record c key (khash s) pos s
       = if bytes_Equal (bytes_at data (pos + 8) (len key)) key
         then (set_dpos (pos + 8 + len key) (set_dlen rdlen s'),
               (pos, 8) :: l, Return nil_error)
         else (s', (pos, 8) :: l, Next tt).
Proof.
  intros Hb Hlen Hr Hn Hk. rewrite record_unfold by exact Hb.
  assert (Hw : wrap32 (len key) = len key)
    by (apply wrap32_small; unfold u32, len in *; lia).
  rewrite Z.eqb_refl. cbv zeta.
  destruct (nums_buf_file pos s _ _ Hb Hr Hn) as (E1 & E2 & E3).
  rewrite E1, E2, E3, Hw. cbv beta iota delta [negb error_eqb].
  rewrite Z.eqb_refl.
  assert (Ha : add32 pos 8 = pos + 8)
    by (apply add32_small; unfold readable in Hr; lia).
  rewrite Ha.
  pose proof (length_nums_buf c pos s Hb) as Hlb.
  destruct (match_file data key (pos + 8) (set_buf (nums_buf c pos s) s))
    as (b & l & E & Hl); [simpl; lia|exact Hk|].
  fold c in E. rewrite E.
  rewrite (add32_small (pos + 8) (len key)) by (unfold readable in Hk; lia).
  exists (set_buf b s), l. simpl in Hl.
  split; [reflexivity|]. split; [simpl; lia|].
  destruct (bytes_Equal (bytes_at data (pos + 8) (len key)) key); reflexivity.
Qed.

End OnFile.
End ReaderFile.

(** ** The two variants side by side *)

Module Simulation.
Import ReaderFacts.
#[local] Arguments skipn : simpl never.
#[local] Arguments firstn : simpl never.

Lemma readable_dec data pos n : {readable data pos n} + {~ readable data pos n}.
Proof.
  unfold readable.
  destruct (Z_le_dec 0 pos), (Z_le_dec 0 n), (Z_le_dec (pos + n) (len data)),
    (Z_lt_dec (pos + n) (2 ^ 32)); try (right; intros (? & ? & ? & ?); lia).
  left. auto.
Qed.

Lemma nums_at_range data pos :
  u32 (fst (nums_at data pos)) /\ u32 (snd (nums_at data pos)).
Proof. unfold nums_at. simpl. split; apply Uint32_range. Qed.

Lemma refines_bind {A B} (mm : M Mmap.Context A) rm
    (mk : A -> M Mmap.Context B) rk :
  refines mm rm -> (forall a, refines (mk a) (rk a)) ->
  refines (bind mm mk) (bind rm rk).
Proof.
  intros Hm Hk ms rs Hsim ms' ml mo Hrun Hnp.
  unfold bind in Hrun.
  destruct (mm ms) as [[ms1 ml1] [a|e|e|]] eqn:E1.
  - destruct (Hm ms rs Hsim ms1 ml1 (Next a) E1 ltac:(discriminate))
      as (rs1 & rl1 & E2 & Hsim1).
    destruct (mk a ms1) as [[ms2 ml2] mo2] eqn:E3.
    injection Hrun as <- <- <-.
    destruct (Hk a ms1 rs1 Hsim1 ms2 ml2 mo2 E3 Hnp)
      as (rs2 & rl2 & E4 & Hsim2).
    exists rs2, (rl1 ++ rl2). unfold bind. rewrite E2, E4. auto.
  - injection Hrun as <- <- <-.
    destruct (Hm ms rs Hsim ms1 ml1 (Return e) E1 ltac:(discriminate))
      as (rs1 & rl1 & E2 & Hsim1).
    exists rs1, rl1. unfold bind. rewrite E2. auto.
  - injection Hrun as <- <- <-. exfalso. apply (Hnp e). reflexivity.
  - injection Hrun as <- <- <-.
    destruct (Hm ms rs Hsim ms1 ml1 Fuel E1 ltac:(discriminate))
      as (rs1 & rl1 & E2 & Hsim1).
    exists rs1, rl1. unfold bind. rewrite E2. auto.
Qed.

Lemma refines_for (mcond : Mmap.Context -> bool) rcond mbody rbody :
  (forall ms rs, sim ms rs -> rcond rs = mcond ms) ->
  refines mbody rbody ->
  forall fuel, refines (for_ fuel mcond mbody) (for_ fuel rcond rbody).
Proof.
  intros Hc Hb. induction fuel as [|fuel IH];
    intros ms rs Hsim ms' ml mo Hrun Hnp.
  - simpl in *. rewrite (Hc ms rs Hsim).
    destruct (mcond ms); injection Hrun as <- <- <-; eauto.
  - destruct (mcond ms) eqn:Em.
    + rewrite for_turn in Hrun by exact Em.
      rewrite for_turn by (rewrite (Hc ms rs Hsim); exact Em).
      apply (refines_bind mbody rbody _ _ Hb (fun _ => IH) ms rs Hsim
               ms' ml mo Hrun Hnp).
    + rewrite for_done in Hrun by exact Em.
      rewrite for_done by (rewrite (Hc ms rs Hsim); exact Em).
      injection Hrun as <- <- <-. eauto.
Qed.

Section OnFile.
Variables (data key : list byte).
Hypothesis Hkey : len key < 2 ^ 32.
Let cm := {| Mmap.mmappedData := data |}.
Let cr := Reader.New (Reader.fileReader data).

Lemma sim_core rs ms : sim ms rs -> ms = Reader.core rs.
Proof. intros [H _]. symmetry. exact H. Qed.

Lemma record_sim h pos :
  u32 pos ->
  refines (Mmap.find_record cm key h pos) (Reader.find_record cr key h pos).
Proof.
  intros Hpos ms rs Hsim ms' ml mo Hrun Hnp.
  pose proof (sim_core rs ms Hsim) as ->. destruct Hsim as (_ & Hb & Hwf).
  destruct (Z.eq_dec h (Reader.khash rs)) as [->|Hh].
  2:{ rewrite (MmapBody.record_other_hash cm key (Reader.core rs) h pos Hh) in Hrun.
      injection Hrun as <- <- <-.
      exists rs, []. split; [|split; auto].
      apply ReaderFile.file_record_other_hash. exact Hh. }
  change (Reader.khash rs) with (Mmap.khash (Reader.core rs)) in Hrun.
  destruct (readable_dec data pos 8) as [Hr|Hr].
  2:{ rewrite (MmapBody.record_unreadable cm key (Reader.core rs) pos Hpos Hr) in Hrun.
      injection Hrun as <- <- <-. exfalso. eapply Hnp. reflexivity. }
  destruct (nums_at data pos) as [rklen rdlen] eqn:Hn.
  assert (Hw : wrap32 (len key) = len key)
    by (apply wrap32_small; unfold u32, len in *; lia).
  destruct (Z.eq_dec rklen (len key)) as [->|Hl].
  2:{ rewrite (MmapBody.record_other_length cm key (Reader.core rs) pos rklen rdlen
                 Hr Hn ltac:(rewrite Hw; exact Hl)) in Hrun.
      injection Hrun as <- <- <-.
      destruct (ReaderFile.file_record_other_length data key rs pos rklen rdlen
                  Hb Hr Hn ltac:(rewrite Hw; exact Hl))
        as (s' & E & Hc & Hlen).
      exists s'. eexists. split; [exact E|].
      split; [exact Hc|]. split; [lia|exact Hwf]. }
  destruct (readable_dec data (pos + 8) (len key)) as [Hk|Hk].
  2:{ rewrite <- Hw in Hn, Hk.
      rewrite (MmapBody.record_key_unreadable cm key (Reader.core rs) pos rdlen
                 Hr Hn Hk) in Hrun.
      injection Hrun as <- <- <-. exfalso. eapply Hnp. reflexivity. }
  destruct (ReaderFile.record_compare data key rs pos rdlen Hb Hkey Hr Hn Hk)
    as (s' & l & Hc & Hlen & E).
  fold cr in E. rewrite E.
  destruct (bytes_Equal (bytes_at data (pos + 8) (len key)) key) eqn:Eq.
  - apply bytes_Equal_eq in Eq.
    rewrite (MmapBody.record_match cm key (Reader.core rs) pos rdlen Hkey Hr Hn Hk Eq)
      in Hrun.
    injection Hrun as <- <- <-.
    do 2 eexists. split; [reflexivity|].
    split; [|split].
    + unfold Reader.core in *. simpl. injection Hc as -> -> -> -> -> _ _. reflexivity.
    + simpl. lia.
    + pose proof (nums_at_range data pos) as [_ Hd]. rewrite Hn in Hd.
      unfold Mmap.wf in *. simpl in *. unfold u32, readable in *.
      repeat match goal with |- _ /\ _ => split end; try tauto; lia.
  - assert (Hne : bytes_at data (pos + 8) (len key) <> key).
    { intros Heq. apply bytes_Equal_eq in Heq. congruence. }
    rewrite (MmapBody.record_other_key cm key (Reader.core rs) pos rdlen
               Hkey Hr Hn Hk Hne) in Hrun.
    injection Hrun as <- <- <-.
    do 2 eexists. split; [reflexivity|].
    split; [exact Hc|]. split; [lia|exact Hwf].
Qed.

Lemma body_sim :
  refines (Mmap.find_body cm key) (Reader.find_body cr key).
Proof.
  intros ms rs Hsim ms' ml mo Hrun Hnp.
  pose proof (sim_core rs ms Hsim) as ->. destruct Hsim as (_ & Hb & Hwf).
  assert (Hkp : u32 (Mmap.kpos (Reader.core rs))) by (unfold Mmap.wf in Hwf; tauto).
  destruct (readable_dec data (Mmap.kpos (Reader.core rs)) 8) as [Hr|Hr].
  2:{ rewrite (MmapBody.body_unreadable cm key (Reader.core rs) Hkp Hr) in Hrun.
      injection Hrun as <- <- <-. exfalso. eapply Hnp. reflexivity. }
  destruct (nums_at data (Mmap.kpos (Reader.core rs))) as [h pos] eqn:Hn.
  destruct (Z.eq_dec pos 0) as [->|Hp].
  - rewrite (MmapBody.body_empty cm key (Reader.core rs) h Hr Hn) in Hrun.
    injection Hrun as <- <- <-.
    destruct (ReaderFile.file_body_empty data key rs h Hb Hr Hn)
      as (s' & E & Hc & Hlen).
    exists s'. eexists. split; [exact E|].
    split; [exact Hc|]. split; [lia|exact Hwf].
  - rewrite (MmapBody.body_occupied cm key (Reader.core rs) h pos Hr Hn Hp) in Hrun.
    destruct (ReaderFile.file_body_occupied data key rs h pos Hb Hr Hn Hp)
      as (s0 & Hc & Hlen & E).
    fold cr in E. rewrite E.
    destruct (Mmap.find_record cm key h pos (Mmap.advance (Reader.core rs)))
      as [[ms2 ml2] mo2] eqn:E2.
    injection Hrun as <- <- <-.
    pose proof (nums_at_range data (Mmap.kpos (Reader.core rs))) as [_ Hu].
    rewrite Hn in Hu. simpl in Hu.
    destruct (record_sim h pos Hu (Mmap.advance (Reader.core rs))
                (Reader.advance s0)) with (2 := E2) as (rs2 & rl2 & E3 & Hsim2).
    { split; [rewrite ReaderBody.core_advance, Hc; reflexivity|].
      split; [rewrite ReaderBody.buf_advance; lia|].
      apply MmapLoop.wf_advance. exact Hwf. }
    { exact Hnp. }
    rewrite E3. eauto.
Qed.

Lemma loop_sim :
  refines (Mmap.find_loop cm key) (Reader.find_loop cr key).
Proof.
  intros ms rs Hsim ms' ml mo Hrun Hnp.
  unfold Mmap.find_loop, Reader.find_loop in *.
  unfold bind at 1 in Hrun. unfold get at 1 in Hrun.
  unfold bind at 1. unfold get at 1.
  pose proof (sim_core rs ms Hsim) as Hc.
  replace (Reader.hslots rs - Reader.loop rs)
    with (Mmap.hslots ms - Mmap.loop ms) by (rewrite Hc; reflexivity).
  destruct (for_ _ Mmap.find_cond _ ms) as [[ms2 ml2] mo2] eqn:E.
  injection Hrun as <- <- <-.
  destruct (refines_for Mmap.find_cond Reader.find_cond
              (Mmap.find_body cm key) (Reader.find_body cr key)
              ltac:(intros ? ? H; rewrite (sim_core _ _ H); reflexivity)
              body_sim _ ms rs Hsim ms2 ml2 mo2 E Hnp)
    as (rs2 & rl2 & E2 & Hsim2).
  rewrite E2. eauto.
Qed.

Lemma init_sim :
  refines (Mmap.find_init cm key) (Reader.find_init cr key).
Proof.
  intros ms rs Hsim ms' ml mo Hrun Hnp.
  pose proof (sim_core rs ms Hsim) as ->. destruct Hsim as (_ & Hb & Hwf).
  unfold Mmap.find_init, Reader.find_init in *.
  set (off := Z.land (shl32 (checksum key) 3) 2047) in *.
  assert (Hoff : u32 off)
    by (pose proof (header_offset_range (checksum key)); unfold u32; fold off in H; lia).
  destruct (readable_dec data off 8) as [Hr|Hr].
  2:{ rewrite (bind_Panic _ _ _ _ _ _
                 (MmapFacts.readNums_panic cm off (Reader.core rs) Hoff Hr)) in Hrun.
      injection Hrun as <- <- <-. exfalso. eapply Hnp. reflexivity. }
  rewrite (bind_Next _ _ _ _ _ _ (MmapFacts.readNums_ok cm off (Reader.core rs) Hr))
    in Hrun.
  rewrite (bind_Next _ _ _ _ _ _ (readNums_file_ok data off rs Hb Hr)).
  unfold cm in Hrun. cbn [Mmap.mmappedData] in Hrun.
  pose proof (nums_at_range data off) as [Hu1 Hu2].
  destruct (nums_at data off) as [p n] eqn:Hn. cbn [fst snd] in Hu1, Hu2.
  unfold bind, modify, get, return_, ret in *.
  cbn [app Mmap.hslots Mmap.set_hslots Mmap.hpos Mmap.set_hpos
       Reader.hslots Reader.set_hslots Reader.hpos Reader.set_hpos] in *.
  destruct (n =? 0); injection Hrun as <- <- <-.
  - do 2 eexists. split; [reflexivity|].
    split; [reflexivity|]. split.
    + simpl. rewrite length_app, length_skipn, length_bytes_at
        by (unfold readable in Hr; lia). lia.
    + unfold Mmap.wf in *. simpl. tauto.
  - do 2 eexists. split; [reflexivity|].
    split; [reflexivity|]. split.
    + simpl. rewrite length_app, length_skipn, length_bytes_at
        by (unfold readable in Hr; lia). lia.
    + unfold Mmap.wf in *. simpl.
      pose proof (checksum_range key). pose proof (add32_range p (shl32 (shr32 (checksum key) 8 mod n) 3)).
      tauto.
Qed.

(** The statements of [find] inside the deferred [recover]. *)
Lemma inner_sim :
  refines
    (context <- get ;;
     (if Mmap.loop context =? 0 then Mmap.find_init cm key else ret tt) ;;
     Mmap.find_loop cm key ;; return_ io_EOF)
    (context <- get ;;
     (if Reader.loop context =? 0 then Reader.find_init cr key else ret tt) ;;
     Reader.find_loop cr key ;; return_ (A := error) io_EOF).
Proof.
  intros ms rs Hsim ms' ml mo Hrun Hnp.
  unfold bind at 1 in Hrun. unfold get at 1 in Hrun.
  unfold bind at 1. unfold get at 1.
  replace (Reader.loop rs) with (Mmap.loop ms)
    by (rewrite (sim_core _ _ Hsim); reflexivity).
  cbv beta in Hrun.
  match type of Hrun with
  | context [bind ?a ?b ms] =>
      destruct (bind a b ms) as [[ms2 ml2] mo2] eqn:E
  end.
  injection Hrun as <- <- <-. cbv beta.
  assert (R : refines
                ((if Mmap.loop ms =? 0 then Mmap.find_init cm key else ret tt) ;;
                 Mmap.find_loop cm key ;; return_ (A := error) io_EOF)
                ((if Mmap.loop ms =? 0 then Reader.find_init cr key else ret tt) ;;
                 Reader.find_loop cr key ;; return_ (A := error) io_EOF)).
  { apply refines_bind.
    - destruct (Mmap.loop ms =? 0); [apply init_sim|].
      intros ms0 rs0 H0 ms1 ml1 mo1 H1 _. unfold ret in *.
      injection H1 as <- <- <-. eauto.
    - intros _. apply refines_bind; [apply loop_sim|].
      intros _ ms0 rs0 H0 ms1 ml1 mo1 H1 _. unfold return_ in *.
      injection H1 as <- <- <-. eauto. }
  destruct (R ms rs Hsim _ _ _ E Hnp) as (rs2 & rl2 & E2 & Hsim2).
  rewrite E2. eauto.
Qed.

End OnFile.
End Simulation.

(** ** Whole steps of the memory-mapped variant *)

Module MmapFind.
Import Mmap MmapFacts MmapBody MmapLoop.

Section Steps.
Variables (c : Cdb) (key : list byte).
Let data := mmappedData c.
Let off := Z.land (shl32 (checksum key) 3) 2047.

Lemma off_u32 : u32 off.
Proof.
  pose proof (header_offset_range (checksum key)) as H. fold off in H.
  unfold u32. lia.
Qed.

Lemma init_unreadable s :
  ~ readable data off 8 ->
  find_init c key s = (s, [(off, 8)], Panic boundsError).
Proof.
  intros Hr. unfold find_init. fold off.
  apply bind_Panic. apply readNums_panic; [apply off_u32|exact Hr].
Qed.

Lemma init_run s p n :
  readable data off 8 -> nums_at data off = (p, n) ->
  find_init c key s
  = if n =? 0 then (bucket p 0 s, [(off, 8)], Return io_EOF)
    else (start (checksum key) p n s, [(off, 8)], Next tt).
Proof.
  intros Hr Hn. unfold find_init. fold off.
  rewrite (bind_Next _ _ _ _ _ _ (readNums_ok c off s Hr)).
  fold data. rewrite Hn.
  unfold bind, modify, get, return_, ret.
  cbn [app hslots set_hslots hpos set_hpos].
  destruct (n =? 0) eqn:E; [|reflexivity].
  apply Z.eqb_eq in E. subst n. reflexivity.
Qed.

(** A step on a context whose [loop] is not zero goes straight to the
    loop. *)
Lemma find_resume s :
  loop s <> 0 ->
  find c key s = recover (find_loop c key ;; return_ io_EOF) s.
Proof.
  intros H. unfold find, recover.
  unfold bind at 1. unfold get at 1.
  apply Z.eqb_neq in H. rewrite H.
  unfold bind at 1. unfold ret at 1.
  destruct ((find_loop c key ;; return_ io_EOF) s) as [[s1 l1] r1].
  reflexivity.
Qed.

(** A step on a context whose [loop] is zero starts from the header. *)
Lemma find_first s :
  loop s = 0 ->
  find c key s
  = recover (find_init c key ;; find_loop c key ;; return_ io_EOF) s.
Proof.
  intros H. unfold find, recover.
  unfold bind at 1. unfold get at 1. rewrite H. cbn [Z.eqb].
  destruct ((find_init c key ;; find_loop c key ;; return_ io_EOF) s)
    as [[s1 l1] r1].
  reflexivity.
Qed.

(** The loop and what follows it, when its first turn ends the step. *)
Lemma loop_first_turn s s1 l1 r :
  find_cond s = true ->
  find_body c key s = (s1, l1, r) -> (forall u, r <> Next u) ->
  find_loop c key s = (s1, l1, r).
Proof.
  intros Hc Hb Hr. unfold find_loop, bind at 1, get at 1.
  assert (Hf : exists f, Z.to_nat (hslots s - loop s) = S f).
  { unfold find_cond in Hc. apply Z.ltb_lt in Hc.
    exists (Z.to_nat (hslots s - loop s - 1)). lia. }
  destruct Hf as [f ->]. rewrite for_turn by exact Hc.
  unfold bind. rewrite Hb.
  destruct r as [u| | |]; try reflexivity. exfalso. apply (Hr u). reflexivity.
Qed.

End Steps.
End MmapFind.

(** ** The loop and whole steps of the positioned-read variant *)

Module ReaderLoop.
Import Reader ReaderFacts ReaderMatch ReaderBody.

Ltac fields Hc :=
  pose proof (f_equal Mmap.hpos Hc) as E1;
  pose proof (f_equal Mmap.hslots Hc) as E2;
  pose proof (f_equal Mmap.khash Hc) as E3;
  pose proof (f_equal Mmap.loop Hc) as E4;
  cbn [Mmap.hpos Mmap.hslots Mmap.khash Mmap.loop Mmap.set_dpos
       Mmap.set_dlen] in E1, E2, E3, E4;
  rewrite ?MmapBody.hpos_advance in E1;
  rewrite ?MmapBody.hslots_advance in E2;
  rewrite ?MmapBody.khash_advance in E3;
  rewrite ?MmapBody.loop_advance in E4;
  cbn [core Mmap.hpos Mmap.hslots Mmap.khash Mmap.loop] in E1, E2, E3, E4.

(** What a turn leaves alone, and what it counts. *)
Lemma turn_frame (c : Cdb) (key : list byte) (s : Context) :
  let s' := fst (fst (find_body c key s)) in
  hpos s' = hpos s /\ hslots s' = hslots s /\ khash s' = khash s
  /\ (loop s' = loop s \/ loop s' = add32 (loop s) 1)
  /\ length (buf s') = length (buf s)
  /\ (wf s -> wf s').
Proof.
  pose proof (turn_shape c key s) as H.
  destruct (find_body c key s) as [[s' l] r]. cbn [fst].
  destruct H as [Hl [[Hc _]|[[Hc _]|(dp & dl & Hc & _ & Hdp & Hdl)]]];
    fields Hc; unfold wf; rewrite Hc;
    repeat match goal with |- _ /\ _ => split end; auto.
  - apply MmapLoop.wf_advance.
  - intros Hw. apply MmapLoop.wf_advance in Hw.
    unfold Mmap.wf in *. cbn. tauto.
Qed.

Lemma turn_Next (c : Cdb) (key : list byte) (s s1 : Context) l1 :
  find_body c key s = (s1, l1, Next tt) ->
  core s1 = Mmap.advance (core s).
Proof.
  intros H. pose proof (turn_shape c key s) as Hs. rewrite H in Hs.
  destruct Hs as [_ [[_ [[e Hr]|Hr]]|[[Hc _]|(dp & dl & _ & Hr & _)]]];
    try discriminate; exact Hc.
Qed.



End ReaderLoop.

Module ReaderFind.
Import Reader ReaderFacts ReaderMatch ReaderBody ReaderLoop.

Section Steps.
Variables (c : Cdb) (key : list byte).
Let off := Z.land (shl32 (checksum key) 3) 2047.

Lemma step_resume s :
  loop s <> 0 ->
  find c key s = recover (find_loop c key ;; return_ io_EOF) s.
Proof.
  intros H. unfold find, recover.
  unfold bind at 1. unfold get at 1.
  apply Z.eqb_neq in H. rewrite H.
  unfold bind at 1. unfold ret at 1.
  destruct ((find_loop c key ;; return_ io_EOF) s) as [[s1 l1] r1].
  reflexivity.
Qed.

Lemma step_first s :
  loop s = 0 ->
  find c key s
  = recover (find_init c key ;; find_loop c key ;; return_ io_EOF) s.
Proof.
  intros H. unfold find, recover.
  unfold bind at 1. unfold get at 1. rewrite H. cbn [Z.eqb].
  destruct ((find_init c key ;; find_loop c key ;; return_ io_EOF) s)
    as [[s1 l1] r1].
  reflexivity.
Qed.

Lemma loop_one_turn s s1 l1 r :
  find_cond s = true ->
  find_body c key s = (s1, l1, r) -> (forall u, r <> Next u) ->
  find_loop c key s = (s1, l1, r).
Proof.
  intros Hc Hb Hr. unfold find_loop, bind at 1, get at 1.
  assert (Hf : exists f, Z.to_nat (hslots s - loop s) = S f).
  { unfold find_cond in Hc. apply Z.ltb_lt in Hc.
    exists (Z.to_nat (hslots s - loop s - 1)). lia. }
  destruct Hf as [f ->]. rewrite for_turn by exact Hc.
  unfold bind. rewrite Hb.
  destruct r as [u| | |]; try reflexivity. exfalso. apply (Hr u). reflexivity.
Qed.

(** The header read of the first step, whatever the reader answers. *)
Lemma init_unfold s :
  (8 <= length (buf s))%nat ->
  find_init c key s
  = (let b := nums_buf c off s in
     let s0 := set_buf b s in
     let err := snd (r c 8%nat off) in
     let p := Uint32 b in
     let n := Uint32 (skipn 4 b) in
     if negb (error_eqb err nil_error) then (s0, [(off, 8)], Panic err)
     else if n =? 0 then (bucket p 0 s0, [(off, 8)], Return io_EOF)
     else (start (checksum key) p n s0, [(off, 8)], Next tt)).
Proof.
  intros Hb. unfold find_init. fold off.
  unfold bind at 1. rewrite (readNums_run c off s Hb). cbv zeta.
  destruct (negb (error_eqb (snd (r c 8%nat off)) nil_error)); [reflexivity|].
  unfold bind, modify, get, return_, ret.
  cbn [app hslots set_hslots hpos set_hpos].
  destruct (Uint32 (skipn 4 (nums_buf c off s)) =? 0) eqn:E; [|reflexivity].
  apply Z.eqb_eq in E. rewrite E. reflexivity.
Qed.

End Steps.
End ReaderFind.

(** ** Every step ends *)

Module Termination.

Lemma recover_Next {S} (body : M S error) s :
  snd (body s) <> Fuel -> exists e, snd (recover body s) = Next e.
Proof.
  unfold recover. destruct (body s) as [[s1 l1] [e|e|e|]]; cbn [snd];
    intros H; eauto. congruence.
Qed.

Lemma recover_state {S} (body : M S error) s :
  fst (recover body s) = fst (body s).
Proof.
  unfold recover. destruct (body s) as [[s1 l1] [e|e|e|]]; reflexivity.
Qed.

Lemma bind_no_Fuel {S A B} (m : M S A) (k : A -> M S B) s :
  snd (m s) <> Fuel ->
  (forall a s1 l1, m s = (s1, l1, Next a) -> snd (k a s1) <> Fuel) ->
  snd (bind m k s) <> Fuel.
Proof.
  intros Hm Hk. unfold bind.
  destruct (m s) as [[s1 l1] [a|e|e|]]; cbn [snd] in *; try discriminate;
    try congruence.
  specialize (Hk a s1 l1 eq_refl). destruct (k a s1) as [[s2 l2] r2].
  exact Hk.
Qed.

Lemma bind_get_no_Fuel {S B} (k : S -> M S B) s :
  snd (k s s) <> Fuel -> snd (bind get k s) <> Fuel.
Proof.
  intros H. unfold bind, get. destruct (k s s) as [[s2 l2] r2]. exact H.
Qed.

(** The first statements of a step of the memory-mapped variant. *)
Lemma mmap_init_shape (c : Mmap.Cdb) (key : list byte) (s : Mmap.Context) :
  let '(s', l, r) := Mmap.find_init c key s in
  (s' = s /\ r = Panic boundsError)
  \/ (exists p, u32 p /\ s' = Mmap.bucket p 0 s /\ r = Return io_EOF)
  \/ (exists p n, u32 p /\ u32 n /\ n <> 0
                  /\ s' = Mmap.start (checksum key) p n s /\ r = Next tt).
Proof.
  unfold Mmap.find_init, Mmap.readNums, Mmap.slice.
  unfold bind, get, modify, ret, return_, panic, access.
  cbn [app Mmap.hslots Mmap.set_hslots].
  destruct (_ && _); [|auto].
  match goal with |- context [?n =? 0] => destruct (n =? 0) eqn:E end.
  - apply Z.eqb_eq in E. right. left. eexists. split; [apply Uint32_range|].
    unfold Mmap.bucket. rewrite E. auto.
  - apply Z.eqb_neq in E. right. right. do 2 eexists.
    split; [apply Uint32_range|]. split; [apply Uint32_range|].
    split; [exact E|]. split; reflexivity.
Qed.

Lemma mmap_loop_no_Fuel (c : Mmap.Cdb) (key : list byte) (s : Mmap.Context) :
  Mmap.hslots s < 2 ^ 32 -> snd (Mmap.find_loop c key s) <> Fuel.
Proof.
  intros H. unfold Mmap.find_loop, bind at 1, get at 1.
  pose proof (MmapLoop.loop_no_Fuel c key (Mmap.slots_left s) s H (le_n _))
    as Hf.
  unfold Mmap.slots_left in Hf.
  destruct (for_ _ _ _ s) as [[s1 l1] r1]. exact Hf.
Qed.

Lemma mmap_find_no_Fuel (c : Mmap.Cdb) (key : list byte) (s : Mmap.Context) :
  Mmap.hslots s < 2 ^ 32 -> exists e, snd (Mmap.find c key s) = Next e.
Proof.
  intros H. unfold Mmap.find. apply recover_Next.
  apply bind_get_no_Fuel. apply bind_no_Fuel.
  - destruct (Mmap.loop s =? 0); [|discriminate].
    pose proof (mmap_init_shape c key s) as Hs.
    destruct (Mmap.find_init c key s) as [[s1 l1] r1]. cbn [snd].
    destruct Hs as [[_ ->]|[(p & _ & _ & ->)|(p & n & _ & _ & _ & _ & ->)]];
      discriminate.
  - intros u s1 l1 Hi. apply bind_no_Fuel; [|intros; discriminate].
    apply mmap_loop_no_Fuel.
    destruct (Mmap.loop s =? 0).
    + pose proof (mmap_init_shape c key s) as Hs. rewrite Hi in Hs.
      destruct Hs as [[_ Hr]|[(p & _ & _ & Hr)|(p & n & _ & Hn & _ & He & _)]];
        try discriminate.
      rewrite He. cbn. unfold u32 in Hn. lia.
    + unfold ret in Hi. injection Hi as <- _. exact H.
Qed.

(** The first statements of a step of the positioned-read variant. *)
Lemma reader_init_shape (c : Reader.Cdb) (key : list byte)
    (s : Reader.Context) :
  let '(s', l, r) := Reader.find_init c key s in
  length (Reader.buf s') = length (Reader.buf s)
  /\ ((Reader.core s' = Reader.core s /\ exists e, r = Panic e)
      \/ (exists p, u32 p /\ Reader.core s' = Mmap.bucket p 0 (Reader.core s)
                    /\ r = Return io_EOF)
      \/ (exists p n, u32 p /\ u32 n /\ n <> 0
                      /\ Reader.core s'
                         = Mmap.start (checksum key) p n (Reader.core s)
                      /\ r = Next tt)).
Proof.
  destruct (Nat.lt_ge_cases (length (Reader.buf s)) 8) as [Hs|Hb].
  { unfold Reader.find_init.
    rewrite (bind_Panic _ _ _ _ _ _
               (ReaderFacts.readNums_short c _ s Hs)).
    eauto 8. }
  rewrite ReaderFind.init_unfold by exact Hb. cbv zeta.
  pose proof (ReaderFacts.length_nums_buf c
                (Z.land (shl32 (checksum key) 3) 2047) s Hb) as Hl.
  destruct (negb (error_eqb _ nil_error)); [cbn; eauto 8|].
  match goal with |- context [?n =? 0] => destruct (n =? 0) eqn:E end.
  - split; [exact Hl|]. right. left. eexists.
    split; [apply Uint32_range|]. split; reflexivity.
  - apply Z.eqb_neq in E. split; [exact Hl|]. right. right. do 2 eexists.
    split; [apply Uint32_range|]. split; [apply Uint32_range|].
    split; [exact E|]. split; reflexivity.
Qed.



End Termination.

(** ** Steps of the two variants side by side *)

Module Equivalence.

(** The only panic of the memory-mapped variant is the bounds error. *)
Lemma bind_Panic_inv {S A B} (m : M S A) (k : A -> M S B) s s' l e :
  bind m k s = (s', l, Panic e) ->
  (exists l1, m s = (s', l1, Panic e))
  \/ (exists a s1 l1 l2, m s = (s1, l1, Next a) /\ k a s1 = (s', l2, Panic e)).
Proof.
  unfold bind. destruct (m s) as [[s1 l1] [a|e1|e1|]] eqn:E; intros H;
    try discriminate.
  - right. destruct (k a s1) as [[s2 l2] r2] eqn:E2.
    injection H as <- <- ->. eauto 8.
  - left. injection H as <- <- <-. eauto.
Qed.

Lemma for_Panic_inv {S} (cond : S -> bool) (body : M S unit) e :
  forall fuel s s' l,
    for_ fuel cond body s = (s', l, Panic e) ->
    exists s0 l0, body s0 = (s', l0, Panic e).
Proof.
  induction fuel as [|fuel IH]; intros s s' l H; simpl in H.
  - destruct (cond s); discriminate.
  - destruct (cond s); [|discriminate].
    apply bind_Panic_inv in H.
    destruct H as [[l1 H]|(a & s1 & l1 & l2 & _ & H)]; eauto.
Qed.

Lemma mmap_panics (c : Mmap.Cdb) (key : list byte) s s' l e :
  (context <- get ;;
   (if Mmap.loop context =? 0 then Mmap.find_init c key else ret tt) ;;
   Mmap.find_loop c key ;; return_ (A := error) io_EOF) s = (s', l, Panic e) ->
  e = boundsError.
Proof.
  intros H. apply bind_Panic_inv in H.
  destruct H as [[l1 H]|(a & s1 & l1 & l2 & Hg & H)]; [discriminate|].
  unfold get in Hg. injection Hg as <- <- <-.
  apply bind_Panic_inv in H.
  destruct H as [[l3 H]|(a & s2 & l3 & l4 & _ & H)].
  - destruct (Mmap.loop s =? 0); [|discriminate].
    pose proof (Termination.mmap_init_shape c key s) as Hs. rewrite H in Hs.
    destruct Hs as [[_ Hr]|[(p & _ & _ & Hr)|(p & n & _ & _ & _ & _ & Hr)]];
      congruence.
  - apply bind_Panic_inv in H.
    destruct H as [[l5 H]|(a' & s3 & l5 & l6 & _ & H)]; [|discriminate].
    unfold Mmap.find_loop in H. apply bind_Panic_inv in H.
    destruct H as [[l7 H]|(a' & s3 & l7 & l8 & _ & H)]; [discriminate|].
    apply for_Panic_inv in H. destruct H as (s0 & l0 & H).
    pose proof (MmapLoop.body_shape c key s0) as Hs. rewrite H in Hs.
    destruct Hs as [[_ [Hr|Hr]]|[[_ [Hr|Hr]]|(dp & dl & _ & Hr & _)]];
      congruence.
Qed.

Section OnFile.
Variables (data key : list byte).
Hypothesis Hkey : len key < 2 ^ 32.
Let cm := {| Mmap.mmappedData := data |}.
Let cr := Reader.New (Reader.fileReader data).

(** Whenever a step of the memory-mapped variant ends with anything but the
    bounds error, the step of the positioned-read variant on the same file
    ends with the same error value and the same counters. *)
Lemma find_sim ms rs ms' ml e :
  sim ms rs ->
  Mmap.find cm key ms = (ms', ml, Next e) -> e <> boundsError ->
  exists rs' rl, Reader.find cr key rs = (rs', rl, Next e) /\ sim ms' rs'.
Proof.
  intros Hsim Hrun He. unfold Mmap.find, recover in Hrun.
  unfold Reader.find, recover.
  match type of Hrun with
  | context [bind ?a ?b ms] => destruct (bind a b ms) as [[ms1 ml1] mo1] eqn:E
  end.
  assert (Hnp : forall e', mo1 <> Panic e').
  { intros e' ->. pose proof (mmap_panics cm key ms ms1 ml1 e' E) as ->.
    injection Hrun as _ _ <-. congruence. }
  destruct (Simulation.inner_sim data key Hkey ms rs Hsim ms1 ml1 mo1 E Hnp)
    as (rs1 & rl1 & E2 & Hsim1).
  fold cr in E2. rewrite E2.
  destruct mo1 as [e1|e1|e1|]; try discriminate;
    injection Hrun as <- <- <-; eauto.
Qed.

End OnFile.
End Equivalence.

(** ** A step as its loop *)

Module Steps.

Section MmapSteps.
Import Mmap.
Variables (c : Cdb) (key : list byte).
Let data := mmappedData c.
Let off := Z.land (shl32 (checksum key) 3) 2047.

Lemma mmap_resume s :
  loop s <> 0 ->
  find c key s
  = (let '(s2, l2, r2) := find_loop c key s in (s2, l2, close r2)).
Proof.
  intros H. rewrite MmapFind.find_resume by exact H.
  unfold recover, bind.
  destruct (find_loop c key s) as [[s2 l2] [[]|e|e|]]; cbn;
    rewrite ?app_nil_r; reflexivity.
Qed.

Lemma mmap_started s p n :
  loop s = 0 -> readable data off 8 -> nums_at data off = (p, n) -> n <> 0 ->
  find c key s
  = (let '(s2, l2, r2) := find_loop c key (start (checksum key) p n s) in
     (s2, (off, 8) :: l2, close r2)).
Proof.
  intros H Hr Hn Hz. rewrite MmapFind.find_first by exact H.
  unfold recover. unfold bind at 1.
  rewrite (MmapFind.init_run c key s p n Hr Hn).
  apply Z.eqb_neq in Hz. rewrite Hz. unfold bind.
  destruct (find_loop c key _) as [[s2 l2] [[]|e|e|]]; cbn;
    rewrite ?app_nil_r; reflexivity.
Qed.

Lemma mmap_loop_frame s :
  let s' := fst (fst (find_loop c key s)) in
  hpos s' = hpos s /\ hslots s' = hslots s /\ khash s' = khash s.
Proof.
  cbv zeta. unfold find_loop. unfold bind, get.
  set (I := fun x => hpos x = hpos s /\ hslots x = hslots s
                     /\ khash x = khash s).
  assert (Hb : forall x, I x -> find_cond x = true ->
                         I (fst (fst (find_body c key x)))).
  { intros x (H1 & H2 & H3) _.
    destruct (MmapLoop.body_frame c key x) as (E1 & E2 & E3 & _).
    unfold I. rewrite E1, E2, E3. auto. }
  pose proof (for_invariant I find_cond (find_body c key) Hb
                (Z.to_nat (hslots s - loop s)) s
                (conj eq_refl (conj eq_refl eq_refl))) as H.
  destruct (for_ _ find_cond (find_body c key) s) as [[s2 l2] r2].
  exact H.
Qed.

End MmapSteps.

Section ReaderSteps.
Import Reader.
Variables (c : Cdb) (key : list byte).
Let off := Z.land (shl32 (checksum key) 3) 2047.

Lemma reader_resume s :
  loop s <> 0 ->
  find c key s
  = (let '(s2, l2, r2) := find_loop c key s in (s2, l2, close r2)).
Proof.
  intros H. rewrite ReaderFind.step_resume by exact H.
  unfold recover, bind.
  destruct (find_loop c key s) as [[s2 l2] [[]|e|e|]]; cbn;
    rewrite ?app_nil_r; reflexivity.
Qed.

Lemma reader_loop_frame s :
  let s' := fst (fst (find_loop c key s)) in
  hpos s' = hpos s /\ hslots s' = hslots s /\ khash s' = khash s
  /\ length (buf s') = length (buf s).
Proof.
  cbv zeta. unfold find_loop. unfold bind, get.
  set (I := fun x => hpos x = hpos s /\ hslots x = hslots s
                     /\ khash x = khash s
                     /\ length (buf x) = length (buf s)).
  assert (Hb : forall x, I x -> find_cond x = true ->
                         I (fst (fst (find_body c key x)))).
  { intros x (H1 & H2 & H3 & H4) _.
    destruct (ReaderLoop.turn_frame c key x) as (E1 & E2 & E3 & _ & E4 & _).
    unfold I. rewrite E1, E2, E3, E4. auto. }
  pose proof (for_invariant I find_cond (find_body c key) Hb
                (Z.to_nat (hslots s - loop s)) s
                (conj eq_refl (conj eq_refl (conj eq_refl eq_refl)))) as H.
  destruct (for_ _ find_cond (find_body c key) s) as [[s2 l2] r2].
  exact H.
Qed.

End ReaderSteps.

Section ReaderFileSteps.
Import Reader.
Variables (data key : list byte).
Let c := New (fileReader data).
Let off := Z.land (shl32 (checksum key) 3) 2047.

Lemma reader_init_file s p n :
  (8 <= length (buf s))%nat ->
  readable data off 8 -> nums_at data off = (p, n) ->
  exists s0, core s0 = core s /\ length (buf s0) = length (buf s)
  /\ find_init c key s
     = if n =? 0 then (bucket p 0 s0, [(off, 8)], Return io_EOF)
       else (start (checksum key) p n s0, [(off, 8)], Next tt).
Proof.
  intros Hb Hr Hn. rewrite ReaderFind.init_unfold by exact Hb. fold off.
  cbv zeta.
  destruct (ReaderFile.nums_buf_file data off s p n Hb Hr Hn) as (E1 & E2 & E3).
  fold c in E1, E2, E3. rewrite E1, E2, E3.
  cbv beta iota delta [negb error_eqb].
  exists (set_buf (nums_buf c off s) s).
  split; [reflexivity|].
  split; [apply ReaderFacts.length_nums_buf; exact Hb|reflexivity].
Qed.

Lemma reader_started s p n :
  (8 <= length (buf s))%nat ->
  loop s = 0 -> readable data off 8 -> nums_at data off = (p, n) -> n <> 0 ->
  exists s0, core s0 = core s /\ length (buf s0) = length (buf s)
  /\ find c key s
     = (let '(s2, l2, r2) := find_loop c key (start (checksum key) p n s0) in
        (s2, (off, 8) :: l2, close r2)).
Proof.
  intros Hb H Hr Hn Hz. rewrite ReaderFind.step_first by exact H.
  destruct (reader_init_file s p n Hb Hr Hn) as (s0 & Hc & Hl & E).
  exists s0. split; [exact Hc|]. split; [exact Hl|].
  unfold recover. unfold bind at 1. rewrite E.
  apply Z.eqb_neq in Hz. rewrite Hz. unfold bind.
  destruct (find_loop c key _) as [[s2 l2] [[]|e|e|]]; cbn;
    rewrite ?app_nil_r; reflexivity.
Qed.

End ReaderFileSteps.
End Steps.

(** ** Turns of the loop *)

Lemma run_modify {S B} (f : S -> S) (k : unit -> M S B) s :
  bind (modify f) k s = k tt (f s).
Proof.
  unfold bind, modify. destruct (k tt (f s)) as [[s2 l2] r2]. reflexivity.
Qed.

(** Where the probe goes next: from slot [i] of a table that lies below
    2^32 to slot [i + 1], and from the last slot to slot 0. *)
Lemma advance_next_slot (s : Mmap.Context) (i : Z) :
  u32 (Mmap.hpos s) -> 0 <= i < Mmap.hslots s ->
  Mmap.hpos s + 8 * Mmap.hslots s < 2 ^ 32 ->
  Mmap.kpos s = Mmap.hpos s + 8 * i ->
  Mmap.kpos (Mmap.advance s)
  = Mmap.hpos s + 8 * ((i + 1) mod Mmap.hslots s).
Proof.
  intros Hp Hi Ht Hk. unfold u32 in Hp.
  rewrite MmapBody.kpos_advance, Hk.
  rewrite (add32_small (Mmap.hpos s + 8 * i) 8) by lia.
  rewrite shl32_3 by lia.
  rewrite (add32_small (Mmap.hpos s) (Mmap.hslots s * 8)) by lia.
  destruct (Z.eq_dec (i + 1) (Mmap.hslots s)) as [E|E].
  - replace (Mmap.hpos s + 8 * i + 8 =? Mmap.hpos s + Mmap.hslots s * 8)
      with true by (symmetry; apply Z.eqb_eq; lia).
    rewrite E, Z_mod_same_full. lia.
  - replace (Mmap.hpos s + 8 * i + 8 =? Mmap.hpos s + Mmap.hslots s * 8)
      with false by (symmetry; apply Z.eqb_neq; lia).
    rewrite Z.mod_small by lia. lia.
Qed.

(** The loop after a turn that did not return. *)
Lemma mmap_loop_turn (c : Mmap.Cdb) (key : list byte) (s : Mmap.Context) l1 :
  0 <= Mmap.loop s -> Mmap.hslots s < 2 ^ 32 -> Mmap.find_cond s = true ->
  Mmap.find_body c key s = (Mmap.advance s, l1, Next tt) ->
  Mmap.find_loop c key s
  = (let '(s2, l2, r) := Mmap.find_loop c key (Mmap.advance s) in
     (s2, l1 ++ l2, r)).
Proof.
  intros H0 Hh Hc Hb. unfold Mmap.find_loop. unfold bind, get. cbv beta.
  destruct (MmapLoop.count_slot s Hh Hc) as [_ Hs]. specialize (Hs H0).
  rewrite MmapBody.hslots_advance, MmapBody.loop_advance, Hs.
  unfold Mmap.find_cond in Hc. pose proof Hc as Hc'. apply Z.ltb_lt in Hc'.
  replace (Z.to_nat (Mmap.hslots s - Mmap.loop s))
    with (S (Z.to_nat (Mmap.hslots s - (Mmap.loop s + 1)))) by lia.
  rewrite for_turn by exact Hc. unfold bind. rewrite Hb.
  destruct (for_ _ _ _ (Mmap.advance s)) as [[s2 l2] r2]. reflexivity.
Qed.

Lemma mmap_body_hit (data key : list byte) (ms : Mmap.Context)
    (pos rdlen : Z) :
  len key < 2 ^ 32 ->
  hit data key (Mmap.khash ms) (Mmap.kpos ms) pos rdlen ->
  Mmap.find_body {| Mmap.mmappedData := data |} key ms
  = (Mmap.found pos (len key) rdlen ms,
     [(Mmap.kpos ms, 8); (pos, 8); (pos + 8, len key)], Return nil_error).
Proof.
  intros Hkey (Hr & Hn & Hp & Hr2 & Hn2 & Hr3 & Hb).
  set (cm := {| Mmap.mmappedData := data |}).
  rewrite (MmapBody.body_occupied cm key ms _ pos Hr Hn Hp).
  rewrite <- (MmapBody.khash_advance ms).
  rewrite (MmapBody.record_match cm key (Mmap.advance ms) pos rdlen
             Hkey Hr2 Hn2 Hr3 Hb).
  reflexivity.
Qed.

(** A loop that comes from [s0] to [s] does from [s0] what it does from
    [s], after the reads of the turns in between. *)
Lemma mmap_loop_via (c : Mmap.Cdb) (key : list byte) (s0 s : Mmap.Context) :
  Mmap.probes_to c key s0 s ->
  0 <= Mmap.loop s0 -> Mmap.hslots s0 < 2 ^ 32 ->
  forall s' l r, Mmap.find_loop c key s = (s', l, r) ->
  exists l0, Mmap.find_loop c key s0 = (s', l0 ++ l, r).
Proof.
  induction 1 as [s|s s1 l1 s2 Hc Hb Hp IH]; intros H0 Hh s' l r Hl.
  - exists []. exact Hl.
  - pose proof (MmapLoop.body_Next c key s s1 l1 Hb) as ->.
    destruct IH with (3 := Hl) as [l0 E].
    { rewrite MmapBody.loop_advance.
      pose proof (add32_range (Mmap.loop s) 1) as Hr. unfold u32 in Hr. lia. }
    { rewrite MmapBody.hslots_advance. exact Hh. }
    exists (l1 ++ l0).
    rewrite (mmap_loop_turn c key s l1 H0 Hh Hc Hb), E, app_assoc.
    reflexivity.
Qed.

(** The same for a resumed step and for a first step. *)
Lemma mmap_resume_via (c : Mmap.Cdb) (key : list byte) (s0 s : Mmap.Context) :
  Mmap.wf s0 -> Mmap.loop s0 <> 0 -> Mmap.probes_to c key s0 s ->
  forall s' l r, Mmap.find_loop c key s = (s', l, r) ->
  exists l0, Mmap.find c key s0 = (s', l0 ++ l, close r).
Proof.
  intros Hw Hz Hp s' l r Hl.
  assert (Hu : u32 (Mmap.loop s0) /\ u32 (Mmap.hslots s0))
    by (unfold Mmap.wf in Hw; tauto).
  unfold u32 in Hu.
  destruct (mmap_loop_via c key s0 s Hp ltac:(lia) ltac:(lia) s' l r Hl)
    as [l0 E].
  exists l0. rewrite (Steps.mmap_resume c key s0 Hz), E. reflexivity.
Qed.

Lemma mmap_started_via (c : Mmap.Cdb) (key : list byte)
    (s0 s : Mmap.Context) (p n : Z) :
  let off := Z.land (checksum key) 255 * 8 in
  Mmap.loop s0 = 0 ->
  readable (Mmap.mmappedData c) off 8 ->
  nums_at (Mmap.mmappedData c) off = (p, n) -> n <> 0 ->
  Mmap.probes_to c key (Mmap.start (checksum key) p n s0) s ->
  forall s' l r, Mmap.find_loop c key s = (s', l, r) ->
  exists l0, Mmap.find c key s0 = (s', (off, 8) :: l0 ++ l, close r).
Proof.
  intros off Hz Hr Hn Hnz Hp s' l r Hl.
  assert (Hoff : Z.land (shl32 (checksum key) 3) 2047 = off)
    by apply header_offset.
  pose proof (Simulation.nums_at_range (Mmap.mmappedData c) off) as [_ Hun].
  rewrite Hn in Hun. cbn [snd] in Hun. unfold u32 in Hun.
  destruct (mmap_loop_via c key _ s Hp) with (3 := Hl) as [l0 E].
  { cbn. lia. }
  { cbn. lia. }
  exists l0.
  rewrite (Steps.mmap_started c key s0 p n); rewrite ?Hoff; auto.
  rewrite E. reflexivity.
Qed.

(** * What a step does *)

(** C8: the key hash starts from 5381 and folds each byte [c] in by
    [h = ((h << 5) + h) ^ c] in unsigned 32-bit arithmetic, which is
    [h * 33 xor c]; the hash of the empty key is 5381 and the hash of ["a"]
    is [(5381 * 33) xor 'a'].  ([checksum] is modelled from the
    specification.) *)
Theorem checksum_spec :
  checksum [] = 5381
  /\ checksum ["a"%byte] = Z.lxor (5381 * 33) 97
  /\ (forall key c,
        checksum (key ++ [c])
        = Z.lxor (add32 (shl32 (checksum key) 5) (checksum key)) (byte_to_Z c))
  /\ (forall key c,
        checksum (key ++ [c])
        = Z.lxor (wrap32 (checksum key * 33)) (byte_to_Z c))
  /\ (forall key, u32 (checksum key)).
Proof.
  assert (Hstep : forall key c,
             checksum (key ++ [c]) = checksum_step (checksum key) c).
  { intros key c. unfold checksum. rewrite fold_left_app. reflexivity. }
  split; [reflexivity|]. split; [reflexivity|].
  split; [exact Hstep|]. split; [|exact checksum_range].
  intros key c. rewrite Hstep. unfold checksum_step. rewrite times33.
  reflexivity.
Qed.

(** C2: on the first step for a key ([loop] is 0) the first access to the
    storage is the read of the 8 bytes at [(hash & 0xFF) * 8], and when that
    read succeeds the two numbers read are what the step leaves in [hpos]
    and [hslots]; the offset the code computes, [(h << 3) & 2047] in
    unsigned 32-bit arithmetic, is [(h & 0xFF) * 8] for every [h]. *)
Theorem header_entry_read (data key : list byte) (ms : Mmap.Context)
    (rs : Reader.Context) :
  Mmap.loop ms = 0 -> Reader.loop rs = 0 ->
  (8 <= length (Reader.buf rs))%nat ->
  let off := Z.land (checksum key) 255 * 8 in
  (forall h, Z.land (shl32 h 3) 2047 = Z.land h 255 * 8)
  /\ (exists ms' l r,
        Mmap.find {| Mmap.mmappedData := data |} key ms = (ms', (off, 8) :: l, r)
        /\ (readable data off 8 ->
            (Mmap.hpos ms', Mmap.hslots ms') = nums_at data off))
  /\ (exists rs' l r,
        Reader.find (Reader.New (Reader.fileReader data)) key rs
        = (rs', (off, 8) :: l, r)
        /\ (readable data off 8 ->
            (Reader.hpos rs', Reader.hslots rs') = nums_at data off)).
Proof.
  intros Hm Hr Hb off. split; [exact header_offset|].
  assert (Hoff : Z.land (shl32 (checksum key) 3) 2047 = off)
    by apply header_offset.
  set (cm := {| Mmap.mmappedData := data |}).
  set (cr := Reader.New (Reader.fileReader data)).
  destruct (Simulation.readable_dec data off 8) as [Hrd|Hrd].
  - destruct (nums_at data off) as [p n] eqn:Hn.
    destruct (Z.eq_dec n 0) as [->|Hz].
    + split.
      * rewrite (MmapFind.find_first cm key ms Hm).
        unfold recover. unfold bind at 1.
        rewrite (MmapFind.init_run cm key ms p 0); rewrite ?Hoff; auto.
        cbn [Z.eqb]. do 3 eexists. split; [reflexivity|]. reflexivity.
      * rewrite (ReaderFind.step_first cr key rs Hr).
        destruct (Steps.reader_init_file data key rs p 0 Hb)
          as (s0 & Hc & Hl & E); rewrite ?Hoff; auto.
        unfold recover. unfold bind at 1. fold cr in E. rewrite E.
        rewrite Hoff. cbn [Z.eqb]. do 3 eexists. split; reflexivity.
    + split.
      * rewrite (Steps.mmap_started cm key ms p n); rewrite ?Hoff; auto.
        pose proof (Steps.mmap_loop_frame cm key
                      (Mmap.start (checksum key) p n ms)) as (E1 & E2 & _).
        destruct (Mmap.find_loop cm key _) as [[s2 l2] r2].
        do 3 eexists. split; [reflexivity|]. intros _.
        cbn in E1, E2. rewrite E1, E2. reflexivity.
      * destruct (Steps.reader_started data key rs p n Hb Hr)
          as (s0 & Hc & Hl & E); rewrite ?Hoff; auto.
        fold cr in E. rewrite E. rewrite Hoff.
        pose proof (Steps.reader_loop_frame cr key
                      (Reader.start (checksum key) p n s0)) as (E1 & E2 & _).
        destruct (Reader.find_loop cr key _) as [[s2 l2] r2].
        do 3 eexists. split; [reflexivity|]. intros _.
        cbn in E1, E2. rewrite E1, E2. reflexivity.
  - split.
    + rewrite (MmapFind.find_first cm key ms Hm).
      unfold recover. unfold bind at 1.
      rewrite (MmapFind.init_unreadable cm key ms); rewrite ?Hoff; auto.
      do 3 eexists. split; [reflexivity|]. intros H. contradiction.
    + rewrite (ReaderFind.step_first cr key rs Hr).
      unfold recover. unfold bind at 1.
      rewrite (ReaderFind.init_unfold cr key rs Hb). rewrite Hoff. cbv zeta.
      destruct (negb _);
        [|destruct (_ =? 0)];
        try (do 3 eexists; split; [reflexivity|]; intros H; contradiction).
      unfold bind.
      destruct (Reader.find_loop cr key _) as [[s2 l2] [[]|e|e|]];
        do 3 eexists; (split; [reflexivity|]); intros H; contradiction.
Qed.

Lemma header_entry_read_witness :
  let off := Z.land (checksum key_a) 255 * 8 in
  (forall h, Z.land (shl32 h 3) 2047 = Z.land h 255 * 8)
  /\ (exists ms' l r,
        Mmap.find {| Mmap.mmappedData := db_dup |} key_a Mmap.NewContext
        = (ms', (off, 8) :: l, r)
        /\ (readable db_dup off 8 ->
            (Mmap.hpos ms', Mmap.hslots ms') = nums_at db_dup off))
  /\ (exists rs' l r,
        Reader.find (Reader.New (Reader.fileReader db_dup)) key_a
                    Reader.NewContext
        = (rs', (off, 8) :: l, r)
        /\ (readable db_dup off 8 ->
            (Reader.hpos rs', Reader.hslots rs') = nums_at db_dup off)).
Proof.
  apply (header_entry_read db_dup key_a Mmap.NewContext Reader.NewContext).
  - reflexivity.
  - reflexivity.
  - vm_compute. lia.
Defined.

(** C7: when the header entry selected by the key's hash has [numSlots]
    zero, the first step returns [io.EOF] (not found) having performed the
    8-byte read of the header entry and no other access to the storage. *)
Theorem empty_bucket (data key : list byte) (ms : Mmap.Context)
    (rs : Reader.Context) (p : Z) :
  Mmap.loop ms = 0 -> Reader.core rs = ms ->
  (8 <= length (Reader.buf rs))%nat ->
  let off := Z.land (checksum key) 255 * 8 in
  readable data off 8 -> nums_at data off = (p, 0) ->
  Mmap.find {| Mmap.mmappedData := data |} key ms
  = (Mmap.bucket p 0 ms, [(off, 8)], Next io_EOF)
  /\ exists rs',
       Reader.find (Reader.New (Reader.fileReader data)) key rs
       = (rs', [(off, 8)], Next io_EOF)
       /\ Reader.core rs' = Mmap.bucket p 0 ms.
Proof.
  intros Hm Hc Hb off Hr Hn.
  assert (Hoff : Z.land (shl32 (checksum key) 3) 2047 = off)
    by apply header_offset.
  set (cm := {| Mmap.mmappedData := data |}).
  set (cr := Reader.New (Reader.fileReader data)).
  split.
  - rewrite (MmapFind.find_first cm key ms Hm).
    unfold recover. unfold bind at 1.
    rewrite (MmapFind.init_run cm key ms p 0); rewrite ?Hoff; auto.
  - assert (Hl : Reader.loop rs = 0) by (rewrite <- Hc in Hm; exact Hm).
    rewrite (ReaderFind.step_first cr key rs Hl).
    destruct (Steps.reader_init_file data key rs p 0 Hb)
      as (s0 & Hc0 & _ & E); rewrite ?Hoff; auto.
    unfold recover. unfold bind at 1. fold cr in E. rewrite E, Hoff.
    cbn [Z.eqb]. eexists. split; [reflexivity|].
    unfold Reader.bucket, Mmap.bucket. rewrite <- Hc, <- Hc0. reflexivity.
Qed.

Lemma empty_bucket_witness :
  Mmap.find {| Mmap.mmappedData := db_empty |} key_a Mmap.NewContext
  = (Mmap.bucket 0 0 Mmap.NewContext,
     [(Z.land (checksum key_a) 255 * 8, 8)], Next io_EOF)
  /\ exists rs',
       Reader.find (Reader.New (Reader.fileReader db_empty)) key_a
                   Reader.NewContext
       = (rs', [(Z.land (checksum key_a) 255 * 8, 8)], Next io_EOF)
       /\ Reader.core rs' = Mmap.bucket 0 0 Mmap.NewContext.
Proof.
  apply (empty_bucket db_empty key_a Mmap.NewContext Reader.NewContext 0).
  - reflexivity.
  - reflexivity.
  - vm_compute. lia.
  - vm_compute. intuition discriminate.
  - vm_compute. reflexivity.
Defined.

Lemma reader_loop_empty (data key : list byte) (rs : Reader.Context) (h : Z) :
  (8 <= length (Reader.buf rs))%nat ->
  Reader.find_cond rs = true ->
  readable data (Reader.kpos rs) 8 ->
  nums_at data (Reader.kpos rs) = (h, 0) ->
  exists rs',
    Reader.find_body (Reader.New (Reader.fileReader data)) key rs
    = (rs', [(Reader.kpos rs, 8)], Return io_EOF)
    /\ Reader.find_loop (Reader.New (Reader.fileReader data)) key rs
       = (rs', [(Reader.kpos rs, 8)], Return io_EOF)
    /\ Reader.core rs' = Reader.core rs.
Proof.
  intros Hb Hc Hr Hn.
  destruct (ReaderFile.file_body_empty data key rs h Hb Hr Hn) as (rs' & E & Hc' & _).
  exists rs'. split; [exact E|]. split; [|exact Hc'].
  apply ReaderFind.loop_one_turn; [exact Hc|exact E|discriminate].
Qed.

(** C4: a turn of the probe loop that reads a slot whose [recordPos] is 0
    ends the step with [io.EOF] (not found): [loop] and [kpos] and every
    other counter stay as they were, and the read of the slot is the only
    access to the storage the turn makes.  This holds for the turn alone,
    for the loop entered at that slot, for a step that resumes there, for a
    first step whose probe starts there, and for a step whose probe comes
    there after turns at other slots. *)
Theorem empty_slot_ends_probe (data key : list byte) (ms : Mmap.Context)
    (rs : Reader.Context) (h : Z) :
  Reader.core rs = ms -> (8 <= length (Reader.buf rs))%nat ->
  Mmap.find_cond ms = true ->
  readable data (Mmap.kpos ms) 8 -> nums_at data (Mmap.kpos ms) = (h, 0) ->
  let cm := {| Mmap.mmappedData := data |} in
  let cr := Reader.New (Reader.fileReader data) in
  let slot_read := (Mmap.kpos ms, 8) in
  let off := Z.land (checksum key) 255 * 8 in
  Mmap.find_body cm key ms = (ms, [slot_read], Return io_EOF)
  /\ (exists rs', Reader.find_body cr key rs = (rs', [slot_read], Return io_EOF)
                  /\ Reader.core rs' = ms)
  /\ Mmap.find_loop cm key ms = (ms, [slot_read], Return io_EOF)
  /\ (exists rs', Reader.find_loop cr key rs = (rs', [slot_read], Return io_EOF)
                  /\ Reader.core rs' = ms)
  /\ (Mmap.loop ms <> 0 ->
      Mmap.find cm key ms = (ms, [slot_read], Next io_EOF)
      /\ exists rs', Reader.find cr key rs = (rs', [slot_read], Next io_EOF)
                     /\ Reader.core rs' = ms)
  /\ (forall ms0 rs0 p n,
        Mmap.loop ms0 = 0 -> Reader.core rs0 = ms0 ->
        (8 <= length (Reader.buf rs0))%nat ->
        readable data off 8 -> nums_at data off = (p, n) -> n <> 0 ->
        ms = Mmap.start (checksum key) p n ms0 ->
        Mmap.find cm key ms0 = (ms, [(off, 8); slot_read], Next io_EOF)
        /\ exists rs', Reader.find cr key rs0
                       = (rs', [(off, 8); slot_read], Next io_EOF)
                       /\ Reader.core rs' = ms)
  (* a resumed step whose probe comes to this slot after other turns *)
  /\ (forall ms0 rs0,
        len key < 2 ^ 32 -> sim ms0 rs0 -> Mmap.loop ms0 <> 0 ->
        Mmap.probes_to cm key ms0 ms ->
        (exists l0, Mmap.find cm key ms0
                    = (ms, l0 ++ [slot_read], Next io_EOF))
        /\ exists rs' rl, Reader.find cr key rs0 = (rs', rl, Next io_EOF)
                          /\ Reader.core rs' = ms)
  (* a first step whose probe comes to this slot after other turns *)
  /\ (forall ms0 rs0 p n,
        len key < 2 ^ 32 -> sim ms0 rs0 -> Mmap.loop ms0 = 0 ->
        readable data off 8 -> nums_at data off = (p, n) -> n <> 0 ->
        Mmap.probes_to cm key (Mmap.start (checksum key) p n ms0) ms ->
        (exists l0, Mmap.find cm key ms0
                    = (ms, (off, 8) :: l0 ++ [slot_read], Next io_EOF))
        /\ exists rs' rl, Reader.find cr key rs0 = (rs', rl, Next io_EOF)
                          /\ Reader.core rs' = ms).
Proof.
  intros Hc Hb Hcond Hr Hn cm cr slot_read off.
  assert (Hoff : Z.land (shl32 (checksum key) 3) 2047 = off)
    by apply header_offset.
  assert (Hk : Reader.kpos rs = Mmap.kpos ms) by (rewrite <- Hc; reflexivity).
  assert (Hrc : Reader.find_cond rs = true) by (rewrite <- Hc in Hcond; exact Hcond).
  pose proof (MmapBody.body_empty cm key ms h Hr Hn) as Hbody.
  assert (Hloop : Mmap.find_loop cm key ms = (ms, [slot_read], Return io_EOF)).
  { apply MmapFind.loop_first_turn; [exact Hcond|exact Hbody|discriminate]. }
  destruct (reader_loop_empty data key rs h Hb Hrc) as (rs' & E1 & E2 & Hc');
    rewrite ?Hk; auto.
  rewrite Hk in E1, E2. rewrite Hc in Hc'.
  split; [exact Hbody|]. split; [eauto|]. split; [exact Hloop|].
  split; [eauto|]. split; [|split; [|split]].
  3:{ intros ms0 rs0 Hkey Hsim0 Hz Hp.
      destruct (mmap_resume_via cm key ms0 ms) with (4 := Hloop) as [l0 E];
        [destruct Hsim0 as (_ & _ & Hw); exact Hw|exact Hz|exact Hp|].
      cbn [close] in E. split; [eauto|].
      destruct (Equivalence.find_sim data key Hkey ms0 rs0 _ _ _ Hsim0 E
                  ltac:(discriminate)) as (rs1 & rl & E3 & Hc3 & _).
      eauto. }
  3:{ intros ms0 rs0 p n Hkey Hsim0 Hz Hr0 Hn0 Hnz Hp.
      destruct (mmap_started_via cm key ms0 ms p n Hz Hr0 Hn0 Hnz Hp)
        with (1 := Hloop) as [l0 E].
      cbn [close] in E. split; [eauto|].
      destruct (Equivalence.find_sim data key Hkey ms0 rs0 _ _ _ Hsim0 E
                  ltac:(discriminate)) as (rs1 & rl & E3 & Hc3 & _).
      eauto. }
  - intros Hnz. split.
    + rewrite (Steps.mmap_resume cm key ms Hnz), Hloop. reflexivity.
    + assert (Hnz' : Reader.loop rs <> 0) by (rewrite <- Hc in Hnz; exact Hnz).
      rewrite (Steps.reader_resume cr key rs Hnz'). fold cr in E2.
      rewrite E2. eauto.
  - intros ms0 rs0 p n Hl0 Hc0 Hb0 Hr0 Hn0 Hz Hms. split.
    + rewrite (Steps.mmap_started cm key ms0 p n); rewrite ?Hoff; auto.
      rewrite <- Hms, Hloop. reflexivity.
    + assert (Hl0' : Reader.loop rs0 = 0) by (rewrite <- Hc0 in Hl0; exact Hl0).
      destruct (Steps.reader_started data key rs0 p n Hb0 Hl0')
        as (s0 & Hcs & Hls & E); rewrite ?Hoff; auto.
      fold cr in E. rewrite E, Hoff.
      set (s1 := Reader.start (checksum key) p n s0).
      assert (Hc1 : Reader.core s1 = ms).
      { rewrite Hms, <- Hc0, <- Hcs. reflexivity. }
      assert (Hk1 : Reader.kpos s1 = Mmap.kpos ms)
        by (rewrite <- Hc1; reflexivity).
      destruct (reader_loop_empty data key s1 h) as (rs1 & _ & E3 & Hc3).
      { unfold s1. cbn. lia. }
      { rewrite <- Hc1 in Hcond. exact Hcond. }
      { rewrite Hk1. exact Hr. }
      { rewrite Hk1. exact Hn. }
      fold cr in E3. rewrite E3, Hk1. eexists. split; [reflexivity|].
      rewrite Hc3. exact Hc1.
Qed.

Lemma empty_slot_ends_probe_witness :
  Mmap.find {| Mmap.mmappedData := db_dup |} key_a dup_second
  = (dup_second, [(2064, 8)], Next io_EOF).
Proof.
  refine (proj1 (proj1 (proj2 (proj2 (proj2 (proj2
            (empty_slot_ends_probe db_dup key_a dup_second
               (with_buf dup_second) 0 _ _ _ _ _))))) _)).
  - reflexivity.
  - vm_compute. lia.
  - reflexivity.
  - vm_compute. intuition discriminate.
  - vm_compute. reflexivity.
  - vm_compute. discriminate.
Defined.

(** A record header that lies past the end of the file makes the record
    check of the positioned-read variant panic with [io.EOF], the error
    [os.File.ReadAt] reports there. *)
Lemma reader_record_past_EOF (data key : list byte) (rs : Reader.Context)
    (pos : Z) :
  (8 <= length (Reader.buf rs))%nat -> 0 <= pos -> len data < pos + 8 ->
  exists rs',
    Reader.find_record (Reader.New (Reader.fileReader data)) key
                       (Reader.khash rs) pos rs
    = (rs', [(pos, 8)], Panic io_EOF).
Proof.
  intros Hb Hp Hl. unfold Reader.find_record.
  unfold bind at 1. unfold get at 1. rewrite Z.eqb_refl.
  destruct (ReaderFacts.readNums_file_EOF data pos rs Hb Hp Hl) as (b & _ & E).
  rewrite (bind_Panic _ _ _ _ _ _ E). eauto.
Qed.

(** C1, at the failing input: in [db_corrupt] the slot of key [a] points to
    offset 5000 of a file of 2056 bytes.  The positioned-read variant
    returns [io.EOF] for that key, the value it returns for a key that is
    absent, so the caller cannot tell the two apart; the memory-mapped
    variant returns the bounds error on the same file. *)
Theorem corrupt_record_reads_as_EOF :
  snd (Reader.find (Reader.New (Reader.fileReader db_corrupt)) key_a
                   Reader.NewContext) = Next io_EOF
  /\ snd (Reader.find (Reader.New (Reader.fileReader db_empty)) key_a
                      Reader.NewContext) = Next io_EOF
  /\ snd (Reader.FindNext (Reader.New (Reader.fileReader db_corrupt)) key_a
                          Reader.NewContext) = Next (None, io_EOF)
  /\ snd (Reader.FindNext (Reader.New (Reader.fileReader db_empty)) key_a
                          Reader.NewContext) = Next (None, io_EOF)
  /\ snd (Mmap.find {| Mmap.mmappedData := db_corrupt |} key_a
                    Mmap.NewContext) = Next boundsError
  /\ snd (fst (Reader.find (Reader.New (Reader.fileReader db_corrupt)) key_a
                           Reader.NewContext))
     = [(1568, 8); (2048, 8); (5000, 8)].
Proof. repeat split; vm_compute; reflexivity. Qed.

Lemma mmap_slice_Next (c : Mmap.Cdb) (lo n : Z) s s' l d :
  u32 lo -> u32 n -> Mmap.slice c lo n s = (s', l, Next d) ->
  readable (Mmap.mmappedData c) lo n
  /\ d = bytes_at (Mmap.mmappedData c) lo n /\ s' = s.
Proof.
  intros Hlo Hn H.
  destruct (Simulation.readable_dec (Mmap.mmappedData c) lo n) as [Hr|Hr].
  - rewrite (MmapFacts.slice_ok c lo n s Hr) in H.
    injection H as <- _ <-. auto.
  - rewrite (MmapFacts.slice_panic c lo n s Hlo Hn Hr) in H. discriminate.
Qed.

Lemma reader_read_file (data : list byte) (pos n : Z) s :
  readable data pos n ->
  Reader.read (Reader.New (Reader.fileReader data))
              (repeat x00 (Z.to_nat n)) pos s
  = (s, [(pos, n)], Next (bytes_at data pos n, nil_error)).
Proof.
  intros Hr. unfold Reader.read. rewrite ReaderFacts.ReadAt_run.
  assert (Hl : len (repeat x00 (Z.to_nat n)) = n).
  { unfold len. rewrite repeat_length. destruct Hr as (_ & ? & _). lia. }
  rewrite ReaderFacts.filled_file by (rewrite Hl; exact Hr).
  rewrite Hl. cbn [Reader.r Reader.New]. rewrite repeat_length.
  rewrite (ReaderFacts.fileReader_ok data pos n Hr). reflexivity.
Qed.

(** C9, as amended: on the same file, for a key shorter than 2^32 bytes and
    contexts with the same counters, whenever a step of the memory-mapped
    variant ends with anything but the bounds error (so with [nil] or
    [io.EOF]), the step of the positioned-read variant ends with the same
    error value and leaves the same counters, [dpos] and [dlen] among them;
    and, whatever the step from that context would do, whenever [Data] of
    the memory-mapped variant returns anything but the bounds error, [Data]
    of the positioned-read variant returns the same bytes and the same
    error and leaves the same counters. *)
Theorem variants_agree (data key : list byte) (ms : Mmap.Context)
    (rs : Reader.Context) :
  len key < 2 ^ 32 -> sim ms rs ->
  let cm := {| Mmap.mmappedData := data |} in
  let cr := Reader.New (Reader.fileReader data) in
  (forall ms' ml e,
     Mmap.find cm key ms = (ms', ml, Next e) -> e <> boundsError ->
     exists rs' rl, Reader.find cr key rs = (rs', rl, Next e)
                    /\ Reader.core rs' = ms')
  /\ (forall ms2 ml2 d e2,
        Mmap.Data cm key ms = (ms2, ml2, Next (d, e2)) -> e2 <> boundsError ->
        exists rs2 rl2, Reader.Data cr key rs = (rs2, rl2, Next (d, e2))
                        /\ Reader.core rs2 = ms2).
Proof.
  intros Hkey Hsim cm cr. split.
  - intros ms' ml e Hrun He.
    destruct (Equivalence.find_sim data key Hkey ms rs ms' ml e Hsim Hrun He)
      as (rs' & rl & E & Hc & _).
    eauto.
  - intros ms2 ml2 d e2 HD He2.
    unfold Mmap.Data, Mmap.FindStart in HD. rewrite run_modify in HD.
    unfold Reader.Data, Reader.FindStart. rewrite run_modify.
    assert (Hsim0 : sim (Mmap.set_loop 0 ms) (Reader.set_loop 0 rs)).
    { destruct Hsim as (Hc & Hb & Hw). split; [rewrite <- Hc; reflexivity|].
      split; [exact Hb|]. unfold Mmap.wf, u32 in *. cbn. intuition lia. }
    unfold bind at 1 in HD. unfold bind at 1.
    destruct (Mmap.find cm key (Mmap.set_loop 0 ms)) as [[ms1 ml1] [e1|e1|e1|]]
      eqn:E1; try discriminate.
    destruct (error_eqb e1 nil_error) eqn:Enil.
    + assert (e1 = nil_error) by (destruct e1; try discriminate; reflexivity).
      subst e1.
      destruct (Equivalence.find_sim data key Hkey _ _ ms1 ml1 nil_error
                  Hsim0 E1 ltac:(discriminate)) as (rs1 & rl1 & E2 & Hsim1).
      fold cr in E2. rewrite E2. cbn [negb error_eqb] in *.
      unfold bind at 1 in HD. unfold get at 1 in HD.
      unfold bind at 1. unfold get at 1.
      destruct Hsim1 as (Hc1 & Hb1 & Hw1).
      unfold bind in HD.
      destruct (Mmap.slice cm (Mmap.dpos ms1) (Mmap.dlen ms1) ms1)
        as [[s3 l3] [d3|e3|e3|]] eqn:E3; try discriminate.
      apply mmap_slice_Next in E3;
        [|unfold Mmap.wf in Hw1; tauto|unfold Mmap.wf in Hw1; tauto].
      destruct E3 as (Hr & -> & ->).
      unfold ret in HD. injection HD as <- <- <- <-.
      cbv beta. unfold cr.
      replace (Reader.dpos rs1) with (Mmap.dpos ms1) by (rewrite <- Hc1; reflexivity).
      replace (Reader.dlen rs1) with (Mmap.dlen ms1) by (rewrite <- Hc1; reflexivity).
      rewrite (reader_read_file data _ _ rs1 Hr).
      do 2 eexists. split; [reflexivity|exact Hc1].
    + cbn [negb] in *. unfold ret in HD. injection HD as <- <- <- <-.
      destruct (Equivalence.find_sim data key Hkey _ _ ms1 ml1 e1
                  Hsim0 E1 He2) as (rs1 & rl1 & E2 & Hc1 & _).
      fold cr in E2. rewrite E2. rewrite Enil. cbn [negb].
      unfold ret. do 2 eexists. split; [reflexivity|exact Hc1].
Qed.

(** The step resumed after the first match of [a] in [db_dup]; and [Data]
    for a key of an empty bucket of [db_corrupt], from a context whose own
    next step would run into the damaged slot. *)
Lemma variants_agree_witness :
  (exists rs' rl,
     Reader.find (Reader.New (Reader.fileReader db_dup)) key_a
                 (with_buf dup_first)
     = (rs', rl, Next nil_error)
     /\ Reader.core rs' = dup_second)
  /\ (exists rs2 rl2,
        Reader.Data (Reader.New (Reader.fileReader db_corrupt)) ["b"%byte]
                    (with_buf wrap_second)
        = (rs2, rl2, Next ([], io_EOF))
        /\ Reader.core rs2
           = Mmap.bucket 0 0 (Mmap.set_loop 0 wrap_second)).
Proof.
  split.
  - refine (proj1 (variants_agree db_dup key_a dup_first (with_buf dup_first)
                     _ _)
              dup_second [(2056, 8); (2082, 8); (2090, 1)] nil_error _ _).
    + vm_compute. reflexivity.
    + split; [reflexivity|]. split; [vm_compute; lia|].
      vm_compute. intuition discriminate.
    + vm_compute. reflexivity.
    + discriminate.
  - refine (proj2 (variants_agree db_corrupt ["b"%byte] wrap_second
                     (with_buf wrap_second) _ _)
              (Mmap.bucket 0 0 (Mmap.set_loop 0 wrap_second))
              [(1592, 8)] [] io_EOF _ _).
    + vm_compute. reflexivity.
    + split; [reflexivity|]. split; [vm_compute; lia|].
      vm_compute. intuition discriminate.
    + vm_compute. reflexivity.
    + discriminate.
Defined.

(** C9, as stated, fails.  On [db_corrupt], whose only slot points past the
    end of the file, the two variants started from contexts with the same
    counters return different errors: the memory-mapped variant the bounds
    error, the positioned-read variant [io.EOF].  On [db_chunk], where the
    first slot probed points to a record whose key is cut off by the end of
    the file, the memory-mapped variant returns the bounds error, while the
    positioned-read variant, comparing the key 64 bytes at a time, drops the
    record at the first chunk, goes on and finds the key in the next slot. *)
Lemma variants_differ_on_corrupt_file :
  Reader.core Reader.NewContext = Mmap.NewContext
  /\ snd (Mmap.find {| Mmap.mmappedData := db_corrupt |} key_a
                    Mmap.NewContext) = Next boundsError
  /\ snd (Reader.find (Reader.New (Reader.fileReader db_corrupt)) key_a
                      Reader.NewContext) = Next io_EOF
  /\ snd (Mmap.find {| Mmap.mmappedData := db_chunk |} key65
                    Mmap.NewContext) = Next boundsError
  /\ snd (Reader.find (Reader.New (Reader.fileReader db_chunk)) key65
                      Reader.NewContext) = Next nil_error
  /\ Reader.dpos (fst (fst (Reader.find
                              (Reader.New (Reader.fileReader db_chunk))
                              key65 Reader.NewContext))) = 2137
  /\ Mmap.dpos (fst (fst (Mmap.find {| Mmap.mmappedData := db_chunk |}
                                    key65 Mmap.NewContext))) = 0
  /\ ~ (forall data key,
          snd (Reader.find (Reader.New (Reader.fileReader data)) key
                           Reader.NewContext)
          = snd (Mmap.find {| Mmap.mmappedData := data |} key
                           Mmap.NewContext)).
Proof.
  do 7 (split; [vm_compute; reflexivity|]).
  intros H. specialize (H db_chunk key65). vm_compute in H. discriminate.
Qed.










Lemma bind_state {S A B} (m : M S A) (k : A -> M S B) s :
  fst (fst (bind m k s))
  = match m s with
    | (s1, _, Next a) => fst (fst (k a s1))
    | (s1, _, _) => s1
    end.
Proof.
  unfold bind. destruct (m s) as [[s1 l1] [a|e|e|]]; try reflexivity.
  destruct (k a s1) as [[s2 l2] r2]. reflexivity.
Qed.







(** C3: a turn of the probe loop at a slot that holds the key's hash and
    points to a record whose key has the length of the query key and the
    same bytes returns found ([nil]) with [dpos = recordPos + 8 + keyLen]
    and [dlen] the record's data length, [loop] counted up by one and [kpos]
    moved to the next slot, back to [hpos] at the end of the table; a step,
    resumed or first, whose probe comes to that slot returns the same, and
    the step after it goes straight to the loop, at the next slot, without
    resetting [loop]. *)
Theorem match_returns_record (data key : list byte) (ms : Mmap.Context)
    (rs : Reader.Context) (pos rdlen : Z) :
  sim ms rs -> len key < 2 ^ 32 -> Mmap.find_cond ms = true ->
  hit data key (Mmap.khash ms) (Mmap.kpos ms) pos rdlen ->
  let cm := {| Mmap.mmappedData := data |} in
  let cr := Reader.New (Reader.fileReader data) in
  let off := Z.land (checksum key) 255 * 8 in
  let ms' := Mmap.found pos (len key) rdlen ms in
  (* the turn *)
  (exists l, Mmap.find_body cm key ms = (ms', l, Return nil_error))
  /\ (exists rs' l, Reader.find_body cr key rs = (rs', l, Return nil_error)
                    /\ Reader.core rs' = ms')
  (* what it leaves in the context *)
  /\ Mmap.dpos ms' = pos + 8 + len key
  /\ Mmap.dlen ms' = rdlen
  /\ Mmap.loop ms' = Mmap.loop ms + 1
  /\ Mmap.kpos ms'
     = (if add32 (Mmap.kpos ms) 8
           =? add32 (Mmap.hpos ms) (shl32 (Mmap.hslots ms) 3)
        then Mmap.hpos ms else add32 (Mmap.kpos ms) 8)
  (* a resumed step whose probe comes to this slot *)
  /\ (forall ms0 rs0,
        sim ms0 rs0 -> Mmap.loop ms0 <> 0 -> Mmap.probes_to cm key ms0 ms ->
        (exists l, Mmap.find cm key ms0 = (ms', l, Next nil_error))
        /\ (exists rs' l, Reader.find cr key rs0 = (rs', l, Next nil_error)
                          /\ Reader.core rs' = ms'))
  (* a first step whose probe comes to this slot *)
  /\ (forall ms0 rs0 p n,
        sim ms0 rs0 -> Mmap.loop ms0 = 0 ->
        readable data off 8 -> nums_at data off = (p, n) -> n <> 0 ->
        Mmap.probes_to cm key (Mmap.start (checksum key) p n ms0) ms ->
        (exists l, Mmap.find cm key ms0 = (ms', l, Next nil_error))
        /\ (exists rs' l, Reader.find cr key rs0 = (rs', l, Next nil_error)
                          /\ Reader.core rs' = ms'))
  (* the step after the match *)
  /\ Mmap.loop ms' <> 0
  /\ Mmap.find cm key ms'
     = (let '(s2, l2, r2) := Mmap.find_loop cm key ms' in (s2, l2, close r2))
  /\ (forall rs', Reader.core rs' = ms' ->
        Reader.find cr key rs'
        = (let '(s2, l2, r2) := Reader.find_loop cr key rs' in
           (s2, l2, close r2))).
Proof.
  intros Hsim Hkey Hcond Hhit cm cr off ms'.
  assert (Hoff : Z.land (shl32 (checksum key) 3) 2047 = off)
    by apply header_offset.
  pose proof (mmap_body_hit data key ms pos rdlen Hkey Hhit) as Hbody.
  fold cm ms' in Hbody.
  assert (Hloop : Mmap.find_loop cm key ms
                  = (ms', [(Mmap.kpos ms, 8); (pos, 8); (pos + 8, len key)],
                     Return nil_error)).
  { apply MmapFind.loop_first_turn; [exact Hcond|exact Hbody|discriminate]. }
  assert (Hcount : Mmap.loop ms' = Mmap.loop ms + 1).
  { unfold ms', Mmap.found. cbn [Mmap.loop Mmap.set_dpos Mmap.set_dlen].
    rewrite MmapBody.loop_advance.
    destruct Hsim as (_ & _ & Hw). unfold Mmap.wf, u32 in Hw.
    destruct (MmapLoop.count_slot ms ltac:(lia) Hcond) as [_ Hs].
    apply Hs. lia. }
  assert (Hnz : Mmap.loop ms' <> 0).
  { rewrite Hcount. destruct Hsim as (_ & _ & Hw).
    unfold Mmap.wf, u32 in Hw. lia. }
  repeat match goal with |- _ /\ _ => split end.
  - eauto.
  - destruct (Simulation.body_sim data key Hkey ms rs Hsim _ _ _ Hbody
                ltac:(discriminate)) as (rs' & rl & E & Hc & _).
    eauto.
  - reflexivity.
  - reflexivity.
  - exact Hcount.
  - unfold ms', Mmap.found. cbn [Mmap.kpos Mmap.set_dpos Mmap.set_dlen].
    apply MmapBody.kpos_advance.
  - intros ms0 rs0 Hsim0 Hz Hp.
    destruct (mmap_resume_via cm key ms0 ms) with (4 := Hloop) as [l0 E];
      [destruct Hsim0 as (_ & _ & Hw); exact Hw|exact Hz|exact Hp|].
    cbn [close] in E. split; [eauto|].
    destruct (Equivalence.find_sim data key Hkey ms0 rs0 _ _ _ Hsim0 E
                ltac:(discriminate)) as (rs' & rl & E2 & Hc & _).
    eauto.
  - intros ms0 rs0 p n Hsim0 Hz Hr0 Hn0 Hn Hp.
    destruct (mmap_started_via cm key ms0 ms p n Hz Hr0 Hn0 Hn Hp)
      with (1 := Hloop) as [l0 E].
    cbn [close] in E. split; [eauto|].
    destruct (Equivalence.find_sim data key Hkey ms0 rs0 _ _ _ Hsim0 E
                ltac:(discriminate)) as (rs' & rl & E2 & Hc & _).
    eauto.
  - exact Hnz.
  - apply Steps.mmap_resume. exact Hnz.
  - intros rs' Hc. apply Steps.reader_resume.
    rewrite <- Hc in Hnz. exact Hnz.
Qed.

Lemma match_returns_record_witness :
  (exists l,
     Mmap.find {| Mmap.mmappedData := db_wrap |} key_a Mmap.NewContext
     = (Mmap.found 2064 (len key_a) 1 wrap_second, l, Next nil_error))
  /\ (exists rs' l,
        Reader.find (Reader.New (Reader.fileReader db_wrap)) key_a
                    Reader.NewContext
        = (rs', l, Next nil_error)
        /\ Reader.core rs' = Mmap.found 2064 (len key_a) 1 wrap_second).
Proof.
  refine (proj1 (proj2 (proj2 (proj2 (proj2 (proj2 (proj2 (proj2
            (match_returns_record db_wrap key_a wrap_second
               (with_buf wrap_second) 2064 1 _ _ _ _))))))))
            Mmap.NewContext Reader.NewContext 2048 2 _ _ _ _ _ _).
  - split; [reflexivity|]. split; [vm_compute; lia|].
    vm_compute. intuition discriminate.
  - vm_compute. reflexivity.
  - reflexivity.
  - vm_compute. intuition discriminate.
  - split; [reflexivity|]. split; [vm_compute; lia|].
    vm_compute. intuition discriminate.
  - reflexivity.
  - vm_compute. intuition discriminate.
  - vm_compute. reflexivity.
  - discriminate.
  - apply (Mmap.probes_on _ _ _ wrap_second [(2056, 8)] _);
      [reflexivity|vm_compute; reflexivity|apply Mmap.probes_here].
Defined.

(** The record check leaves the probe where it is. *)
Lemma mmap_record_frame (c : Mmap.Cdb) (key : list byte) (h pos : Z)
    (x : Mmap.Context) :
  let x' := fst (fst (Mmap.find_record c key h pos x)) in
  Mmap.kpos x' = Mmap.kpos x /\ Mmap.loop x' = Mmap.loop x.
Proof.
  unfold Mmap.find_record, Mmap.readNums, Mmap.match_, Mmap.slice.
  unfold bind, get, modify, ret, return_, panic, access. cbn [app].
  repeat match goal with
         | |- context [if ?b then _ else _] => destruct b
         end; cbn; auto.
Qed.

(** A turn at an occupied slot moves the probe, however the turn ends. *)
Lemma mmap_occupied_moves (data key : list byte) (s : Mmap.Context)
    (h pos : Z) :
  readable data (Mmap.kpos s) 8 -> nums_at data (Mmap.kpos s) = (h, pos) ->
  pos <> 0 ->
  let s' := fst (fst (Mmap.find_body {| Mmap.mmappedData := data |} key s)) in
  Mmap.kpos s' = Mmap.kpos (Mmap.advance s)
  /\ Mmap.loop s' = Mmap.loop (Mmap.advance s).
Proof.
  intros Hr Hn Hp. cbv zeta.
  rewrite (MmapBody.body_occupied {| Mmap.mmappedData := data |} key s h pos
             Hr Hn Hp).
  pose proof (mmap_record_frame {| Mmap.mmappedData := data |} key h pos
                (Mmap.advance s)) as Hf.
  destruct (Mmap.find_record _ key h pos (Mmap.advance s)) as [[s2 l2] r2].
  exact Hf.
Qed.

Lemma reader_occupied_moves (data key : list byte) (s : Reader.Context)
    (h pos : Z) :
  (8 <= length (Reader.buf s))%nat ->
  readable data (Reader.kpos s) 8 -> nums_at data (Reader.kpos s) = (h, pos) ->
  pos <> 0 ->
  let s' := fst (fst (Reader.find_body (Reader.New (Reader.fileReader data))
                                       key s)) in
  Reader.kpos s' = Mmap.kpos (Mmap.advance (Reader.core s))
  /\ Reader.loop s' = Mmap.loop (Mmap.advance (Reader.core s)).
Proof.
  intros Hb Hr Hn Hp. cbv zeta.
  destruct (ReaderFile.file_body_occupied data key s h pos Hb Hr Hn Hp)
    as (s0 & Hc & Hl & E).
  rewrite E.
  pose proof (ReaderBody.record_shape (Reader.New (Reader.fileReader data))
                key h pos (Reader.advance s0)) as Hs.
  rewrite ReaderBody.buf_advance in Hs. specialize (Hs ltac:(lia)).
  destruct (Reader.find_record _ key h pos (Reader.advance s0))
    as [[s2 l2] r2].
  rewrite ReaderBody.core_advance, Hc in Hs. cbn [fst].
  destruct Hs as [_ [[Hc2 _]|(dp & dl & Hc2 & _)]];
    pose proof (f_equal Mmap.kpos Hc2) as E1;
    pose proof (f_equal Mmap.loop Hc2) as E2; cbn in E1, E2; auto.
Qed.

(** C5: the probe wraps around the slot table.  After a slot has been
    examined [kpos] is 8 further, and exactly when that is the end of the
    table, [hpos + 8 * hslots], it is [hpos] again; so a first step whose
    probe starts at the last slot of the table, occupied by another key,
    goes on to the first slot and finds the key there. *)
Theorem probe_wraps (data key : list byte) (ms : Mmap.Context)
    (rs : Reader.Context) (p n h1 pos1 pos rdlen : Z) :
  sim ms rs -> len key < 2 ^ 32 -> Mmap.loop ms = 0 ->
  let off := Z.land (checksum key) 255 * 8 in
  let cm := {| Mmap.mmappedData := data |} in
  let cr := Reader.New (Reader.fileReader data) in
  readable data off 8 -> nums_at data off = (p, n) ->
  2 <= n -> p + 8 * n < 2 ^ 32 ->
  shr32 (checksum key) 8 mod n = n - 1 ->
  readable data (p + 8 * (n - 1)) 8 ->
  nums_at data (p + 8 * (n - 1)) = (h1, pos1) ->
  pos1 <> 0 -> h1 <> checksum key ->
  hit data key (checksum key) p pos rdlen ->
  (* the key is found in the first slot *)
  (exists ms' l,
     Mmap.find cm key ms = (ms', l, Next nil_error)
     /\ Mmap.dpos ms' = pos + 8 + len key /\ Mmap.dlen ms' = rdlen
     /\ Mmap.loop ms' = 2 /\ Mmap.kpos ms' = p + 8
     /\ exists rs' rl, Reader.find cr key rs = (rs', rl, Next nil_error)
                       /\ Reader.core rs' = ms')
  (* a turn at an occupied slot moves the probe, however it ends *)
  /\ (forall k s h pos,
        readable data (Mmap.kpos s) 8 ->
        nums_at data (Mmap.kpos s) = (h, pos) -> pos <> 0 ->
        Mmap.kpos (fst (fst (Mmap.find_body cm k s)))
        = Mmap.kpos (Mmap.advance s)
        /\ Mmap.loop (fst (fst (Mmap.find_body cm k s)))
           = Mmap.loop (Mmap.advance s))
  /\ (forall k s h pos,
        (8 <= length (Reader.buf s))%nat ->
        readable data (Reader.kpos s) 8 ->
        nums_at data (Reader.kpos s) = (h, pos) -> pos <> 0 ->
        Reader.kpos (fst (fst (Reader.find_body cr k s)))
        = Mmap.kpos (Mmap.advance (Reader.core s))
        /\ Reader.loop (fst (fst (Reader.find_body cr k s)))
           = Mmap.loop (Mmap.advance (Reader.core s)))
  (* a turn that goes on to the next has moved the probe *)
  /\ (forall c k s s1 l1,
        Mmap.find_body c k s = (s1, l1, Next tt) -> s1 = Mmap.advance s)
  /\ (forall c k s s1 l1,
        Reader.find_body c k s = (s1, l1, Next tt) ->
        Reader.core s1 = Mmap.advance (Reader.core s))
  (* where it has moved it *)
  /\ (forall s,
        Mmap.kpos (Mmap.advance s)
        = if add32 (Mmap.kpos s) 8
             =? add32 (Mmap.hpos s) (shl32 (Mmap.hslots s) 3)
          then Mmap.hpos s else add32 (Mmap.kpos s) 8)
  /\ (forall s i,
        u32 (Mmap.hpos s) -> 0 <= i < Mmap.hslots s ->
        Mmap.hpos s + 8 * Mmap.hslots s < 2 ^ 32 ->
        Mmap.kpos s = Mmap.hpos s + 8 * i ->
        Mmap.kpos (Mmap.advance s)
        = Mmap.hpos s + 8 * ((i + 1) mod Mmap.hslots s)).
Proof.
  intros Hsim Hkey Hz off cm cr Hr Hn Hn2 Ht Hstart Hr1 Hn1 Hp1 Hh1 Hhit.
  assert (Hoff : Z.land (shl32 (checksum key) 3) 2047 = off)
    by apply header_offset.
  split; [|split; [|split; [|split; [|split; [|split]]]]].
  2:{ intros k s h0 pos0. apply mmap_occupied_moves. }
  2:{ intros k s h0 pos0. apply reader_occupied_moves. }
  2:{ intros c k s s1 l1. apply MmapLoop.body_Next. }
  2:{ intros c k s s1 l1. apply ReaderLoop.turn_Next. }
  2:{ exact MmapBody.kpos_advance. }
  2:{ exact advance_next_slot. }
  pose proof (Simulation.nums_at_range data off) as [Hup Hun].
  rewrite Hn in Hup, Hun. cbn [fst snd] in Hup, Hun. unfold u32 in Hup, Hun.
  set (s1 := Mmap.start (checksum key) p n ms).
  assert (Hk1 : Mmap.kpos s1 = p + 8 * (n - 1)).
  { unfold s1, Mmap.start. cbn [Mmap.kpos Mmap.set_kpos]. rewrite Hstart.
    rewrite shl32_3 by lia. rewrite add32_small by lia. lia. }
  assert (Hl1 : Mmap.loop s1 = 0) by exact Hz.
  assert (Hs1 : Mmap.hslots s1 = n) by reflexivity.
  assert (Hp1' : Mmap.hpos s1 = p) by reflexivity.
  assert (Hkh1 : Mmap.khash s1 = checksum key) by reflexivity.
  (* first turn: the last slot, another key *)
  assert (Hb1 : Mmap.find_body cm key s1
                = (Mmap.advance s1, [(Mmap.kpos s1, 8)], Next tt)).
  { rewrite (MmapBody.body_occupied cm key s1 h1 pos1);
      rewrite ?Hk1; auto.
    rewrite MmapBody.record_other_hash; [reflexivity|].
    rewrite MmapBody.khash_advance, Hkh1. exact Hh1. }
  set (s2 := Mmap.advance s1).
  assert (Hk2 : Mmap.kpos s2 = p).
  { pose proof (advance_next_slot s1 (n - 1)) as Ha.
    rewrite Hp1', Hs1 in Ha.
    specialize (Ha ltac:(unfold u32; lia) ltac:(lia) ltac:(lia) Hk1).
    unfold s2. rewrite Ha.
    replace (n - 1 + 1) with n by lia. rewrite Z_mod_same_full. lia. }
  assert (Hl2 : Mmap.loop s2 = 1).
  { unfold s2. rewrite MmapBody.loop_advance, Hl1. reflexivity. }
  assert (Hs2 : Mmap.hslots s2 = n)
    by (unfold s2; rewrite MmapBody.hslots_advance; exact Hs1).
  assert (Hp2 : Mmap.hpos s2 = p)
    by (unfold s2; rewrite MmapBody.hpos_advance; exact Hp1').
  assert (Hkh2 : Mmap.khash s2 = checksum key)
    by (unfold s2; rewrite MmapBody.khash_advance; exact Hkh1).
  (* second turn: the first slot, the key *)
  assert (Hb2 : Mmap.find_body cm key s2
                = (Mmap.found pos (len key) rdlen s2,
                   [(Mmap.kpos s2, 8); (pos, 8); (pos + 8, len key)],
                   Return nil_error)).
  { apply mmap_body_hit; [exact Hkey|]. rewrite Hkh2, Hk2. exact Hhit. }
  assert (Hc1 : Mmap.find_cond s1 = true)
    by (unfold Mmap.find_cond; rewrite Hl1, Hs1; apply Z.ltb_lt; lia).
  assert (Hc2 : Mmap.find_cond s2 = true)
    by (unfold Mmap.find_cond; rewrite Hl2, Hs2; apply Z.ltb_lt; lia).
  assert (E : exists l, Mmap.find cm key ms
                        = (Mmap.found pos (len key) rdlen s2, l,
                           Next nil_error)).
  { rewrite (Steps.mmap_started cm key ms p n); rewrite ?Hoff; auto; [|lia].
    fold s1.
    rewrite (mmap_loop_turn cm key s1 _ ltac:(lia) ltac:(lia) Hc1 Hb1).
    fold s2.
    rewrite (MmapFind.loop_first_turn cm key s2 _ _ _ Hc2 Hb2
               ltac:(discriminate)).
    eexists. reflexivity. }
  destruct E as [l E].
  exists (Mmap.found pos (len key) rdlen s2), l.
  split; [exact E|]. split; [reflexivity|]. split; [reflexivity|].
  split.
  { unfold Mmap.found. cbn [Mmap.loop Mmap.set_dpos Mmap.set_dlen].
    rewrite MmapBody.loop_advance, Hl2. reflexivity. }
  split.
  { unfold Mmap.found. cbn [Mmap.kpos Mmap.set_dpos Mmap.set_dlen].
    pose proof (advance_next_slot s2 0) as Ha.
    rewrite Hp2, Hs2 in Ha.
    specialize (Ha ltac:(unfold u32; lia) ltac:(lia) ltac:(lia)
                   ltac:(rewrite Hk2; lia)).
    rewrite Ha. rewrite Z.mod_small by lia. lia. }
  destruct (Equivalence.find_sim data key Hkey ms rs _ _ _ Hsim E
              ltac:(discriminate)) as (rs' & rl & E2 & Hc & _).
  eauto.
Qed.

Lemma probe_wraps_witness :
  exists ms' l,
    Mmap.find {| Mmap.mmappedData := db_wrap |} key_a Mmap.NewContext
    = (ms', l, Next nil_error)
    /\ Mmap.dpos ms' = 2064 + 8 + len key_a /\ Mmap.dlen ms' = 1
    /\ Mmap.loop ms' = 2 /\ Mmap.kpos ms' = 2048 + 8
    /\ exists rs' rl,
         Reader.find (Reader.New (Reader.fileReader db_wrap)) key_a
                     Reader.NewContext
         = (rs', rl, Next nil_error)
         /\ Reader.core rs' = ms'.
Proof.
  refine (proj1 (probe_wraps db_wrap key_a Mmap.NewContext Reader.NewContext
                   2048 2 452 2074 2064 1 _ _ _ _ _ _ _ _ _ _ _ _ _)).
  - split; [reflexivity|]. split; [vm_compute; lia|].
    vm_compute. intuition discriminate.
  - vm_compute. reflexivity.
  - reflexivity.
  - vm_compute. intuition discriminate.
  - vm_compute. reflexivity.
  - lia.
  - vm_compute. reflexivity.
  - vm_compute. reflexivity.
  - vm_compute. intuition discriminate.
  - vm_compute. reflexivity.
  - discriminate.
  - vm_compute. discriminate.
  - vm_compute. intuition discriminate.
Defined.

(** * Further properties *)

(** ** What a step keeps *)

Lemma mmap_init_wf (c : Mmap.Cdb) (key : list byte) (s : Mmap.Context) :
  Mmap.wf s -> Mmap.wf (fst (fst (Mmap.find_init c key s))).
Proof.
  intros Hw. pose proof (Termination.mmap_init_shape c key s) as Hs.
  destruct (Mmap.find_init c key s) as [[s1 l1] r1]. cbn [fst].
  destruct Hs as [[-> _]|[(p & Hp & -> & _)|(p & n & Hp & Hn & _ & -> & _)]].
  - exact Hw.
  - unfold Mmap.wf, u32 in *. cbn. intuition lia.
  - pose proof (checksum_range key) as Hc.
    pose proof (add32_range p (shl32 (shr32 (checksum key) 8 mod n) 3)) as Ha.
    unfold Mmap.wf in *. cbn. tauto.
Qed.

Lemma mmap_loop_wf (c : Mmap.Cdb) (key : list byte) (s : Mmap.Context) :
  Mmap.wf s -> Mmap.wf (fst (fst (Mmap.find_loop c key s))).
Proof.
  intros Hw. unfold Mmap.find_loop. unfold bind, get.
  pose proof (for_invariant Mmap.wf Mmap.find_cond (Mmap.find_body c key)) as H.
  specialize (H ltac:(intros x Hx _;
                      destruct (MmapLoop.body_frame c key x)
                        as (_ & _ & _ & _ & Hf); auto)
                (Z.to_nat (Mmap.hslots s - Mmap.loop s)) s Hw).
  destruct (for_ _ _ _ s) as [[s2 l2] r2]. exact H.
Qed.

(** A step leaves every counter a [uint32]. *)
Lemma mmap_find_wf (c : Mmap.Cdb) (key : list byte) (s : Mmap.Context) :
  Mmap.wf s -> Mmap.wf (fst (fst (Mmap.find c key s))).
Proof.
  intros Hw. unfold Mmap.find. rewrite Termination.recover_state.
  unfold bind at 1. unfold get at 1.
  match goal with
  | |- context [bind ?a ?b s] =>
      assert (H : Mmap.wf (fst (fst (bind a b s))));
      [|destruct (bind a b s) as [[s1 l1] r1]; exact H]
  end.
  rewrite bind_state.
  assert (Hi : Mmap.wf (fst (fst ((if Mmap.loop s =? 0
                                   then Mmap.find_init c key else ret tt) s)))).
  { destruct (Mmap.loop s =? 0); [apply mmap_init_wf; exact Hw|exact Hw]. }
  destruct ((if Mmap.loop s =? 0 then Mmap.find_init c key else ret tt) s)
    as [[s1 l1] [[]|e|e|]]; cbn [fst] in Hi; try exact Hi.
  rewrite bind_state.
  pose proof (mmap_loop_wf c key s1 Hi) as Hl.
  destruct (Mmap.find_loop c key s1) as [[s2 l2] [[]|e|e|]]; exact Hl.
Qed.

Section Keeps.
Context {S : Type}.
Variable K : S -> S -> Prop.
Hypothesis K_refl : forall s, K s s.
Hypothesis K_trans : forall a b c, K a b -> K b c -> K a c.

(** Statements that keep [K] unless they return [nil], in sequence. *)
Lemma bind_keeps {A B} (m : M S A) (k : A -> M S B) :
  (forall s, snd (m s) = Return nil_error \/ K s (fst (fst (m s)))) ->
  (forall a s, snd (k a s) = Return nil_error \/ K s (fst (fst (k a s)))) ->
  forall s, snd (bind m k s) = Return nil_error
            \/ K s (fst (fst (bind m k s))).
Proof.
  intros Hm Hk s. unfold bind. specialize (Hm s).
  destruct (m s) as [[s1 l1] [a|e|e|]]; cbn [fst snd] in *;
    try (destruct Hm as [Hm|Hm]; [discriminate || (left; congruence)|right; exact Hm]).
  specialize (Hk a s1). destruct Hm as [Hm|Hm]; [discriminate|].
  destruct (k a s1) as [[s2 l2] r2]; cbn [fst snd] in *.
  destruct Hk as [Hk|Hk]; [left; exact Hk|right; eauto].
Qed.

Lemma for_keeps (cond : S -> bool) (body : M S unit) :
  (forall s, snd (body s) = Return nil_error \/ K s (fst (fst (body s)))) ->
  forall fuel s, snd (for_ fuel cond body s) = Return nil_error
                 \/ K s (fst (fst (for_ fuel cond body s))).
Proof.
  intros Hb. induction fuel as [|fuel IH]; intros s; simpl.
  - destruct (cond s); right; apply K_refl.
  - destruct (cond s); [|right; apply K_refl].
    apply (bind_keeps body (fun _ => for_ fuel cond body)); auto.
Qed.

End Keeps.

(** Both of [dpos] and [dlen] as they were. *)
Lemma mmap_find_keeps (c : Mmap.Cdb) (key : list byte) (s : Mmap.Context) :
  snd (Mmap.find c key s) = Next nil_error
  \/ (Mmap.dpos (fst (fst (Mmap.find c key s))) = Mmap.dpos s
      /\ Mmap.dlen (fst (fst (Mmap.find c key s))) = Mmap.dlen s).
Proof.
  set (K := fun a b : Mmap.Context =>
              Mmap.dpos b = Mmap.dpos a /\ Mmap.dlen b = Mmap.dlen a).
  assert (Kr : forall x, K x x) by (intros; split; reflexivity).
  assert (Kt : forall a b d, K a b -> K b d -> K a d)
    by (unfold K; intros a b d [? ?] [? ?]; split; congruence).
  assert (Hbody : forall x, snd (Mmap.find_body c key x) = Return nil_error
                            \/ K x (fst (fst (Mmap.find_body c key x)))).
  { intros x. pose proof (MmapLoop.body_shape c key x) as Hs.
    destruct (Mmap.find_body c key x) as [[s1 l1] r1]. cbn [fst snd].
    destruct Hs as [[-> _]|[[-> _]|(dp & dl & _ & -> & _)]]; auto.
    right. unfold K, Mmap.advance. cbn.
    destruct (_ =? _); cbn; auto. }
  assert (Hinit : forall x, snd (Mmap.find_init c key x) = Return nil_error
                            \/ K x (fst (fst (Mmap.find_init c key x)))).
  { intros x. pose proof (Termination.mmap_init_shape c key x) as Hs.
    destruct (Mmap.find_init c key x) as [[s1 l1] r1]. cbn [fst snd].
    destruct Hs as [[-> _]|[(p & _ & -> & _)|(p & n & _ & _ & _ & -> & _)]];
      right; split; reflexivity. }
  assert (Hinner :
            forall x,
              snd ((context <- get ;;
                    (if Mmap.loop context =? 0 then Mmap.find_init c key
                     else ret tt) ;;
                    Mmap.find_loop c key ;; return_ (A := error) io_EOF) x)
              = Return nil_error
              \/ K x (fst (fst ((context <- get ;;
                    (if Mmap.loop context =? 0 then Mmap.find_init c key
                     else ret tt) ;;
                    Mmap.find_loop c key ;; return_ (A := error) io_EOF) x)))).
  { apply (bind_keeps K Kt); [intros x; right; apply Kr|].
    intros ctx. apply (bind_keeps K Kt).
    - intros x. destruct (Mmap.loop ctx =? 0); [apply Hinit|right; apply Kr].
    - intros _. apply (bind_keeps K Kt).
      + unfold Mmap.find_loop. apply (bind_keeps K Kt);
          [intros x; right; apply Kr|].
        intros ctx2 x. apply (for_keeps K Kr Kt). exact Hbody.
      + intros _ x. right. apply Kr. }
  unfold Mmap.find, recover. specialize (Hinner s).
  match goal with
  | |- context [bind ?a ?b s] =>
      destruct (bind a b s) as [[s1 l1] [e|e|e|]]
  end; cbn [fst snd] in *; destruct Hinner as [H|H];
    try discriminate; auto.
  left. congruence.
Qed.

Lemma reader_find_keeps (c : Reader.Cdb) (key : list byte)
    (s : Reader.Context) :
  snd (Reader.find c key s) = Next nil_error
  \/ (Reader.dpos (fst (fst (Reader.find c key s))) = Reader.dpos s
      /\ Reader.dlen (fst (fst (Reader.find c key s))) = Reader.dlen s).
Proof.
  set (K := fun a b : Reader.Context =>
              Reader.dpos b = Reader.dpos a /\ Reader.dlen b = Reader.dlen a).
  assert (Kr : forall x, K x x) by (intros; split; reflexivity).
  assert (Kt : forall a b d, K a b -> K b d -> K a d)
    by (unfold K; intros a b d [? ?] [? ?]; split; congruence).
  assert (Hadv : forall x : Mmap.Context,
             Mmap.dpos (Mmap.advance x) = Mmap.dpos x
             /\ Mmap.dlen (Mmap.advance x) = Mmap.dlen x).
  { intros x. unfold Mmap.advance. cbn. destruct (_ =? _); cbn; auto. }
  assert (Hbody : forall x, snd (Reader.find_body c key x) = Return nil_error
                            \/ K x (fst (fst (Reader.find_body c key x)))).
  { intros x. pose proof (ReaderBody.turn_shape c key x) as Hs.
    destruct (Reader.find_body c key x) as [[s1 l1] r1]. cbn [fst snd].
    destruct Hs as [_ [[Hc _]|[[Hc _]|(dp & dl & _ & -> & _)]]]; auto;
      right; pose proof (f_equal Mmap.dpos Hc) as E1;
      pose proof (f_equal Mmap.dlen Hc) as E2; cbn in E1, E2.
    - split; assumption.
    - destruct (Hadv (Reader.core x)) as [A1 A2]. cbn in A1, A2.
      split; congruence. }
  assert (Hinit : forall x, snd (Reader.find_init c key x) = Return nil_error
                            \/ K x (fst (fst (Reader.find_init c key x)))).
  { intros x. pose proof (Termination.reader_init_shape c key x) as Hs.
    destruct (Reader.find_init c key x) as [[s1 l1] r1]. cbn [fst snd].
    destruct Hs as [_ [[Hc _]|[(p & _ & Hc & _)|(p & n & _ & _ & _ & Hc & _)]]];
      right; pose proof (f_equal Mmap.dpos Hc) as E1;
      pose proof (f_equal Mmap.dlen Hc) as E2; cbn in E1, E2;
      split; assumption. }
  assert (Hinner :
            forall x,
              snd ((context <- get ;;
                    (if Reader.loop context =? 0 then Reader.find_init c key
                     else ret tt) ;;
                    Reader.find_loop c key ;; return_ (A := error) io_EOF) x)
              = Return nil_error
              \/ K x (fst (fst ((context <- get ;;
                    (if Reader.loop context =? 0 then Reader.find_init c key
                     else ret tt) ;;
                    Reader.find_loop c key ;; return_ (A := error) io_EOF) x)))).
  { apply (bind_keeps K Kt); [intros x; right; apply Kr|].
    intros ctx. apply (bind_keeps K Kt).
    - intros x. destruct (Reader.loop ctx =? 0); [apply Hinit|right; apply Kr].
    - intros _. apply (bind_keeps K Kt).
      + unfold Reader.find_loop. apply (bind_keeps K Kt);
          [intros x; right; apply Kr|].
        intros ctx2 x. apply (for_keeps K Kr Kt). exact Hbody.
      + intros _ x. right. apply Kr. }
  unfold Reader.find, recover. specialize (Hinner s).
  match goal with
  | |- context [bind ?a ?b s] =>
      destruct (bind a b s) as [[s1 l1] [e|e|e|]]
  end; cbn [fst snd] in *; destruct Hinner as [H|H];
    try discriminate; auto.
  left. congruence.
Qed.

(** X1: a step that does not return [nil] leaves [dpos] and [dlen] as they
    were: the two are written only by the match that makes the step return
    found.  Holds in both variants, on any database and any reader. *)
Theorem unsuccessful_step_keeps_dpos_dlen (cm : Mmap.Cdb) (cr : Reader.Cdb)
    (key : list byte) (ms : Mmap.Context) (rs : Reader.Context) :
  (snd (Mmap.find cm key ms) <> Next nil_error ->
   Mmap.dpos (fst (fst (Mmap.find cm key ms))) = Mmap.dpos ms
   /\ Mmap.dlen (fst (fst (Mmap.find cm key ms))) = Mmap.dlen ms)
  /\ (snd (Reader.find cr key rs) <> Next nil_error ->
      Reader.dpos (fst (fst (Reader.find cr key rs))) = Reader.dpos rs
      /\ Reader.dlen (fst (fst (Reader.find cr key rs))) = Reader.dlen rs).
Proof.
  split.
  - intros Hm.
    destruct (mmap_find_keeps cm key ms) as [H|H]; [contradiction|exact H].
  - intros Hr.
    destruct (reader_find_keeps cr key rs) as [H|H]; [contradiction|exact H].
Qed.

Lemma unsuccessful_step_keeps_dpos_dlen_witness :
  (Mmap.dpos (fst (fst (Mmap.find {| Mmap.mmappedData := db_dup |} key_a
                                  dup_second))) = 2091
   /\ Mmap.dlen (fst (fst (Mmap.find {| Mmap.mmappedData := db_dup |} key_a
                                     dup_second))) = 2)
  /\ (Reader.dpos (fst (fst (Reader.find
                               (Reader.New (Reader.fileReader db_corrupt))
                               key_a (with_buf dup_second)))) = 2091
      /\ Reader.dlen (fst (fst (Reader.find
                                  (Reader.New (Reader.fileReader db_corrupt))
                                  key_a (with_buf dup_second)))) = 2).
Proof.
  split.
  - apply (proj1 (unsuccessful_step_keeps_dpos_dlen
                    {| Mmap.mmappedData := db_dup |}
                    (Reader.New (Reader.fileReader db_dup)) key_a dup_second
                    (with_buf dup_second))).
    vm_compute. discriminate.
  - apply (proj2 (unsuccessful_step_keeps_dpos_dlen
                    {| Mmap.mmappedData := db_dup |}
                    (Reader.New (Reader.fileReader db_corrupt)) key_a
                    dup_second (with_buf dup_second))).
    vm_compute. discriminate.
Defined.

(** ** A record found is a record of the key *)

Lemma bind_Return_inv {S A B} (m : M S A) (k : A -> M S B) s s' l e :
  bind m k s = (s', l, Return e) ->
  (exists l1, m s = (s', l1, Return e))
  \/ (exists a s1 l1 l2, m s = (s1, l1, Next a) /\ k a s1 = (s', l2, Return e)).
Proof.
  unfold bind. destruct (m s) as [[s1 l1] [a|e1|e1|]] eqn:E; intros H;
    try discriminate.
  - right. destruct (k a s1) as [[s2 l2] r2] eqn:E2.
    injection H as <- <- ->. eauto 8.
  - left. injection H as <- <- <-. eauto.
Qed.

(** A [return] out of a [for] is the [return] of one of its turns, taken in
    a state the loop's invariant holds of. *)
Lemma for_Return_inv {S} (I : S -> Prop) (cond : S -> bool) (body : M S unit) :
  (forall s, I s -> cond s = true -> I (fst (fst (body s)))) ->
  forall fuel s s' l e,
    I s -> for_ fuel cond body s = (s', l, Return e) ->
    exists s0 l0, I s0 /\ cond s0 = true /\ body s0 = (s', l0, Return e).
Proof.
  intros Hinv. induction fuel as [|fuel IH]; intros s s' l e HI H; simpl in H.
  - destruct (cond s); discriminate.
  - destruct (cond s) eqn:Hc; [|discriminate].
    apply bind_Return_inv in H.
    destruct H as [[l1 H]|(a & s1 & l1 & l2 & Hb & H)]; [eauto|].
    apply (IH s1 s' l2 e); [|exact H].
    specialize (Hinv s HI Hc). rewrite Hb in Hinv. exact Hinv.
Qed.

Lemma mmap_body_found_inv (data key : list byte) (s s' : Mmap.Context) l :
  len key < 2 ^ 32 -> u32 (Mmap.kpos s) ->
  Mmap.find_body {| Mmap.mmappedData := data |} key s
  = (s', l, Return nil_error) ->
  exists pos rdlen,
    hit data key (Mmap.khash s) (Mmap.kpos s) pos rdlen
    /\ s' = Mmap.found pos (len key) rdlen s.
Proof.
  intros Hkey Hk H. set (cm := {| Mmap.mmappedData := data |}) in *.
  assert (Hw : wrap32 (len key) = len key)
    by (apply wrap32_small; unfold u32, len in *; lia).
  destruct (Simulation.readable_dec data (Mmap.kpos s) 8) as [Hr|Hr].
  2:{ rewrite (MmapBody.body_unreadable cm key s Hk Hr) in H. discriminate. }
  destruct (nums_at data (Mmap.kpos s)) as [h pos] eqn:Hn.
  destruct (Z.eq_dec pos 0) as [->|Hp].
  { rewrite (MmapBody.body_empty cm key s h Hr Hn) in H. discriminate. }
  rewrite (MmapBody.body_occupied cm key s h pos Hr Hn Hp) in H.
  pose proof (Simulation.nums_at_range data (Mmap.kpos s)) as [_ Hu].
  rewrite Hn in Hu. cbn [snd] in Hu.
  destruct (Z.eq_dec h (Mmap.khash s)) as [->|Hh].
  2:{ rewrite MmapBody.record_other_hash in H
        by (rewrite MmapBody.khash_advance; exact Hh).
      discriminate. }
  rewrite <- (MmapBody.khash_advance s) in H.
  destruct (Simulation.readable_dec data pos 8) as [Hr2|Hr2].
  2:{ rewrite (MmapBody.record_unreadable cm key _ pos Hu Hr2) in H.
      discriminate. }
  destruct (nums_at data pos) as [rklen rdlen] eqn:Hn2.
  destruct (Z.eq_dec rklen (len key)) as [->|Hl].
  2:{ rewrite (MmapBody.record_other_length cm key _ pos rklen rdlen Hr2 Hn2)
        in H by (rewrite Hw; exact Hl).
      discriminate. }
  destruct (Simulation.readable_dec data (pos + 8) (len key)) as [Hr3|Hr3].
  2:{ rewrite <- Hw in Hn2, Hr3.
      rewrite (MmapBody.record_key_unreadable cm key _ pos rdlen Hr2 Hn2 Hr3)
        in H.
      discriminate. }
  destruct (list_eq_dec Byte.byte_eq_dec (bytes_at data (pos + 8) (len key))
              key) as [Hb|Hb].
  - rewrite (MmapBody.record_match cm key _ pos rdlen Hkey Hr2 Hn2 Hr3 Hb)
      in H.
    injection H as <- _. exists pos, rdlen. split; [|reflexivity].
    unfold hit. auto 10.
  - rewrite (MmapBody.record_other_key cm key _ pos rdlen Hkey Hr2 Hn2 Hr3 Hb)
      in H.
    discriminate.
Qed.

Lemma bind_Next_inv {S A B} (m : M S A) (k : A -> M S B) s s' l b :
  bind m k s = (s', l, Next b) ->
  exists a s1 l1 l2, m s = (s1, l1, Next a) /\ k a s1 = (s', l2, Next b).
Proof.
  unfold bind. destruct (m s) as [[s1 l1] [a|e1|e1|]] eqn:E; intros H;
    try discriminate.
  destruct (k a s1) as [[s2 l2] r2] eqn:E2.
  injection H as <- <- ->. eauto 8.
Qed.

Lemma mmap_loop_found_inv (data key : list byte) (s s' : Mmap.Context) l :
  len key < 2 ^ 32 -> Mmap.wf s ->
  Mmap.find_loop {| Mmap.mmappedData := data |} key s
  = (s', l, Return nil_error) ->
  exists kp pos,
    hit data key (Mmap.khash s') kp pos (Mmap.dlen s')
    /\ Mmap.dpos s' = pos + 8 + len key.
Proof.
  intros Hkey Hw H. unfold Mmap.find_loop in H.
  apply bind_Return_inv in H.
  destruct H as [[l1 H]|(a & s1 & l1 & l2 & Hg & H)]; [discriminate|].
  unfold get in Hg. injection Hg as <- <- <-.
  apply (for_Return_inv Mmap.wf) in H; [| |exact Hw].
  2:{ intros x Hx _.
      destruct (MmapLoop.body_frame {| Mmap.mmappedData := data |} key x)
        as (_ & _ & _ & _ & Hf). auto. }
  destruct H as (s0 & l0 & Hw0 & _ & Hb).
  apply mmap_body_found_inv in Hb;
    [|exact Hkey|unfold Mmap.wf in Hw0; tauto].
  destruct Hb as (pos & rdlen & Hhit & ->).
  exists (Mmap.kpos s0), pos. split; [|reflexivity].
  unfold Mmap.found. cbn [Mmap.khash Mmap.dlen Mmap.set_dpos Mmap.set_dlen].
  rewrite MmapBody.khash_advance. exact Hhit.
Qed.

Lemma mmap_find_found_inv (data key : list byte) (s s' : Mmap.Context) l :
  len key < 2 ^ 32 -> Mmap.wf s ->
  Mmap.find {| Mmap.mmappedData := data |} key s = (s', l, Next nil_error) ->
  (exists kp pos,
     hit data key (Mmap.khash s') kp pos (Mmap.dlen s')
     /\ Mmap.dpos s' = pos + 8 + len key)
  /\ (Mmap.loop s = 0 -> Mmap.khash s' = checksum key).
Proof.
  intros Hkey Hw H. set (cm := {| Mmap.mmappedData := data |}) in *.
  unfold Mmap.find, recover in H.
  match type of H with
  | context [bind ?a ?b s] =>
      destruct (bind a b s) as [[s1 l1] r1] eqn:E
  end.
  assert (Hr : r1 = Return nil_error /\ s1 = s').
  { destruct r1 as [e|e|e|]; try discriminate.
    - exfalso. apply bind_Next_inv in E.
      destruct E as (a & x1 & k1 & k2 & _ & E).
      apply bind_Next_inv in E. destruct E as (a2 & x2 & k3 & k4 & _ & E).
      apply bind_Next_inv in E. destruct E as (a3 & x3 & k5 & k6 & _ & E).
      discriminate.
    - injection H as <- _ <-. auto.
    - exfalso. pose proof (Equivalence.mmap_panics cm key s s1 l1 e E) as ->.
      discriminate. }
  destruct Hr as [-> ->]. clear H.
  apply bind_Return_inv in E.
  destruct E as [[k1 E]|(a & x1 & k1 & k2 & Hg & E)]; [discriminate|].
  unfold get in Hg. injection Hg as <- <- <-.
  apply bind_Return_inv in E.
  destruct E as [[k3 E]|(a2 & x2 & k3 & k4 & Hi & E)].
  { destruct (Mmap.loop s =? 0); [|discriminate].
    pose proof (Termination.mmap_init_shape cm key s) as Hs. rewrite E in Hs.
    destruct Hs as [[_ Hr]|[(p & _ & _ & Hr)|(p & n & _ & _ & _ & _ & Hr)]];
      discriminate. }
  assert (Hw2 : Mmap.wf x2).
  { destruct (Mmap.loop s =? 0).
    - pose proof (mmap_init_wf cm key s Hw) as Hi2. rewrite Hi in Hi2.
      exact Hi2.
    - unfold ret in Hi. injection Hi as <- _ _. exact Hw. }
  assert (Hh : Mmap.loop s = 0 -> Mmap.khash x2 = checksum key).
  { intros Hz. rewrite Hz in Hi. cbn [Z.eqb] in Hi.
    pose proof (Termination.mmap_init_shape cm key s) as Hs.
    rewrite Hi in Hs.
    destruct Hs as [[_ Hr]|[(p & _ & _ & Hr)|(p & n & _ & _ & _ & -> & _)]];
      try discriminate.
    reflexivity. }
  apply bind_Return_inv in E.
  destruct E as [[k5 E]|(a3 & x3 & k5 & k6 & _ & E)]; [|discriminate].
  split; [apply (mmap_loop_found_inv data key x2 s' k5 Hkey Hw2 E)|].
  intros Hz. rewrite <- (Hh Hz).
  destruct (Steps.mmap_loop_frame cm key x2) as (_ & _ & Hf).
  rewrite E in Hf. exact Hf.
Qed.

(** ** Well-formed databases *)

Lemma readableb_spec (data : list byte) (pos n : Z) :
  readableb data pos n = true <-> readable data pos n.
Proof.
  unfold readableb, readable. rewrite !andb_true_iff, !Z.leb_le, Z.ltb_lt.
  tauto.
Qed.

Lemma slot_okb_spec (data : list byte) (kp : Z) :
  slot_okb data kp = true ->
  readable data kp 8
  /\ forall h pos, nums_at data kp = (h, pos) -> pos <> 0 ->
       readable data pos 8
       /\ forall kl dl, nums_at data pos = (kl, dl) ->
            readable data (pos + 8) kl /\ readable data (pos + 8 + kl) dl.
Proof.
  unfold slot_okb. rewrite andb_true_iff, readableb_spec.
  intros [Hr H]. split; [exact Hr|].
  intros h pos Hn Hp. rewrite Hn in H.
  apply orb_true_iff in H. destruct H as [H|H];
    [apply Z.eqb_eq in H; contradiction|].
  apply andb_true_iff in H. destruct H as [H1 H2].
  apply readableb_spec in H1. split; [exact H1|].
  intros kl dl Hn2. rewrite Hn2 in H2.
  apply andb_true_iff in H2. rewrite !readableb_spec in H2. exact H2.
Qed.

Lemma table_okb_spec (data : list byte) (p n : Z) :
  table_okb data p n = true ->
  p + 8 * n < 2 ^ 32
  /\ forall j, 0 <= j < n -> slot_okb data (p + 8 * j) = true.
Proof.
  unfold table_okb. rewrite andb_true_iff, Z.ltb_lt, forallb_forall.
  intros [H1 H2]. split; [exact H1|].
  intros j Hj. specialize (H2 (Z.to_nat j)).
  rewrite Z2Nat.id in H2 by lia. apply H2.
  apply in_seq. lia.
Qed.

Lemma well_formedb_spec (data : list byte) :
  well_formedb data = true ->
  forall i, 0 <= i < 256 ->
    readable data (8 * i) 8
    /\ forall p n, nums_at data (8 * i) = (p, n) -> table_okb data p n = true.
Proof.
  unfold well_formedb. rewrite forallb_forall.
  intros H i Hi. specialize (H (Z.to_nat i)).
  rewrite Z2Nat.id in H by lia.
  specialize (H ltac:(apply in_seq; lia)).
  apply andb_true_iff in H. destruct H as [H1 H2].
  apply readableb_spec in H1. split; [exact H1|].
  intros p n Hn. rewrite Hn in H2. exact H2.
Qed.

Lemma probing_advance (data : list byte) (s : Mmap.Context) :
  probing data s -> probing data (Mmap.advance s).
Proof.
  intros (Hw & Hn & Ht & j & Hj & Hk).
  destruct (table_okb_spec data _ _ Ht) as [Hlt _].
  assert (Hp : u32 (Mmap.hpos s)) by (unfold Mmap.wf in Hw; tauto).
  split; [apply MmapLoop.wf_advance; exact Hw|].
  rewrite MmapBody.hslots_advance, MmapBody.hpos_advance.
  split; [exact Hn|]. split; [exact Ht|].
  exists ((j + 1) mod Mmap.hslots s). split.
  - apply Z.mod_pos_bound. lia.
  - apply advance_next_slot; auto.
Qed.

Lemma probing_found (data : list byte) (s : Mmap.Context) (pos klen rdlen : Z) :
  probing data s -> u32 (pos + 8 + klen) -> u32 rdlen ->
  probing data (Mmap.found pos klen rdlen s).
Proof.
  intros H Hd Hl. apply probing_advance in H.
  destruct H as (Hw & Hn & Ht & j & Hj & Hk).
  unfold Mmap.found. split.
  - unfold Mmap.wf in *. cbn. tauto.
  - cbn. split; [exact Hn|]. split; [exact Ht|]. exists j. auto.
Qed.

(** A turn of the loop at a slot of a table that is fine: it does not panic,
    it stays in the table, and when it finds a record the record's data lie
    in the file. *)
Lemma mmap_body_probing (data key : list byte) (s : Mmap.Context) :
  len key < 2 ^ 32 -> probing data s ->
  let '(s', l, r) :=
    Mmap.find_body {| Mmap.mmappedData := data |} key s in
  probing data s' /\ (forall e, r <> Panic e)
  /\ (r = Return nil_error ->
      readable data (Mmap.dpos s') (Mmap.dlen s')).
Proof.
  intros Hkey Hp. set (cm := {| Mmap.mmappedData := data |}).
  pose proof Hp as (Hw & Hn & Ht & j & Hj & Hk).
  destruct (table_okb_spec data _ _ Ht) as [Hlt Hslots].
  specialize (Hslots j Hj). rewrite <- Hk in Hslots.
  destruct (slot_okb_spec data _ Hslots) as [Hr Hrec].
  assert (Hw32 : wrap32 (len key) = len key)
    by (apply wrap32_small; unfold u32, len in *; lia).
  destruct (nums_at data (Mmap.kpos s)) as [h pos] eqn:Hnum.
  destruct (Z.eq_dec pos 0) as [->|Hpos].
  { rewrite (MmapBody.body_empty cm key s h Hr Hnum).
    split; [exact Hp|]. split; intros; discriminate. }
  rewrite (MmapBody.body_occupied cm key s h pos Hr Hnum Hpos).
  destruct (Hrec h pos eq_refl Hpos) as [Hr2 Hkd].
  pose proof (probing_advance data s Hp) as Hpa.
  destruct (Z.eq_dec h (Mmap.khash s)) as [->|Hh].
  2:{ rewrite MmapBody.record_other_hash
        by (rewrite MmapBody.khash_advance; exact Hh).
      split; [exact Hpa|]. split; intros; discriminate. }
  rewrite <- (MmapBody.khash_advance s).
  destruct (nums_at data pos) as [rklen rdlen] eqn:Hn2.
  destruct (Hkd rklen rdlen eq_refl) as [Hr3 Hr4].
  destruct (Z.eq_dec rklen (len key)) as [->|Hl].
  2:{ rewrite (MmapBody.record_other_length cm key _ pos rklen rdlen Hr2 Hn2)
        by (rewrite Hw32; exact Hl).
      split; [exact Hpa|]. split; intros; discriminate. }
  destruct (list_eq_dec Byte.byte_eq_dec (bytes_at data (pos + 8) (len key))
              key) as [Hb|Hb].
  - rewrite (MmapBody.record_match cm key _ pos rdlen Hkey Hr2 Hn2 Hr3 Hb).
    pose proof (Simulation.nums_at_range data pos) as [_ Hu].
    rewrite Hn2 in Hu. cbn [snd] in Hu.
    split.
    + apply (probing_found data s pos (len key) rdlen Hp); [|exact Hu].
      unfold readable in Hr3. unfold u32. lia.
    + split; [intros; discriminate|]. intros _. cbn. exact Hr4.
  - rewrite (MmapBody.record_other_key cm key _ pos rdlen Hkey Hr2 Hn2 Hr3 Hb).
    split; [exact Hpa|]. split; intros; discriminate.
Qed.

Lemma for_safe {S} (I Q : S -> Prop) (cond : S -> bool) (body : M S unit) :
  (forall s, I s ->
     let '(s', l, r) := body s in
     I s' /\ (forall e, r <> Panic e) /\ (r = Return nil_error -> Q s')) ->
  forall fuel s, I s ->
    let '(s', l, r) := for_ fuel cond body s in
    I s' /\ (forall e, r <> Panic e) /\ (r = Return nil_error -> Q s').
Proof.
  intros Hb. induction fuel as [|fuel IH]; intros s HI; simpl.
  - destruct (cond s); (split; [exact HI|split; intros; discriminate]).
  - destruct (cond s); [|split; [exact HI|split; intros; discriminate]].
    unfold bind. specialize (Hb s HI).
    destruct (body s) as [[s1 l1] [[]|e|e|]]; try exact Hb.
    destruct Hb as (H1 & _). specialize (IH s1 H1).
    destruct (for_ fuel cond body s1) as [[s2 l2] r2]. exact IH.
Qed.

Lemma mmap_loop_probing (data key : list byte) (s : Mmap.Context) :
  len key < 2 ^ 32 -> probing data s ->
  let '(s', l, r) :=
    Mmap.find_loop {| Mmap.mmappedData := data |} key s in
  probing data s' /\ (forall e, r <> Panic e)
  /\ (r = Return nil_error ->
      readable data (Mmap.dpos s') (Mmap.dlen s')).
Proof.
  intros Hkey Hp. unfold Mmap.find_loop, bind, get.
  pose proof (for_safe (probing data)
                (fun x => readable data (Mmap.dpos x) (Mmap.dlen x))
                Mmap.find_cond
                (Mmap.find_body {| Mmap.mmappedData := data |} key)
                (fun x Hx => mmap_body_probing data key x Hkey Hx)
                (Z.to_nat (Mmap.hslots s - Mmap.loop s)) s Hp) as H.
  destruct (for_ _ _ _ s) as [[s2 l2] r2].
  exact H.
Qed.

Lemma probing_start (data key : list byte) (s : Mmap.Context) (p n : Z) :
  Mmap.wf s -> u32 p -> u32 n -> n <> 0 -> table_okb data p n = true ->
  probing data (Mmap.start (checksum key) p n s).
Proof.
  intros Hw Hp Hn Hz Ht.
  destruct (table_okb_spec data p n Ht) as [Hlt _].
  pose proof (checksum_range key) as Hc.
  assert (Hm : 0 <= shr32 (checksum key) 8 mod n < n).
  { apply Z.mod_pos_bound. unfold u32 in Hn. lia. }
  assert (Hk : add32 p (shl32 (shr32 (checksum key) 8 mod n) 3)
               = p + 8 * (shr32 (checksum key) 8 mod n)).
  { unfold u32 in *. rewrite shl32_3 by lia. rewrite add32_small by lia. lia. }
  split.
  - pose proof (add32_range p (shl32 (shr32 (checksum key) 8 mod n) 3)) as Ha.
    unfold Mmap.wf in *. cbn. tauto.
  - cbn. split; [unfold u32 in Hn; lia|]. split; [exact Ht|].
    exists (shr32 (checksum key) 8 mod n). split; [exact Hm|exact Hk].
Qed.

(** A step on a well-formed database, from a context a caller can hold:
    it ends with [nil] or [io.EOF], the context it leaves is again one a
    caller can hold, and with [nil] the data announced lie in the file. *)
Lemma mmap_find_settled (data key : list byte) (s : Mmap.Context) :
  well_formedb data = true -> len key < 2 ^ 32 -> settled data s ->
  let '(s', l, r) := Mmap.find {| Mmap.mmappedData := data |} key s in
  settled data s'
  /\ ((r = Next nil_error /\ readable data (Mmap.dpos s') (Mmap.dlen s'))
      \/ r = Next io_EOF).
Proof.
  intros Hwf Hkey [Hw Hs]. set (cm := {| Mmap.mmappedData := data |}).
  assert (Hloop : forall x, probing data x ->
            let '(s', l, r) := Mmap.find_loop cm key x in
            settled data s'
            /\ ((close r = Next nil_error
                 /\ readable data (Mmap.dpos s') (Mmap.dlen s'))
                \/ close r = Next io_EOF)).
  { intros x Hx. pose proof (mmap_loop_probing data key x Hkey Hx) as H.
    assert (Hf : snd (Mmap.find_loop cm key x) <> Fuel).
    { apply Termination.mmap_loop_no_Fuel.
      destruct Hx as (Hwx & _). unfold Mmap.wf, u32 in Hwx. lia. }
    pose proof (MmapLoop.body_shape cm key) as Hshape.
    fold cm in H. destruct (Mmap.find_loop cm key x) as [[s2 l2] r2] eqn:E.
    destruct H as (H1 & H2 & H3).
    split; [split; [destruct H1; assumption|right; exact H1]|].
    destruct r2 as [[]|e|e|]; cbn [close].
    - right. reflexivity.
    - destruct e as [| | |code].
      + left. split; [reflexivity|]. apply H3. reflexivity.
      + right. reflexivity.
      + exfalso. unfold Mmap.find_loop in E. apply bind_Return_inv in E.
        destruct E as [[k1 E]|(a & x1 & k1 & k2 & _ & E)]; [discriminate|].
        apply (for_Return_inv (fun _ => True)) in E; auto.
        destruct E as (s0 & l0 & _ & _ & E).
        specialize (Hshape s0). rewrite E in Hshape.
        destruct Hshape as [[_ [Hr|Hr]]|[[_ [Hr|Hr]]|(dp & dl & _ & Hr & _)]];
          congruence.
      + exfalso. unfold Mmap.find_loop in E. apply bind_Return_inv in E.
        destruct E as [[k1 E]|(a & x1 & k1 & k2 & _ & E)]; [discriminate|].
        apply (for_Return_inv (fun _ => True)) in E; auto.
        destruct E as (s0 & l0 & _ & _ & E).
        specialize (Hshape s0). rewrite E in Hshape.
        destruct Hshape as [[_ [Hr|Hr]]|[[_ [Hr|Hr]]|(dp & dl & _ & Hr & _)]];
          congruence.
    - exfalso. apply (H2 e). reflexivity.
    - exfalso. cbn [snd] in Hf. congruence. }
  destruct (Z.eq_dec (Mmap.loop s) 0) as [Hz|Hz].
  - set (off := Z.land (shl32 (checksum key) 3) 2047).
    assert (Hoff : off = 8 * Z.land (checksum key) 255)
      by (unfold off; rewrite header_offset; lia).
    assert (Hi : 0 <= Z.land (checksum key) 255 < 256).
    { pose proof (header_offset_range (checksum key)) as Hr.
      rewrite header_offset in Hr. lia. }
    destruct (well_formedb_spec data Hwf _ Hi) as [Hr Ht].
    rewrite <- Hoff in Hr, Ht.
    destruct (nums_at data off) as [p n] eqn:Hn.
    specialize (Ht p n eq_refl).
    pose proof (Simulation.nums_at_range data off) as [Hp Hnn].
    rewrite Hn in Hp, Hnn. cbn [fst snd] in Hp, Hnn.
    destruct (Z.eq_dec n 0) as [->|Hn0].
    + rewrite (MmapFind.find_first cm key s Hz). unfold recover.
      rewrite (bind_Return _ _ _ _ _ _ (MmapFind.init_run cm key s p 0 Hr Hn)).
      split; [|right; reflexivity].
      split; [|left; exact Hz].
      unfold Mmap.wf, u32 in *. cbn. intuition lia.
    + rewrite (Steps.mmap_started cm key s p n Hz Hr Hn Hn0).
      specialize (Hloop _ (probing_start data key s p n Hw Hp Hnn Hn0 Ht)).
      destruct (Mmap.find_loop cm key _) as [[s2 l2] r2]. exact Hloop.
  - destruct Hs as [Hs|Hs]; [contradiction|].
    rewrite (Steps.mmap_resume cm key s Hz).
    specialize (Hloop s Hs).
    destruct (Mmap.find_loop cm key s) as [[s2 l2] r2]. exact Hloop.
Qed.

(** The same for the positioned-read variant, on a file shorter than 2^32
    bytes: the reads that fail end the step, and a key whose bytes run past
    the end of the file never compares equal. *)

Lemma file_unreadable (data : list byte) (pos n : Z) :
  len data < 2 ^ 32 -> 0 <= pos -> 0 <= n -> ~ readable data pos n ->
  len data < pos + n.
Proof. unfold readable. lia. Qed.

Lemma match_loop_past_EOF (data key : list byte) :
  len data < 2 ^ 32 ->
  forall fuel n blen pos s,
    (1 <= blen <= length (Reader.buf s))%nat ->
    0 <= pos <= len data ->
    len data < pos + Z.of_nat (length key - n) ->
    snd (Reader.match_loop fuel (Reader.New (Reader.fileReader data)) key
                           n blen pos s) <> Next true.
Proof.
  intros Hdata. induction fuel as [|fuel IH]; intros n blen pos s Hb Hp Hl.
  - simpl. replace (n <? length key)%nat with true
      by (symmetry; apply Nat.ltb_lt; lia).
    discriminate.
  - assert (Hn : (n < length key)%nat) by lia.
    rewrite ReaderMatch.match_loop_turn by exact Hn. cbv zeta.
    set (nleft := (length key - n)%nat) in *.
    set (k := if (nleft <? blen)%nat then nleft else blen).
    assert (Hk : (1 <= k <= length (Reader.buf s))%nat /\ (k <= nleft)%nat
                 /\ (k <= blen)%nat).
    { unfold k. destruct (Nat.ltb_spec nleft blen); lia. }
    assert (Hlk : length (firstn k (Reader.buf s)) = k)
      by (rewrite length_firstn; lia).
    rewrite Hlk. cbn [Reader.r Reader.New].
    destruct (Z_lt_le_dec (len data) (pos + Z.of_nat k)) as [Hlt|Hle].
    + assert (E : snd (Reader.fileReader data k pos) = io_EOF).
      { pose proof (ReaderFacts.fileReader_EOF data pos (Z.of_nat k)) as E.
        rewrite Nat2Z.id in E. apply E; lia. }
      rewrite E. cbv beta iota delta [negb error_eqb]. discriminate.
    + assert (Hrk : readable data pos (Z.of_nat k))
        by (unfold readable; lia).
      assert (E : Reader.fileReader data k pos
                  = (bytes_at data pos (Z.of_nat k), nil_error)).
      { rewrite <- (Nat2Z.id k) at 1. apply ReaderFacts.fileReader_ok.
        exact Hrk. }
      rewrite E. cbv beta iota zeta delta [snd negb error_eqb].
      match goal with
      | |- context [if bytes_Equal ?a ?b then false else true] =>
          destruct (bytes_Equal a b)
      end; [|discriminate].
      assert (Hp' : add32 pos (wrap32 (Z.of_nat k)) = pos + Z.of_nat k).
      { rewrite wrap32_small by (unfold u32; lia).
        apply add32_small. lia. }
      rewrite Hp'.
      match goal with
      | |- context [Reader.match_loop fuel ?c key ?a ?b ?p ?x] =>
          pose proof (IH a b p x) as H;
          destruct (Reader.match_loop fuel c key a b p x) as [[s2 l2] r2]
      end.
      cbn [snd] in *. apply H.
      * cbn [Reader.buf Reader.set_buf].
        rewrite length_app, ReaderFacts.length_filled, Hlk, length_skipn. lia.
      * lia.
      * fold nleft in Hl. lia.
Qed.

Lemma match_past_EOF (data key : list byte) (pos : Z) (s : Reader.Context) :
  len data < 2 ^ 32 -> (1 <= length (Reader.buf s))%nat ->
  0 <= pos <= len data -> len data < pos + len key ->
  snd (Reader.match_ (Reader.New (Reader.fileReader data)) key pos s)
  <> Next true.
Proof.
  intros Hd Hb Hp Hl. unfold Reader.match_, bind, get.
  pose proof (match_loop_past_EOF data key Hd (length key) 0%nat
                (length (Reader.buf s)) pos s) as H.
  destruct (Reader.match_loop _ _ key 0%nat _ pos s) as [[s2 l2] r2].
  cbn [snd] in *. apply H; [lia|lia|].
  rewrite Nat.sub_0_r. exact Hl.
Qed.

Lemma reader_body_found_inv (data key : list byte) (s s' : Reader.Context) l :
  len data < 2 ^ 32 -> len key < 2 ^ 32 ->
  (8 <= length (Reader.buf s))%nat -> u32 (Reader.kpos s) ->
  Reader.find_body (Reader.New (Reader.fileReader data)) key s
  = (s', l, Return nil_error) ->
  exists pos rdlen,
    hit data key (Reader.khash s) (Reader.kpos s) pos rdlen
    /\ Reader.core s' = Mmap.found pos (len key) rdlen (Reader.core s).
Proof.
  intros Hd Hkey Hb Hk H. set (c := Reader.New (Reader.fileReader data)) in *.
  assert (Hw : wrap32 (len key) = len key)
    by (apply wrap32_small; unfold u32, len in *; lia).
  destruct (Simulation.readable_dec data (Reader.kpos s) 8) as [Hr|Hr].
  2:{ rewrite ReaderBody.body_unfold in H by exact Hb. cbv zeta in H.
      unfold c in H. cbn [Reader.r Reader.New] in H.
      change 8%nat with (Z.to_nat 8) in H.
      rewrite (ReaderFacts.fileReader_EOF data (Reader.kpos s) 8) in H
        by (unfold readable, u32 in *; lia).
      discriminate. }
  destruct (nums_at data (Reader.kpos s)) as [h pos] eqn:Hn.
  destruct (Z.eq_dec pos 0) as [->|Hp].
  { destruct (ReaderFile.file_body_empty data key s h Hb Hr Hn)
      as (x & E & _).
    fold c in E. rewrite E in H. discriminate. }
  destruct (ReaderFile.file_body_occupied data key s h pos Hb Hr Hn Hp)
    as (s0 & Hc0 & Hl0 & E).
  fold c in E. rewrite E in H. clear E.
  pose proof (Simulation.nums_at_range data (Reader.kpos s)) as [_ Hu].
  rewrite Hn in Hu. cbn [snd] in Hu.
  assert (Hba : (8 <= length (Reader.buf (Reader.advance s0)))%nat)
    by (rewrite ReaderBody.buf_advance; lia).
  assert (Hka : Reader.khash (Reader.advance s0) = Reader.khash s).
  { rewrite <- !ReaderBody.khash_core, ReaderBody.core_advance,
      MmapBody.khash_advance, Hc0. reflexivity. }
  assert (Hca : Reader.core (Reader.advance s0)
                = Mmap.advance (Reader.core s))
    by (rewrite ReaderBody.core_advance, Hc0; reflexivity).
  destruct (Z.eq_dec h (Reader.khash s)) as [->|Hh].
  2:{ rewrite (ReaderFile.file_record_other_hash data key) in H
        by (rewrite Hka; exact Hh).
      discriminate. }
  rewrite <- Hka in H.
  destruct (Simulation.readable_dec data pos 8) as [Hr2|Hr2].
  2:{ rewrite ReaderBody.record_unfold in H by exact Hba.
      rewrite Z.eqb_refl in H. cbv zeta in H.
      unfold c in H. cbn [Reader.r Reader.New] in H.
      change 8%nat with (Z.to_nat 8) in H.
      rewrite (ReaderFacts.fileReader_EOF data pos 8) in H
        by (unfold readable, u32 in *; lia).
      discriminate. }
  destruct (nums_at data pos) as [rklen rdlen] eqn:Hn2.
  destruct (Z.eq_dec rklen (len key)) as [->|Hl].
  2:{ destruct (ReaderFile.file_record_other_length data key
                  (Reader.advance s0) pos rklen rdlen Hba Hr2 Hn2)
        as (x & E & _); [rewrite Hw; exact Hl|].
      fold c in E. rewrite E in H. discriminate. }
  destruct (Simulation.readable_dec data (pos + 8) (len key)) as [Hr3|Hr3].
  - destruct (ReaderFile.record_compare data key (Reader.advance s0) pos rdlen
                Hba Hkey Hr2 Hn2 Hr3) as (x & lx & Hcx & _ & E).
    fold c in E. rewrite E in H. clear E.
    destruct (bytes_Equal (bytes_at data (pos + 8) (len key)) key) eqn:Hb3;
      [|discriminate].
    apply bytes_Equal_eq in Hb3.
    injection H as <- _. exists pos, rdlen. split.
    + unfold hit. auto 10.
    + unfold Mmap.found. rewrite <- Hca, <- Hcx. reflexivity.
  - exfalso. rewrite ReaderBody.record_unfold in H by exact Hba.
    rewrite Z.eqb_refl in H. cbv zeta in H.
    pose proof (match_past_EOF data key (add32 pos 8)
                  (Reader.set_buf (Reader.nums_buf c pos (Reader.advance s0))
                                  (Reader.advance s0)) Hd) as Hm.
    fold c in Hm.
    destruct (negb (error_eqb _ nil_error)); [discriminate|].
    destruct (_ =? wrap32 (len key)); [|discriminate].
    match type of H with
    | context [Reader.match_ c key ?p ?x] =>
        destruct (ReaderMatch.match_shape c key p x)
          as (b & lb & rb & E & _ & Hrb)
    end.
    { cbn [Reader.buf Reader.set_buf].
      rewrite ReaderFacts.length_nums_buf by exact Hba. lia. }
    rewrite E in H, Hm.
    destruct Hrb as [[[|] ->]|[e ->]]; try discriminate.
    apply Hm; [| | |reflexivity].
    + cbn [Reader.buf Reader.set_buf].
      rewrite ReaderFacts.length_nums_buf by exact Hba. lia.
    + rewrite add32_small by (unfold readable in Hr2; lia).
      unfold readable in Hr2. lia.
    + rewrite add32_small by (unfold readable in Hr2; lia).
      apply file_unreadable; [exact Hd| | |exact Hr3].
      * unfold readable in Hr2. lia.
      * unfold len. lia.
Qed.

(** The positioned-read variant panics with the error of a failed read or
    with the bounds error of a short buffer, never with [nil]: the deferred
    [recover] cannot turn a panic into a step that reports a match. *)

Lemma error_eqb_nil (e : error) : error_eqb e nil_error = true -> e = nil_error.
Proof. destruct e; simpl; intros H; try discriminate; reflexivity. Qed.

Lemma reader_readNums_Panic (c : Reader.Cdb) (pos : Z) s s' l e :
  Reader.readNums c pos s = (s', l, Panic e) -> e <> nil_error.
Proof.
  destruct (Nat.lt_ge_cases (length (Reader.buf s)) 8) as [Hs|Hb].
  - rewrite (ReaderFacts.readNums_short c pos s Hs). intros H.
    injection H as _ _ <-. discriminate.
  - rewrite (ReaderFacts.readNums_run c pos s Hb). cbv zeta.
    destruct (negb (error_eqb (snd (Reader.r c 8%nat pos)) nil_error)) eqn:E;
      intros H; [|discriminate].
    injection H as _ _ <-. intros Hn. rewrite Hn in E. discriminate.
Qed.

Lemma reader_match_loop_Panic (c : Reader.Cdb) (key : list byte) :
  forall fuel n blen pos s s' l e,
    Reader.match_loop fuel c key n blen pos s = (s', l, Panic e) ->
    e <> nil_error.
Proof.
  induction fuel as [|fuel IH]; intros n blen pos s s' l e H.
  - simpl in H. destruct (n <? length key)%nat; discriminate.
  - destruct (Nat.ltb_spec n (length key)) as [Hn|Hn].
    + rewrite ReaderMatch.match_loop_turn in H by exact Hn. cbv zeta in H.
      destruct (negb (error_eqb _ nil_error)) eqn:E.
      { injection H as _ _ <-. intros Hn'. rewrite Hn' in E. discriminate. }
      destruct (negb (bytes_Equal _ _)); [discriminate|].
      match type of H with
      | context [Reader.match_loop fuel c key ?a ?b ?p ?x] =>
          specialize (IH a b p x);
          destruct (Reader.match_loop fuel c key a b p x) as [[s2 l2] r2]
      end.
      injection H as _ _ ->. apply (IH _ _ _ eq_refl).
    + simpl in H.
      replace (n <? length key)%nat with false in H
        by (symmetry; apply Nat.ltb_ge; lia).
      discriminate.
Qed.

Lemma reader_record_Panic (c : Reader.Cdb) (key : list byte) (h pos : Z)
    s s' l e :
  Reader.find_record c key h pos s = (s', l, Panic e) -> e <> nil_error.
Proof.
  intros H. unfold Reader.find_record in H.
  apply Equivalence.bind_Panic_inv in H.
  destruct H as [[l1 H]|(a & s1 & l1 & l2 & _ & H)]; [discriminate|].
  destruct (h =? Reader.khash a); [|discriminate].
  apply Equivalence.bind_Panic_inv in H.
  destruct H as [[l3 H]|([rklen rdlen] & s2 & l3 & l4 & _ & H)].
  { apply (reader_readNums_Panic _ _ _ _ _ _ H). }
  destruct (rklen =? wrap32 (len key)); [|discriminate].
  apply Equivalence.bind_Panic_inv in H.
  destruct H as [[l5 H]|(m & s3 & l5 & l6 & _ & H)].
  - unfold Reader.match_ in H. apply Equivalence.bind_Panic_inv in H.
    destruct H as [[l7 H]|(a' & s4 & l7 & l8 & _ & H)]; [discriminate|].
    apply (reader_match_loop_Panic _ _ _ _ _ _ _ _ _ _ H).
  - destruct m; discriminate.
Qed.

Lemma reader_body_Panic (c : Reader.Cdb) (key : list byte) s s' l e :
  Reader.find_body c key s = (s', l, Panic e) -> e <> nil_error.
Proof.
  intros H. unfold Reader.find_body in H.
  apply Equivalence.bind_Panic_inv in H.
  destruct H as [[l1 H]|(a & s1 & l1 & l2 & _ & H)]; [discriminate|].
  apply Equivalence.bind_Panic_inv in H.
  destruct H as [[l3 H]|([h pos] & s2 & l3 & l4 & _ & H)].
  { apply (reader_readNums_Panic _ _ _ _ _ _ H). }
  destruct (pos =? 0); [discriminate|].
  apply Equivalence.bind_Panic_inv in H.
  destruct H as [[l5 H]|(u1 & s3 & l5 & l6 & _ & H)]; [discriminate|].
  apply Equivalence.bind_Panic_inv in H.
  destruct H as [[l7 H]|(u2 & s4 & l7 & l8 & _ & H)]; [discriminate|].
  apply Equivalence.bind_Panic_inv in H.
  destruct H as [[l9 H]|(a2 & s5 & l9 & l10 & _ & H)]; [discriminate|].
  apply Equivalence.bind_Panic_inv in H.
  destruct H as [[l11 H]|(u3 & s6 & l11 & l12 & _ & H)].
  { destruct (_ =? _); discriminate. }
  apply (reader_record_Panic _ _ _ _ _ _ _ _ H).
Qed.

Lemma reader_init_Panic (c : Reader.Cdb) (key : list byte) s s' l e :
  Reader.find_init c key s = (s', l, Panic e) -> e <> nil_error.
Proof.
  intros H. unfold Reader.find_init in H.
  apply Equivalence.bind_Panic_inv in H.
  destruct H as [[l1 H]|([p n] & s1 & l1 & l2 & _ & H)].
  { apply (reader_readNums_Panic _ _ _ _ _ _ H). }
  exfalso. revert H. unfold bind, modify, get, return_.
  cbn [Reader.hslots Reader.set_hslots].
  destruct (n =? 0); discriminate.
Qed.

Lemma reader_panics (c : Reader.Cdb) (key : list byte) s s' l e :
  (context <- get ;;
   (if Reader.loop context =? 0 then Reader.find_init c key else ret tt) ;;
   Reader.find_loop c key ;; return_ (A := error) io_EOF) s = (s', l, Panic e) ->
  e <> nil_error.
Proof.
  intros H. apply Equivalence.bind_Panic_inv in H.
  destruct H as [[l1 H]|(a & s1 & l1 & l2 & Hg & H)]; [discriminate|].
  apply Equivalence.bind_Panic_inv in H.
  destruct H as [[l3 H]|(u & s2 & l3 & l4 & _ & H)].
  - destruct (Reader.loop a =? 0); [|discriminate].
    apply (reader_init_Panic _ _ _ _ _ _ H).
  - apply Equivalence.bind_Panic_inv in H.
    destruct H as [[l5 H]|(a' & s3 & l5 & l6 & _ & H)]; [|discriminate].
    unfold Reader.find_loop in H. apply Equivalence.bind_Panic_inv in H.
    destruct H as [[l7 H]|(a' & s3 & l7 & l8 & _ & H)]; [discriminate|].
    apply Equivalence.for_Panic_inv in H. destruct H as (s0 & l0 & H).
    apply (reader_body_Panic _ _ _ _ _ _ H).
Qed.

Lemma reader_init_frame (c : Reader.Cdb) (key : list byte) s :
  (8 <= length (Reader.buf s))%nat -> Reader.wf s ->
  (8 <= length (Reader.buf (fst (fst (Reader.find_init c key s)))))%nat
  /\ Reader.wf (fst (fst (Reader.find_init c key s))).
Proof.
  intros Hb Hw. pose proof (Termination.reader_init_shape c key s) as Hs.
  destruct (Reader.find_init c key s) as [[s1 l1] r1]. cbn [fst].
  destruct Hs as [Hl Hs]. split; [lia|]. unfold Reader.wf in *.
  destruct Hs as [[-> _]|[(p & Hp & -> & _)|(p & n & Hp & Hn & _ & -> & _)]].
  - exact Hw.
  - unfold Mmap.wf, u32 in *. cbn. cbn in Hw. intuition lia.
  - pose proof (checksum_range key) as Hc.
    pose proof (add32_range p (shl32 (shr32 (checksum key) 8 mod n) 3)) as Ha.
    unfold Mmap.wf in *. cbn. cbn in Hw. tauto.
Qed.

Lemma reader_loop_found_inv (data key : list byte) (s s' : Reader.Context) l :
  len data < 2 ^ 32 -> len key < 2 ^ 32 ->
  (8 <= length (Reader.buf s))%nat -> Reader.wf s ->
  Reader.find_loop (Reader.New (Reader.fileReader data)) key s
  = (s', l, Return nil_error) ->
  exists kp pos,
    hit data key (Reader.khash s') kp pos (Reader.dlen s')
    /\ Reader.dpos s' = pos + 8 + len key.
Proof.
  intros Hd Hkey Hb Hw H. unfold Reader.find_loop in H.
  apply bind_Return_inv in H.
  destruct H as [[l1 H]|(a & s1 & l1 & l2 & Hg & H)]; [discriminate|].
  unfold get in Hg. injection Hg as <- <- <-.
  apply (for_Return_inv
           (fun x => (8 <= length (Reader.buf x))%nat /\ Reader.wf x)) in H;
    [| |split; assumption].
  2:{ intros x [Hx1 Hx2] _.
      destruct (ReaderLoop.turn_frame (Reader.New (Reader.fileReader data))
                  key x) as (_ & _ & _ & _ & Hl & Hf).
      split; [lia|auto]. }
  destruct H as (s0 & l0 & [Hb0 Hw0] & _ & Hbody).
  apply reader_body_found_inv in Hbody; auto.
  2:{ unfold Reader.wf, Mmap.wf in Hw0. cbn in Hw0. tauto. }
  destruct Hbody as (pos & rdlen & Hhit & Hc).
  exists (Reader.kpos s0), pos.
  pose proof (f_equal Mmap.khash Hc) as E1.
  pose proof (f_equal Mmap.dlen Hc) as E2.
  pose proof (f_equal Mmap.dpos Hc) as E3.
  unfold Mmap.found in E1, E2, E3.
  cbn [Mmap.khash Mmap.dlen Mmap.dpos Mmap.set_dpos Mmap.set_dlen
       Reader.core] in E1, E2, E3.
  rewrite MmapBody.khash_advance in E1. cbn [Mmap.khash] in E1.
  rewrite E1, E2, E3. auto.
Qed.

Lemma reader_find_found_inv (data key : list byte) (s s' : Reader.Context) l :
  len data < 2 ^ 32 -> len key < 2 ^ 32 ->
  (8 <= length (Reader.buf s))%nat -> Reader.wf s ->
  Reader.find (Reader.New (Reader.fileReader data)) key s
  = (s', l, Next nil_error) ->
  (exists kp pos,
     hit data key (Reader.khash s') kp pos (Reader.dlen s')
     /\ Reader.dpos s' = pos + 8 + len key)
  /\ (Reader.loop s = 0 -> Reader.khash s' = checksum key).
Proof.
  intros Hd Hkey Hb Hw H. set (c := Reader.New (Reader.fileReader data)) in *.
  unfold Reader.find, recover in H.
  match type of H with
  | context [bind ?a ?b s] =>
      destruct (bind a b s) as [[s1 l1] r1] eqn:E
  end.
  assert (Hr : r1 = Return nil_error /\ s1 = s').
  { destruct r1 as [e|e|e|]; try discriminate.
    - exfalso. apply bind_Next_inv in E.
      destruct E as (a & x1 & k1 & k2 & _ & E).
      apply bind_Next_inv in E. destruct E as (a2 & x2 & k3 & k4 & _ & E).
      apply bind_Next_inv in E. destruct E as (a3 & x3 & k5 & k6 & _ & E).
      discriminate.
    - injection H as <- _ <-. auto.
    - exfalso. apply (reader_panics c key s s1 l1 e E).
      injection H as _ _ <-. reflexivity. }
  destruct Hr as [-> ->]. clear H.
  apply bind_Return_inv in E.
  destruct E as [[k1 E]|(a & x1 & k1 & k2 & Hg & E)]; [discriminate|].
  unfold get in Hg. injection Hg as <- <- <-.
  apply bind_Return_inv in E.
  destruct E as [[k3 E]|(a2 & x2 & k3 & k4 & Hi & E)].
  { destruct (Reader.loop s =? 0); [|discriminate].
    pose proof (Termination.reader_init_shape c key s) as Hs.
    rewrite E in Hs.
    destruct Hs as [_ [[_ [e Hr]]|[(p & _ & _ & Hr)
                                  |(p & n & _ & _ & _ & _ & Hr)]]];
      discriminate. }
  assert (Hw2 : (8 <= length (Reader.buf x2))%nat /\ Reader.wf x2).
  { destruct (Reader.loop s =? 0).
    - pose proof (reader_init_frame c key s Hb Hw) as Hi2.
      rewrite Hi in Hi2. exact Hi2.
    - unfold ret in Hi. injection Hi as <- _ _. auto. }
  assert (Hh : Reader.loop s = 0 -> Reader.khash x2 = checksum key).
  { intros Hz. rewrite Hz in Hi. cbn [Z.eqb] in Hi.
    pose proof (Termination.reader_init_shape c key s) as Hs.
    rewrite Hi in Hs.
    destruct Hs as [_ [[_ [e Hr]]|[(p & _ & _ & Hr)
                                  |(p & n & _ & _ & _ & Hc & _)]]];
      try discriminate.
    apply (f_equal Mmap.khash) in Hc. exact Hc. }
  apply bind_Return_inv in E.
  destruct E as [[k5 E]|(a3 & x3 & k5 & k6 & _ & E)]; [|discriminate].
  destruct Hw2 as [Hb2 Hw2].
  split; [apply (reader_loop_found_inv data key x2 s' k5 Hd Hkey Hb2 Hw2 E)|].
  intros Hz. rewrite <- (Hh Hz).
  destruct (Steps.reader_loop_frame c key x2) as (_ & _ & Hf & _).
  rewrite E in Hf. exact Hf.
Qed.

(** ** The calls that hand out the data *)

Lemma mmap_FindNext_found (c : Mmap.Cdb) (key : list byte) s s' l :
  Mmap.find c key s = (s', l, Next nil_error) ->
  readable (Mmap.mmappedData c) (Mmap.dpos s') (Mmap.dlen s') ->
  Mmap.FindNext c key s
  = (s', l ++ [(Mmap.dpos s', Mmap.dlen s')],
     Next (bytes_at (Mmap.mmappedData c) (Mmap.dpos s') (Mmap.dlen s'),
           nil_error)).
Proof.
  intros H Hr. unfold Mmap.FindNext.
  rewrite (bind_Next _ _ _ _ _ _ H). cbn [negb error_eqb].
  unfold bind, get, ret. rewrite (MmapFacts.slice_ok c _ _ s' Hr).
  reflexivity.
Qed.

Lemma mmap_FindNext_crash (c : Mmap.Cdb) (key : list byte) s s' l :
  Mmap.find c key s = (s', l, Next nil_error) -> Mmap.wf s' ->
  ~ readable (Mmap.mmappedData c) (Mmap.dpos s') (Mmap.dlen s') ->
  Mmap.FindNext c key s
  = (s', l ++ [(Mmap.dpos s', Mmap.dlen s')], Panic boundsError).
Proof.
  intros H Hw Hr. unfold Mmap.FindNext.
  rewrite (bind_Next _ _ _ _ _ _ H). cbn [negb error_eqb].
  assert (Hs : Mmap.slice c (Mmap.dpos s') (Mmap.dlen s') s'
               = (s', [(Mmap.dpos s', Mmap.dlen s')], Panic boundsError)).
  { apply MmapFacts.slice_panic; [| |exact Hr]; unfold Mmap.wf in Hw; tauto. }
  unfold bind, get, ret. rewrite Hs. reflexivity.
Qed.

Lemma mmap_FindNext_miss (c : Mmap.Cdb) (key : list byte) s s' l e :
  Mmap.find c key s = (s', l, Next e) -> e <> nil_error ->
  Mmap.FindNext c key s = (s', l, Next ([], e)).
Proof.
  intros H He. unfold Mmap.FindNext.
  rewrite (bind_Next _ _ _ _ _ _ H).
  destruct e; try contradiction; cbn [negb error_eqb]; unfold ret;
    rewrite app_nil_r; reflexivity.
Qed.

Lemma mmap_Find_FindNext (c : Mmap.Cdb) (key : list byte) s :
  Mmap.Find c key s = Mmap.FindNext c key (Mmap.set_loop 0 s).
Proof. unfold Mmap.Find, Mmap.FindStart. apply run_modify. Qed.

Lemma mmap_Data_FindNext (c : Mmap.Cdb) (key : list byte) s :
  Mmap.Data c key s = Mmap.FindNext c key (Mmap.set_loop 0 s).
Proof. unfold Mmap.Data, Mmap.FindStart. apply run_modify. Qed.

Lemma reader_FindNext_found (c : Reader.Cdb) (key : list byte) s s' l :
  Reader.find c key s = (s', l, Next nil_error) ->
  Reader.FindNext c key s
  = (s', l, Next (Some {| Reader.off := Reader.dpos s';
                          Reader.n := Reader.dlen s' |}, nil_error)).
Proof.
  intros H. unfold Reader.FindNext.
  rewrite (bind_Next _ _ _ _ _ _ H). cbn [negb error_eqb].
  unfold bind, get, ret. cbn [app]. rewrite app_nil_r. reflexivity.
Qed.

Lemma reader_FindNext_miss (c : Reader.Cdb) (key : list byte) s s' l e :
  Reader.find c key s = (s', l, Next e) -> e <> nil_error ->
  Reader.FindNext c key s = (s', l, Next (None, e)).
Proof.
  intros H He. unfold Reader.FindNext.
  rewrite (bind_Next _ _ _ _ _ _ H).
  destruct e; try contradiction; cbn [negb error_eqb]; unfold ret;
    rewrite app_nil_r; reflexivity.
Qed.

Lemma reader_Find_FindNext (c : Reader.Cdb) (key : list byte) s :
  Reader.Find c key s = Reader.FindNext c key (Reader.set_loop 0 s).
Proof. unfold Reader.Find, Reader.FindStart. apply run_modify. Qed.

Lemma reader_Data_found (data key : list byte) s s' l :
  Reader.find (Reader.New (Reader.fileReader data)) key (Reader.set_loop 0 s)
  = (s', l, Next nil_error) ->
  readable data (Reader.dpos s') (Reader.dlen s') ->
  Reader.Data (Reader.New (Reader.fileReader data)) key s
  = (s', l ++ [(Reader.dpos s', Reader.dlen s')],
     Next (bytes_at data (Reader.dpos s') (Reader.dlen s'), nil_error)).
Proof.
  intros H Hr. unfold Reader.Data, Reader.FindStart. rewrite run_modify.
  rewrite (bind_Next _ _ _ _ _ _ H). cbn [negb error_eqb].
  unfold bind, get. rewrite (reader_read_file data _ _ s' Hr).
  reflexivity.
Qed.

Lemma reader_Data_miss (c : Reader.Cdb) (key : list byte) s s' l e :
  Reader.find c key (Reader.set_loop 0 s) = (s', l, Next e) ->
  e <> nil_error ->
  Reader.Data c key s = (s', l, Next ([], e)).
Proof.
  intros H He. unfold Reader.Data, Reader.FindStart. rewrite run_modify.
  rewrite (bind_Next _ _ _ _ _ _ H).
  destruct e; try contradiction; cbn [negb error_eqb]; unfold ret;
    rewrite app_nil_r; reflexivity.
Qed.

Lemma sim_reset (ms : Mmap.Context) (rs : Reader.Context) :
  sim ms rs -> sim (Mmap.set_loop 0 ms) (Reader.set_loop 0 rs).
Proof.
  intros (Hc & Hb & Hw). split; [|split].
  - rewrite <- Hc. reflexivity.
  - exact Hb.
  - unfold Mmap.wf, u32 in *. cbn. intuition lia.
Qed.

Lemma settled_reset (data : list byte) (ms : Mmap.Context) :
  Mmap.wf ms -> settled data (Mmap.set_loop 0 ms).
Proof.
  intros Hw. split; [|left; reflexivity].
  unfold Mmap.wf, u32 in *. cbn. intuition lia.
Qed.

(** X2: a step that returns [nil] has matched a record of the key.  The
    context it leaves names, in [dpos] and [dlen], the data of a record
    that lies in the file, whose stored key has the length and the bytes of
    the key asked for, and to which a slot holding the hash in [khash]
    points; on a first step ([loop] is 0) that hash is the key's.  For the
    memory-mapped variant on any file; for the positioned-read variant on
    any file shorter than 2^32 bytes, however the key is cut in chunks and
    whatever reads fail. *)
Theorem found_record_has_the_key (data key : list byte)
    (ms ms' : Mmap.Context) (ml : list event)
    (rs rs' : Reader.Context) (rl : list event) :
  len key < 2 ^ 32 ->
  (Mmap.wf ms ->
   Mmap.find {| Mmap.mmappedData := data |} key ms = (ms', ml, Next nil_error) ->
   (exists kp pos,
      hit data key (Mmap.khash ms') kp pos (Mmap.dlen ms')
      /\ Mmap.dpos ms' = pos + 8 + len key)
   /\ (Mmap.loop ms = 0 -> Mmap.khash ms' = checksum key))
  /\ (len data < 2 ^ 32 -> (8 <= length (Reader.buf rs))%nat ->
      Reader.wf rs ->
      Reader.find (Reader.New (Reader.fileReader data)) key rs
      = (rs', rl, Next nil_error) ->
      (exists kp pos,
         hit data key (Reader.khash rs') kp pos (Reader.dlen rs')
         /\ Reader.dpos rs' = pos + 8 + len key)
      /\ (Reader.loop rs = 0 -> Reader.khash rs' = checksum key)).
Proof.
  intros Hkey. split.
  - intros Hw H. apply (mmap_find_found_inv data key ms ms' ml Hkey Hw H).
  - intros Hd Hb Hw H.
    apply (reader_find_found_inv data key rs rs' rl Hd Hkey Hb Hw H).
Qed.

Lemma found_record_has_the_key_witness :
  ((exists kp pos,
      hit db_dup key_a (Mmap.khash dup_first) kp pos (Mmap.dlen dup_first)
      /\ Mmap.dpos dup_first = pos + 8 + len key_a)
   /\ (Mmap.loop Mmap.NewContext = 0 -> Mmap.khash dup_first = checksum key_a))
  /\ ((exists kp pos,
         hit db_chunk key65 3704193486 kp pos 1
         /\ 2137 = pos + 8 + len key65)
      /\ (Reader.loop Reader.NewContext = 0 -> 3704193486 = checksum key65)).
Proof.
  split.
  - refine (proj1 (found_record_has_the_key db_dup key_a Mmap.NewContext
                     dup_first [(1568, 8); (2048, 8); (2072, 8); (2080, 1)]
                     Reader.NewContext Reader.NewContext [] _) _ _).
    + vm_compute. reflexivity.
    + vm_compute. intuition discriminate.
    + vm_compute. reflexivity.
  - refine (proj2 (found_record_has_the_key db_chunk key65 Mmap.NewContext
                     Mmap.NewContext []
                     Reader.NewContext
                     (fst (fst (Reader.find
                                  (Reader.New (Reader.fileReader db_chunk))
                                  key65 Reader.NewContext)))
                     (snd (fst (Reader.find
                                  (Reader.New (Reader.fileReader db_chunk))
                                  key65 Reader.NewContext))) _) _ _ _ _).
    + vm_compute. reflexivity.
    + vm_compute. reflexivity.
    + vm_compute. lia.
    + vm_compute. intuition discriminate.
    + vm_compute. reflexivity.
Defined.

(** X3: on a well-formed database (every header entry, every slot of every
    table, and the key and the data of every record a slot points to lie in
    the file and below 2^32) [FindNext] never fails and never panics,
    whatever key is asked for and whatever calls came before.  From a
    context that is fresh, reset or left by an earlier call, it returns
    [io.EOF], or the data of a record of the key: the bytes themselves in
    the memory-mapped variant, the section [(dpos, dlen)] of the file in the
    positioned-read variant.  Both variants return the same and leave the
    same counters, and the context is again one the next call may start
    from. *)
Theorem FindNext_on_well_formed_database (data key : list byte)
    (ms : Mmap.Context) (rs : Reader.Context) :
  well_formedb data = true -> len key < 2 ^ 32 ->
  settled data ms -> sim ms rs ->
  let cm := {| Mmap.mmappedData := data |} in
  let cr := Reader.New (Reader.fileReader data) in
  exists ms' ml rs' rl,
    settled data ms' /\ sim ms' rs'
    /\ ((Mmap.FindNext cm key ms = (ms', ml, Next ([], io_EOF))
         /\ Reader.FindNext cr key rs = (rs', rl, Next (None, io_EOF)))
        \/ (exists kp pos,
              hit data key (Mmap.khash ms') kp pos (Mmap.dlen ms')
              /\ Mmap.dpos ms' = pos + 8 + len key
              /\ readable data (Mmap.dpos ms') (Mmap.dlen ms')
              /\ Mmap.FindNext cm key ms
                 = (ms', ml,
                    Next (bytes_at data (Mmap.dpos ms') (Mmap.dlen ms'),
                          nil_error))
              /\ Reader.FindNext cr key rs
                 = (rs', rl,
                    Next (Some {| Reader.off := Mmap.dpos ms';
                                  Reader.n := Mmap.dlen ms' |}, nil_error)))).
Proof.
  intros Hwf Hkey Hs Hsim cm cr.
  pose proof (mmap_find_settled data key ms Hwf Hkey Hs) as H. fold cm in H.
  destruct (Mmap.find cm key ms) as [[ms' ml] r] eqn:E.
  destruct H as [Hs' [[-> Hr]| ->]].
  - destruct (Equivalence.find_sim data key Hkey ms rs ms' ml nil_error
                Hsim E ltac:(discriminate)) as (rs' & rl & Er & Hsim').
    destruct (mmap_find_found_inv data key ms ms' ml Hkey (proj1 Hs) E)
      as [(kp & pos & Hhit & Hd) _].
    exists ms', (ml ++ [(Mmap.dpos ms', Mmap.dlen ms')]), rs', rl.
    split; [exact Hs'|]. split; [exact Hsim'|]. right.
    exists kp, pos. split; [exact Hhit|]. split; [exact Hd|].
    split; [exact Hr|]. split.
    + apply (mmap_FindNext_found cm key ms ms' ml E Hr).
    + fold cr in Er. rewrite (reader_FindNext_found cr key rs rs' rl Er).
      destruct Hsim' as (<- & _). reflexivity.
  - destruct (Equivalence.find_sim data key Hkey ms rs ms' ml io_EOF
                Hsim E ltac:(discriminate)) as (rs' & rl & Er & Hsim').
    exists ms', ml, rs', rl.
    split; [exact Hs'|]. split; [exact Hsim'|]. left. split.
    + apply (mmap_FindNext_miss cm key ms ms' ml io_EOF E). discriminate.
    + apply (reader_FindNext_miss cr key rs rs' rl io_EOF Er). discriminate.
Qed.

Lemma FindNext_on_well_formed_database_witness :
  exists ms' ml rs' rl,
    settled db_dup ms' /\ sim ms' rs'
    /\ ((Mmap.FindNext {| Mmap.mmappedData := db_dup |} key_a Mmap.NewContext
         = (ms', ml, Next ([], io_EOF))
         /\ Reader.FindNext (Reader.New (Reader.fileReader db_dup)) key_a
                            Reader.NewContext
            = (rs', rl, Next (None, io_EOF)))
        \/ (exists kp pos,
              hit db_dup key_a (Mmap.khash ms') kp pos (Mmap.dlen ms')
              /\ Mmap.dpos ms' = pos + 8 + len key_a
              /\ readable db_dup (Mmap.dpos ms') (Mmap.dlen ms')
              /\ Mmap.FindNext {| Mmap.mmappedData := db_dup |} key_a
                               Mmap.NewContext
                 = (ms', ml,
                    Next (bytes_at db_dup (Mmap.dpos ms') (Mmap.dlen ms'),
                          nil_error))
              /\ Reader.FindNext (Reader.New (Reader.fileReader db_dup)) key_a
                                 Reader.NewContext
                 = (rs', rl,
                    Next (Some {| Reader.off := Mmap.dpos ms';
                                  Reader.n := Mmap.dlen ms' |}, nil_error)))).
Proof.
  apply (FindNext_on_well_formed_database db_dup key_a Mmap.NewContext
           Reader.NewContext).
  - vm_compute. reflexivity.
  - vm_compute. reflexivity.
  - split; [vm_compute; intuition discriminate|left; reflexivity].
  - split; [reflexivity|]. split; [vm_compute; lia|].
    vm_compute. intuition discriminate.
Defined.

(** X4: on a well-formed database [Data] (and [Find] of the memory-mapped
    variant, which runs the same statements) started from any context
    returns either [io.EOF] with no data, or [nil] with the data bytes of a
    record that a slot with the key's hash points to and whose stored key
    is the key asked for.  The positioned-read variant returns the same
    bytes and error.  So a value handed out is always a value stored under
    that key, and no call ends in a bounds error or a panic. *)
Theorem Data_on_well_formed_database (data key : list byte)
    (ms : Mmap.Context) (rs : Reader.Context) :
  well_formedb data = true -> len key < 2 ^ 32 -> sim ms rs ->
  let cm := {| Mmap.mmappedData := data |} in
  let cr := Reader.New (Reader.fileReader data) in
  exists ms' ml rs' rl res,
    Mmap.Data cm key ms = (ms', ml, Next res)
    /\ Mmap.Find cm key ms = (ms', ml, Next res)
    /\ Reader.Data cr key rs = (rs', rl, Next res)
    /\ sim ms' rs' /\ settled data ms'
    /\ (res = ([], io_EOF)
        \/ exists kp pos rdlen,
             hit data key (checksum key) kp pos rdlen
             /\ readable data (pos + 8 + len key) rdlen
             /\ res = (bytes_at data (pos + 8 + len key) rdlen, nil_error)).
Proof.
  intros Hwf Hkey Hsim cm cr.
  pose proof (sim_reset ms rs Hsim) as Hsim0.
  assert (Hw : Mmap.wf ms) by (destruct Hsim as (_ & _ & Hw); exact Hw).
  pose proof (settled_reset data ms Hw) as Hs0.
  pose proof (mmap_find_settled data key _ Hwf Hkey Hs0) as H. fold cm in H.
  rewrite mmap_Data_FindNext, mmap_Find_FindNext.
  destruct (Mmap.find cm key (Mmap.set_loop 0 ms)) as [[ms' ml] r] eqn:E.
  destruct H as [Hs' [[-> Hr]| ->]].
  - destruct (Equivalence.find_sim data key Hkey _ _ ms' ml nil_error
                Hsim0 E ltac:(discriminate)) as (rs' & rl & Er & Hsim').
    destruct (mmap_find_found_inv data key _ ms' ml Hkey (proj1 Hs0) E)
      as [(kp & pos & Hhit & Hd) Hh].
    specialize (Hh eq_refl).
    exists ms', (ml ++ [(Mmap.dpos ms', Mmap.dlen ms')]), rs',
      (rl ++ [(Reader.dpos rs', Reader.dlen rs')]),
      (bytes_at data (Mmap.dpos ms') (Mmap.dlen ms'), nil_error).
    pose proof (mmap_FindNext_found cm key _ ms' ml E Hr) as EF.
    split; [exact EF|]. split; [exact EF|]. split.
    + destruct Hsim' as (Hc & Hrest). fold cr in Er.
      assert (Hdp : Reader.dpos rs' = Mmap.dpos ms')
        by (rewrite <- Hc; reflexivity).
      assert (Hdl : Reader.dlen rs' = Mmap.dlen ms')
        by (rewrite <- Hc; reflexivity).
      rewrite <- Hdp, <- Hdl in Hr |- *.
      apply (reader_Data_found data key rs rs' rl Er Hr).
    + split; [exact Hsim'|]. split; [exact Hs'|]. right.
      exists kp, pos, (Mmap.dlen ms'). rewrite <- Hh, <- Hd. auto.
  - destruct (Equivalence.find_sim data key Hkey _ _ ms' ml io_EOF
                Hsim0 E ltac:(discriminate)) as (rs' & rl & Er & Hsim').
    exists ms', ml, rs', rl, ([], io_EOF).
    pose proof (mmap_FindNext_miss cm key _ ms' ml io_EOF E
                  ltac:(discriminate)) as EF.
    split; [exact EF|]. split; [exact EF|]. split.
    + apply (reader_Data_miss cr key rs rs' rl io_EOF Er). discriminate.
    + auto.
Qed.

Lemma Data_on_well_formed_database_witness :
  exists ms' ml rs' rl res,
    Mmap.Data {| Mmap.mmappedData := db_dup |} key_a dup_second
    = (ms', ml, Next res)
    /\ Mmap.Find {| Mmap.mmappedData := db_dup |} key_a dup_second
       = (ms', ml, Next res)
    /\ Reader.Data (Reader.New (Reader.fileReader db_dup)) key_a
                   (with_buf dup_second)
       = (rs', rl, Next res)
    /\ sim ms' rs' /\ settled db_dup ms'
    /\ (res = ([], io_EOF)
        \/ exists kp pos rdlen,
             hit db_dup key_a (checksum key_a) kp pos rdlen
             /\ readable db_dup (pos + 8 + len key_a) rdlen
             /\ res = (bytes_at db_dup (pos + 8 + len key_a) rdlen,
                       nil_error)).
Proof.
  apply (Data_on_well_formed_database db_dup key_a dup_second
           (with_buf dup_second)).
  - vm_compute. reflexivity.
  - vm_compute. reflexivity.
  - split; [reflexivity|]. split; [vm_compute; lia|].
    vm_compute. intuition discriminate.
Defined.

Lemma mmap_set_loop_same (s : Mmap.Context) :
  Mmap.loop s = 0 -> Mmap.set_loop 0 s = s.
Proof. destruct s. cbn. intros ->. reflexivity. Qed.

Lemma reader_set_loop_same (s : Reader.Context) :
  Reader.loop s = 0 -> Reader.set_loop 0 s = s.
Proof. destruct s. cbn. intros ->. reflexivity. Qed.

(** X5: the slice of the data is taken after [find] has returned, outside
    its deferred [recover].  So when a step of the memory-mapped variant
    matches a record whose announced data do not lie in the file,
    [FindNext] (and [Find] and [Data] on a first step) panics with the
    bounds error instead of returning an error.  On the same file the
    positioned-read variant's [FindNext] returns the section and [nil]
    without looking at the file's length, and its [Data], when the record
    announces at least one byte, returns [io.EOF], the value for a key that
    is absent, together with a buffer of the announced length. *)
Theorem data_past_end_of_file (data key : list byte)
    (ms ms' : Mmap.Context) (ml : list event) (rs : Reader.Context) :
  len key < 2 ^ 32 -> len data < 2 ^ 32 -> sim ms rs ->
  let cm := {| Mmap.mmappedData := data |} in
  let cr := Reader.New (Reader.fileReader data) in
  Mmap.find cm key ms = (ms', ml, Next nil_error) ->
  ~ readable data (Mmap.dpos ms') (Mmap.dlen ms') ->
  let crash := (ms', ml ++ [(Mmap.dpos ms', Mmap.dlen ms')],
                Panic (A := list byte * error) boundsError) in
  Mmap.FindNext cm key ms = crash
  /\ (Mmap.loop ms = 0 ->
      Mmap.Find cm key ms = crash /\ Mmap.Data cm key ms = crash)
  /\ exists rs' rl,
       Reader.core rs' = ms'
       /\ Reader.FindNext cr key rs
          = (rs', rl, Next (Some {| Reader.off := Mmap.dpos ms';
                                    Reader.n := Mmap.dlen ms' |}, nil_error))
       /\ (Mmap.loop ms = 0 -> 0 < Mmap.dlen ms' ->
           exists d,
             Reader.Data cr key rs
             = (rs', rl ++ [(Mmap.dpos ms', Mmap.dlen ms')], Next (d, io_EOF))
             /\ len d = Mmap.dlen ms').
Proof.
  intros Hkey Hd Hsim cm cr E Hnr crash.
  assert (Hw : Mmap.wf ms) by (destruct Hsim as (_ & _ & Hw); exact Hw).
  pose proof (mmap_find_wf cm key ms Hw) as Hw'. rewrite E in Hw'.
  cbn [fst] in Hw'.
  pose proof (mmap_FindNext_crash cm key ms ms' ml E Hw' Hnr) as EF.
  split; [exact EF|]. split.
  { intros Hz. rewrite mmap_Find_FindNext, mmap_Data_FindNext.
    rewrite (mmap_set_loop_same ms Hz). split; exact EF. }
  destruct (Equivalence.find_sim data key Hkey ms rs ms' ml nil_error
              Hsim E ltac:(discriminate)) as (rs' & rl & Er & Hsim').
  fold cr in Er. destruct Hsim' as (Hc & _).
  assert (Hdp : Reader.dpos rs' = Mmap.dpos ms') by (rewrite <- Hc; reflexivity).
  assert (Hdl : Reader.dlen rs' = Mmap.dlen ms') by (rewrite <- Hc; reflexivity).
  exists rs', rl. split; [exact Hc|]. split.
  { rewrite (reader_FindNext_found cr key rs rs' rl Er), Hdp, Hdl.
    reflexivity. }
  intros Hz Hpos.
  assert (Hzr : Reader.loop rs = 0).
  { destruct Hsim as (Hcs & _). rewrite <- Hcs in Hz. exact Hz. }
  unfold Reader.Data, Reader.FindStart. rewrite run_modify.
  rewrite (reader_set_loop_same rs Hzr).
  rewrite (bind_Next _ _ _ _ _ _ Er). cbn [negb error_eqb].
  unfold bind, get, Reader.read. rewrite ReaderFacts.ReadAt_run.
  rewrite Hdp, Hdl.
  assert (Hl : length (repeat x00 (Z.to_nat (Mmap.dlen ms')))
               = Z.to_nat (Mmap.dlen ms')) by apply repeat_length.
  assert (Hlen : len (repeat x00 (Z.to_nat (Mmap.dlen ms')))
                 = Mmap.dlen ms') by (unfold len; rewrite Hl; lia).
  rewrite Hl, Hlen. unfold cr at 2. cbn [Reader.r Reader.New].
  rewrite (ReaderFacts.fileReader_EOF data (Mmap.dpos ms') (Mmap.dlen ms')).
  - eexists. split; [reflexivity|].
    unfold len. rewrite ReaderFacts.length_filled, Hl. lia.
  - unfold Mmap.wf, u32 in Hw'. lia.
  - exact Hpos.
  - apply file_unreadable; [exact Hd| | |exact Hnr];
      unfold Mmap.wf, u32 in Hw'; lia.
Qed.

Lemma data_past_end_of_file_witness :
  Mmap.FindNext {| Mmap.mmappedData := db_trunc |} key_a Mmap.NewContext
  = (Mmap.found 2056 1 100
       (Mmap.start 177604 2048 1 Mmap.NewContext),
     [(1568, 8); (2048, 8); (2056, 8); (2064, 1)] ++ [(2065, 100)],
     Panic boundsError).
Proof.
  refine (proj1 (data_past_end_of_file db_trunc key_a Mmap.NewContext
                   (Mmap.found 2056 1 100
                      (Mmap.start 177604 2048 1 Mmap.NewContext))
                   [(1568, 8); (2048, 8); (2056, 8); (2064, 1)]
                   Reader.NewContext _ _ _ _ _)).
  - vm_compute. reflexivity.
  - vm_compute. reflexivity.
  - split; [reflexivity|]. split; [vm_compute; lia|].
    vm_compute. intuition discriminate.
  - vm_compute. reflexivity.
  - vm_compute. intuition discriminate.
Defined.

(** X6: the positioned-read variant needs the buffer [NewContext] makes.
    With a context whose buffer has fewer than 8 bytes, the zero value of
    [Context] among them, [context.buf[:8]] panics in [readNums] before
    anything is read: [Find] and [Data] return the bounds error whatever
    the database and the key, with no access to the storage, and so does a
    step that has a slot left to visit. *)
Theorem short_buffer_is_a_bounds_error (c : Reader.Cdb) (key : list byte)
    (s : Reader.Context) :
  (length (Reader.buf s) < 8)%nat ->
  Reader.Find c key s = (Reader.set_loop 0 s, [], Next (None, boundsError))
  /\ Reader.Data c key s = (Reader.set_loop 0 s, [], Next ([], boundsError))
  /\ (Reader.loop s = 0 \/ Reader.loop s < Reader.hslots s ->
      Reader.find c key s = (s, [], Next boundsError)).
Proof.
  intros Hb.
  assert (Hfirst : forall x, (length (Reader.buf x) < 8)%nat ->
            Reader.loop x = 0 ->
            Reader.find c key x = (x, [], Next boundsError)).
  { intros x Hx Hz. rewrite ReaderFind.step_first by exact Hz.
    unfold recover.
    assert (Hi : Reader.find_init c key x = (x, [], Panic boundsError)).
    { unfold Reader.find_init. apply bind_Panic.
      apply ReaderFacts.readNums_short. exact Hx. }
    rewrite (bind_Panic _ _ _ _ _ _ Hi). reflexivity. }
  assert (H0 : Reader.find c key (Reader.set_loop 0 s)
               = (Reader.set_loop 0 s, [], Next boundsError))
    by (apply Hfirst; [exact Hb|reflexivity]).
  split; [|split].
  - rewrite reader_Find_FindNext.
    apply (reader_FindNext_miss c key _ _ [] boundsError H0). discriminate.
  - apply (reader_Data_miss c key s _ [] boundsError H0). discriminate.
  - intros [Hz|Hlt]; [apply Hfirst; assumption|].
    destruct (Z.eq_dec (Reader.loop s) 0) as [Hz|Hz];
      [apply Hfirst; assumption|].
    rewrite Steps.reader_resume by exact Hz.
    assert (Hbody : Reader.find_body c key s = (s, [], Panic boundsError)).
    { unfold Reader.find_body. unfold bind at 1. unfold get at 1.
      rewrite (bind_Panic _ _ _ _ _ _
                 (ReaderFacts.readNums_short c (Reader.kpos s) s Hb)).
      reflexivity. }
    rewrite (ReaderFind.loop_one_turn c key s s [] (Panic boundsError)).
    + reflexivity.
    + unfold Reader.find_cond. apply Z.ltb_lt. exact Hlt.
    + exact Hbody.
    + intros u. discriminate.
Qed.

Lemma short_buffer_is_a_bounds_error_witness :
  Reader.Find (Reader.New (Reader.fileReader db_dup)) key_a zero_Context
  = (Reader.set_loop 0 zero_Context, [], Next (None, boundsError))
  /\ Reader.Data (Reader.New (Reader.fileReader db_dup)) key_a zero_Context
     = (Reader.set_loop 0 zero_Context, [], Next ([], boundsError))
  /\ (Reader.loop zero_Context = 0
      \/ Reader.loop zero_Context < Reader.hslots zero_Context ->
      Reader.find (Reader.New (Reader.fileReader db_dup)) key_a zero_Context
      = (zero_Context, [], Next boundsError)).
Proof.
  apply (short_buffer_is_a_bounds_error
           (Reader.New (Reader.fileReader db_dup)) key_a zero_Context).
  vm_compute. lia.
Defined.

(** X7: [match] of the positioned-read variant compares the key in chunks
    of the size of the context's buffer, [match] of the memory-mapped
    variant in one piece.  On a file shorter than 2^32 bytes, from a
    position inside the file and with a buffer of at least one byte, the
    chunked comparison answers true exactly when the file holds the whole
    key at that position; when the key's bytes lie in the file the two
    variants give the same answer whatever the buffer's size, and an empty
    key matches without a read. *)
Theorem match_compares_the_whole_key (data key : list byte) (pos : Z)
    (ms : Mmap.Context) (rs : Reader.Context) :
  len data < 2 ^ 32 -> len key < 2 ^ 32 ->
  (1 <= length (Reader.buf rs))%nat -> 0 <= pos <= len data ->
  let cm := {| Mmap.mmappedData := data |} in
  let cr := Reader.New (Reader.fileReader data) in
  (snd (Reader.match_ cr key pos rs) = Next true
   <-> readable data pos (len key) /\ bytes_at data pos (len key) = key)
  /\ (readable data pos (len key) ->
      snd (Reader.match_ cr key pos rs) = snd (Mmap.match_ cm key pos ms))
  /\ (key = [] -> Reader.match_ cr key pos rs = (rs, [], Next true)).
Proof.
  intros Hd Hkey Hb Hp cm cr.
  assert (Hfile : readable data pos (len key) ->
            snd (Reader.match_ cr key pos rs)
            = Next (bytes_Equal (bytes_at data pos (len key)) key)).
  { intros Hr.
    destruct (ReaderMatch.match_file data key pos rs Hb Hr)
      as (b & l & E & _).
    fold cr in E. rewrite E. reflexivity. }
  split; [|split].
  - split.
    + intros H.
      destruct (Simulation.readable_dec data pos (len key)) as [Hr|Hr].
      * split; [exact Hr|]. rewrite (Hfile Hr) in H.
        apply bytes_Equal_eq. congruence.
      * exfalso. revert H. apply match_past_EOF; auto.
        apply file_unreadable; [exact Hd|lia|unfold len; lia|exact Hr].
    + intros [Hr Hk]. rewrite (Hfile Hr), Hk, bytes_Equal_refl. reflexivity.
  - intros Hr. rewrite (Hfile Hr).
    unfold cm.
    rewrite (MmapFacts.match_ok {| Mmap.mmappedData := data |} key pos ms
               Hkey Hr).
    reflexivity.
  - intros ->. reflexivity.
Qed.

Lemma match_compares_the_whole_key_witness :
  snd (Reader.match_ (Reader.New (Reader.fileReader db_chunk)) key65 2072
                     Reader.NewContext) = Next true
  <-> readable db_chunk 2072 (len key65)
      /\ bytes_at db_chunk 2072 (len key65) = key65.
Proof.
  refine (proj1 (match_compares_the_whole_key db_chunk key65 2072
                   Mmap.NewContext Reader.NewContext _ _ _ _)).
  - vm_compute. reflexivity.
  - vm_compute. reflexivity.
  - vm_compute. lia.
  - vm_compute. intuition discriminate.
Defined.

(** ** A context carries nothing over to a new search *)

Lemma same_probe_eq (a b : Mmap.Context) :
  same_probe a b -> Mmap.dpos a = Mmap.dpos b -> Mmap.dlen a = Mmap.dlen b ->
  a = b.
Proof.
  destruct a, b. unfold same_probe. cbn.
  intros (-> & -> & -> & -> & ->) -> ->. reflexivity.
Qed.

Lemma agree_bind {A B} (R1 R Q : Mmap.Context -> Mmap.Context -> Prop)
    (m1 m2 : M Mmap.Context A) (k1 k2 : A -> M Mmap.Context B) a b :
  agree R1 Q (m1 a) (m2 b) ->
  (forall v a1 b1, R1 a1 b1 -> agree R Q (k1 v a1) (k2 v b1)) ->
  agree R Q (bind m1 k1 a) (bind m2 k2 b).
Proof.
  unfold agree, bind. intros H Hk.
  destruct (m1 a) as [[a1 la1] ra1], (m2 b) as [[b1 lb1] rb1].
  destruct H as (-> & -> & HN & HR).
  destruct rb1 as [v|e|e|].
  - specialize (Hk v a1 b1 (HN v eq_refl)).
    destruct (k1 v a1) as [[a2 la2] ra2], (k2 v b1) as [[b2 lb2] rb2].
    destruct Hk as (-> & -> & HN2 & HR2). auto.
  - split; [reflexivity|]. split; [reflexivity|].
    split; [intros; discriminate|].
    intros He. apply HR. injection He as ->. reflexivity.
  - split; [reflexivity|]. split; [reflexivity|].
    split; intros; discriminate.
  - split; [reflexivity|]. split; [reflexivity|].
    split; intros; discriminate.
Qed.

Lemma run_get {B} (k : Mmap.Context -> M Mmap.Context B) s :
  bind get k s = k s s.
Proof.
  unfold bind, get. destruct (k s s) as [[s2 l2] r2]. reflexivity.
Qed.

Lemma run_ret {A B} (v : A) (k : A -> M Mmap.Context B) s :
  bind (ret v) k s = k v s.
Proof.
  unfold bind, ret. destruct (k v s) as [[s2 l2] r2]. reflexivity.
Qed.

Lemma agree_ret {A} (R Q : Mmap.Context -> Mmap.Context -> Prop) (v : A) a b :
  R a b -> agree R Q (ret v a) (ret v b).
Proof.
  intros H. unfold agree, ret. split; [reflexivity|]. split; [reflexivity|].
  split; [auto|intros; discriminate].
Qed.

(** The reads leave the context alone and do not look at it. *)
Lemma agree_slice (R Q : Mmap.Context -> Mmap.Context -> Prop)
    (c : Mmap.Cdb) (lo n : Z) a b :
  R a b -> agree R Q (Mmap.slice c lo n a) (Mmap.slice c lo n b).
Proof.
  intros H. unfold agree, Mmap.slice, bind, access, ret, panic.
  destruct (_ && _); (split; [reflexivity|]); (split; [reflexivity|]);
    (split; [auto|intros; discriminate]).
Qed.

Lemma agree_readNums (R Q : Mmap.Context -> Mmap.Context -> Prop)
    (c : Mmap.Cdb) (pos : Z) a b :
  R a b -> agree R Q (Mmap.readNums c pos a) (Mmap.readNums c pos b).
Proof.
  intros H. unfold Mmap.readNums. apply (agree_bind R).
  - apply agree_slice. exact H.
  - intros v a1 b1 H1. apply agree_ret. exact H1.
Qed.

Lemma agree_match (R Q : Mmap.Context -> Mmap.Context -> Prop)
    (c : Mmap.Cdb) (key : list byte) (pos : Z) a b :
  R a b -> agree R Q (Mmap.match_ c key pos a) (Mmap.match_ c key pos b).
Proof.
  intros H. unfold Mmap.match_. apply (agree_bind R).
  - apply agree_slice. exact H.
  - intros v a1 b1 H1. apply agree_ret. exact H1.
Qed.

Lemma same_probe_advance (a b : Mmap.Context) :
  same_probe a b -> same_probe (Mmap.advance a) (Mmap.advance b).
Proof.
  intros (E1 & E2 & E3 & E4 & E5). unfold same_probe.
  rewrite !MmapBody.loop_advance, !MmapBody.khash_advance,
    !MmapBody.kpos_advance, !MmapBody.hpos_advance, !MmapBody.hslots_advance.
  rewrite E1, E2, E3, E4, E5. auto.
Qed.

(** The check of a record reads neither [dpos] nor [dlen]. *)
Lemma agree_record (c : Mmap.Cdb) (key : list byte) (h pos : Z) a b :
  same_probe a b ->
  agree same_probe eq (Mmap.find_record c key h pos a)
        (Mmap.find_record c key h pos b).
Proof.
  intros Hab. unfold Mmap.find_record. rewrite !run_get.
  pose proof Hab as (_ & -> & _).
  destruct (h =? Mmap.khash b); [|apply agree_ret; exact Hab].
  apply (agree_bind same_probe); [apply agree_readNums; exact Hab|].
  intros [rklen rdlen] a1 b1 H1.
  destruct (rklen =? wrap32 (len key)); [|apply agree_ret; exact H1].
  apply (agree_bind same_probe); [apply agree_match; exact H1|].
  intros m a2 b2 H2. destruct m; [|apply agree_ret; exact H2].
  cbv beta iota. rewrite !run_modify.
  unfold agree, return_. split; [reflexivity|]. split; [reflexivity|].
  split; [intros; discriminate|]. intros _.
  apply same_probe_eq; [|reflexivity|reflexivity].
  destruct H2 as (E1 & E2 & E3 & E4 & E5). unfold same_probe. cbn. auto.
Qed.

(** A turn of the loop reads neither [dpos] nor [dlen]. *)
Lemma mmap_body_same_probe (c : Mmap.Cdb) (key : list byte)
    (a b : Mmap.Context) :
  same_probe a b ->
  agree same_probe eq (Mmap.find_body c key a) (Mmap.find_body c key b).
Proof.
  intros Hab. unfold Mmap.find_body. rewrite !run_get.
  pose proof Hab as (_ & _ & -> & _).
  apply (agree_bind same_probe); [apply agree_readNums; exact Hab|].
  intros [h pos] a1 b1 H1.
  destruct (pos =? 0).
  { unfold agree, return_. split; [reflexivity|]. split; [reflexivity|].
    split; intros; discriminate. }
  rewrite !run_modify, !run_get.
  pose proof (agree_record c key h pos _ _ (same_probe_advance a1 b1 H1))
    as Hrec.
  unfold Mmap.advance in Hrec.
  destruct H1 as (E1 & E2 & E3 & E4 & E5).
  cbn [Mmap.loop Mmap.khash Mmap.kpos Mmap.hpos Mmap.hslots
       Mmap.set_loop Mmap.set_kpos] in Hrec |- *.
  rewrite E1, E3, E4, E5 in Hrec |- *.
  destruct (_ =? _).
  - rewrite !run_modify. exact Hrec.
  - rewrite !run_ret. exact Hrec.
Qed.

Lemma mmap_for_same_probe (c : Mmap.Cdb) (key : list byte) :
  forall fuel a b,
    same_probe a b ->
    let '(a', la, ra) := for_ fuel Mmap.find_cond (Mmap.find_body c key) a in
    let '(b', lb, rb) := for_ fuel Mmap.find_cond (Mmap.find_body c key) b in
    la = lb /\ ra = rb /\ (ra = Return nil_error -> a' = b').
Proof.
  induction fuel as [|fuel IH]; intros a b Hab.
  - simpl. unfold Mmap.find_cond.
    destruct Hab as (-> & _ & _ & _ & ->).
    destruct (_ <? _); (split; [reflexivity|split; [reflexivity|]]);
      intros; discriminate.
  - simpl. unfold Mmap.find_cond at 1 3.
    pose proof Hab as (E1 & _ & _ & _ & E2). rewrite E1, E2.
    destruct (_ <? _);
      [|split; [reflexivity|split; [reflexivity|]]; intros; discriminate].
    unfold bind. pose proof (mmap_body_same_probe c key a b Hab) as Hb.
    unfold agree in Hb.
    destruct (Mmap.find_body c key a) as [[a1 la1] ra1].
    destruct (Mmap.find_body c key b) as [[b1 lb1] rb1].
    destruct Hb as (-> & -> & Hs & Hf).
    destruct rb1 as [[]|e|e|].
    + specialize (IH a1 b1 (Hs tt eq_refl)).
      destruct (for_ fuel _ _ a1) as [[a2 la2] ra2].
      destruct (for_ fuel _ _ b1) as [[b2 lb2] rb2].
      destruct IH as (-> & -> & IH). auto.
    + auto.
    + split; [reflexivity|]. split; [reflexivity|]. intros; discriminate.
    + split; [reflexivity|]. split; [reflexivity|]. intros; discriminate.
Qed.

Lemma mmap_loop_same_probe (c : Mmap.Cdb) (key : list byte)
    (a b : Mmap.Context) :
  same_probe a b ->
  let '(a', la, ra) := Mmap.find_loop c key a in
  let '(b', lb, rb) := Mmap.find_loop c key b in
  la = lb /\ ra = rb /\ (ra = Return nil_error -> a' = b').
Proof.
  intros Hab. unfold Mmap.find_loop, bind, get.
  pose proof Hab as (E1 & _ & _ & _ & E2). rewrite E1, E2.
  pose proof (mmap_for_same_probe c key
                (Z.to_nat (Mmap.hslots b - Mmap.loop b)) a b Hab) as H.
  destruct (for_ _ _ _ a) as [[a2 la2] ra2].
  destruct (for_ _ _ _ b) as [[b2 lb2] rb2].
  exact H.
Qed.

(** A first step gives the same error and makes the same accesses whatever
    the context held, and when it finds a record it leaves the same
    context. *)
Lemma mmap_first_step_forgets (c : Mmap.Cdb) (key : list byte)
    (a b : Mmap.Context) :
  Mmap.loop a = 0 -> Mmap.loop b = 0 ->
  let '(a', la, ra) := Mmap.find c key a in
  let '(b', lb, rb) := Mmap.find c key b in
  la = lb /\ ra = rb /\ (ra = Next nil_error -> a' = b').
Proof.
  intros Ha Hb. set (off := Z.land (shl32 (checksum key) 3) 2047).
  destruct (Simulation.readable_dec (Mmap.mmappedData c) off 8) as [Hr|Hr].
  2:{ rewrite !MmapFind.find_first by assumption. unfold recover.
      rewrite (bind_Panic _ _ _ _ _ _ (MmapFind.init_unreadable c key a Hr)).
      rewrite (bind_Panic _ _ _ _ _ _ (MmapFind.init_unreadable c key b Hr)).
      split; [reflexivity|]. split; [reflexivity|]. intros; discriminate. }
  destruct (nums_at (Mmap.mmappedData c) off) as [p n] eqn:Hn.
  destruct (Z.eq_dec n 0) as [->|Hz].
  { rewrite !MmapFind.find_first by assumption. unfold recover.
    rewrite (bind_Return _ _ _ _ _ _ (MmapFind.init_run c key a p 0 Hr Hn)).
    rewrite (bind_Return _ _ _ _ _ _ (MmapFind.init_run c key b p 0 Hr Hn)).
    split; [reflexivity|]. split; [reflexivity|]. intros; discriminate. }
  rewrite (Steps.mmap_started c key a p n Ha Hr Hn Hz).
  rewrite (Steps.mmap_started c key b p n Hb Hr Hn Hz).
  assert (Hs : same_probe (Mmap.start (checksum key) p n a)
                          (Mmap.start (checksum key) p n b)).
  { unfold same_probe, Mmap.start, Mmap.bucket.
    cbn [Mmap.loop Mmap.khash Mmap.kpos Mmap.hpos Mmap.hslots
         Mmap.set_khash Mmap.set_kpos Mmap.set_hpos Mmap.set_hslots].
    rewrite Ha, Hb. auto. }
  pose proof (mmap_loop_same_probe c key _ _ Hs) as H.
  pose proof (MmapLoop.body_shape c key) as Hshape.
  destruct (Mmap.find_loop c key (Mmap.start (checksum key) p n a))
    as [[a2 la2] ra2] eqn:Ea.
  destruct (Mmap.find_loop c key (Mmap.start (checksum key) p n b))
    as [[b2 lb2] rb2].
  destruct H as (-> & -> & H). split; [reflexivity|]. split; [reflexivity|].
  intros Hc. apply H.
  destruct rb2 as [[]|e|e|]; cbn [close] in Hc; try discriminate.
  - congruence.
  - exfalso. injection Hc as ->.
    unfold Mmap.find_loop in Ea. apply Equivalence.bind_Panic_inv in Ea.
    destruct Ea as [[l7 Ea]|(a' & s3 & l7 & l8 & _ & Ea)]; [discriminate|].
    apply Equivalence.for_Panic_inv in Ea. destruct Ea as (s0 & l0 & Ea).
    specialize (Hshape s0). rewrite Ea in Hshape.
    destruct Hshape as [[_ [Hr'|Hr']]|[[_ [Hr'|Hr']]|(dp & dl & _ & Hr' & _)]];
      congruence.
Qed.

Lemma mmap_FindNext_forgets (c : Mmap.Cdb) (key : list byte)
    (a b : Mmap.Context) :
  Mmap.loop a = 0 -> Mmap.loop b = 0 ->
  snd (Mmap.FindNext c key a) = snd (Mmap.FindNext c key b)
  /\ snd (fst (Mmap.FindNext c key a)) = snd (fst (Mmap.FindNext c key b))
  /\ (forall d, snd (Mmap.FindNext c key a) = Next (d, nil_error) ->
        fst (fst (Mmap.FindNext c key a)) = fst (fst (Mmap.FindNext c key b))).
Proof.
  intros Ha Hb. pose proof (mmap_first_step_forgets c key a b Ha Hb) as H.
  set (K := fun err : error =>
              if negb (error_eqb err nil_error)
              then ret (S := Mmap.Context) ([] : list byte, err)
              else context <- get ;;
                   d <- Mmap.slice c (Mmap.dpos context) (Mmap.dlen context) ;;
                   ret (d, nil_error)).
  assert (HF : forall x, Mmap.FindNext c key x = bind (Mmap.find c key) K x)
    by reflexivity.
  rewrite !HF. unfold bind.
  destruct (Mmap.find c key a) as [[a' la] ra].
  destruct (Mmap.find c key b) as [[b' lb] rb].
  destruct H as (-> & -> & H).
  destruct rb as [e|e|e|]; cbn [fst snd];
    try (split; [reflexivity|]; split; [reflexivity|];
         intros; discriminate).
  destruct (error_eqb e nil_error) eqn:Ee.
  - apply error_eqb_nil in Ee. subst e. rewrite (H eq_refl).
    destruct (K nil_error b') as [[s3 l3] r3]. cbn [fst snd]. auto.
  - unfold K. rewrite Ee. cbn [negb]. unfold ret. cbn [fst snd].
    split; [reflexivity|]. split; [reflexivity|].
    intros d Hd. injection Hd as _ ->. discriminate.
Qed.

(** X8: a context carries nothing over to a new search.  [Find] and [Data]
    of the memory-mapped variant reset [loop] and the first step writes
    every field it later reads, so their result (data and error, or the
    panic) and the accesses they make are the same whatever context they
    are given, and when they return data the context they leave is the
    same as well. *)
Theorem Find_forgets_the_context (c : Mmap.Cdb) (key : list byte)
    (s1 s2 : Mmap.Context) :
  snd (Mmap.Find c key s1) = snd (Mmap.Find c key s2)
  /\ snd (fst (Mmap.Find c key s1)) = snd (fst (Mmap.Find c key s2))
  /\ snd (Mmap.Data c key s1) = snd (Mmap.Data c key s2)
  /\ snd (fst (Mmap.Data c key s1)) = snd (fst (Mmap.Data c key s2))
  /\ (forall d, snd (Mmap.Find c key s1) = Next (d, nil_error) ->
        fst (fst (Mmap.Find c key s1)) = fst (fst (Mmap.Find c key s2))).
Proof.
  destruct (mmap_FindNext_forgets c key (Mmap.set_loop 0 s1)
              (Mmap.set_loop 0 s2) eq_refl eq_refl) as (H1 & H2 & H3).
  rewrite (mmap_Data_FindNext c key s1), (mmap_Data_FindNext c key s2).
  rewrite (mmap_Find_FindNext c key s1), (mmap_Find_FindNext c key s2).
  auto.
Qed.

(** ** The errors a step can return *)

(** A panic out of a [for] is the panic of one of its turns, taken in a
    state the loop's invariant holds of. *)
Lemma for_Panic_inv_at {S} (I : S -> Prop) (cond : S -> bool)
    (body : M S unit) :
  (forall s, I s -> cond s = true -> I (fst (fst (body s)))) ->
  forall fuel s s' l e,
    I s -> for_ fuel cond body s = (s', l, Panic e) ->
    exists s0 l0, I s0 /\ body s0 = (s', l0, Panic e).
Proof.
  intros Hinv. induction fuel as [|fuel IH]; intros s s' l e HI H; simpl in H.
  - destruct (cond s); discriminate.
  - destruct (cond s) eqn:Hc; [|discriminate].
    apply Equivalence.bind_Panic_inv in H.
    destruct H as [[l1 H]|(a & s1 & l1 & l2 & Hb & H)]; [eauto|].
    apply (IH s1 s' l2 e); [|exact H].
    specialize (Hinv s HI Hc). rewrite Hb in Hinv. exact Hinv.
Qed.

Lemma reader_readNums_reported (c : Reader.Cdb) (pos : Z) s s' l e :
  (8 <= length (Reader.buf s))%nat ->
  Reader.readNums c pos s = (s', l, Panic e) ->
  exists n p, snd (Reader.r c n p) = e.
Proof.
  intros Hb. rewrite (ReaderFacts.readNums_run c pos s Hb). cbv zeta.
  destruct (negb (error_eqb (snd (Reader.r c 8%nat pos)) nil_error));
    intros H; [|discriminate].
  injection H as _ _ <-. eauto.
Qed.

Lemma reader_match_loop_reported (c : Reader.Cdb) (key : list byte) :
  forall fuel n blen pos s s' l e,
    Reader.match_loop fuel c key n blen pos s = (s', l, Panic e) ->
    exists m p, snd (Reader.r c m p) = e.
Proof.
  induction fuel as [|fuel IH]; intros n blen pos s s' l e H.
  - simpl in H. destruct (n <? length key)%nat; discriminate.
  - destruct (Nat.ltb_spec n (length key)) as [Hn|Hn].
    + rewrite ReaderMatch.match_loop_turn in H by exact Hn. cbv zeta in H.
      destruct (negb (error_eqb _ nil_error)).
      { injection H as _ _ <-. eauto. }
      destruct (negb (bytes_Equal _ _)); [discriminate|].
      match type of H with
      | context [Reader.match_loop fuel c key ?a ?b ?p ?x] =>
          specialize (IH a b p x);
          destruct (Reader.match_loop fuel c key a b p x) as [[s2 l2] r2]
      end.
      injection H as _ _ ->. apply (IH _ _ _ eq_refl).
    + simpl in H.
      replace (n <? length key)%nat with false in H
        by (symmetry; apply Nat.ltb_ge; lia).
      discriminate.
Qed.

Lemma reader_body_reported (c : Reader.Cdb) (key : list byte) s s' l e :
  (8 <= length (Reader.buf s))%nat ->
  Reader.find_body c key s = (s', l, Panic e) ->
  exists n p, snd (Reader.r c n p) = e.
Proof.
  intros Hb H. rewrite ReaderBody.body_unfold in H by exact Hb.
  cbv zeta in H.
  destruct (negb (error_eqb _ nil_error)).
  { injection H as _ _ <-. eauto. }
  destruct (_ =? 0); [discriminate|].
  match type of H with
  | context [Reader.find_record c key ?h ?p ?x] =>
      assert (Hbx : (8 <= length (Reader.buf x))%nat)
        by (rewrite ReaderBody.buf_advance; cbn [Reader.buf Reader.set_buf];
            rewrite ReaderFacts.length_nums_buf by exact Hb; exact Hb);
      rewrite (ReaderBody.record_unfold c key h p x Hbx) in H
  end.
  destruct (_ =? Reader.khash _); [|discriminate].
  cbv zeta in H.
  destruct (negb (error_eqb _ nil_error)).
  { injection H as _ _ <-. eauto. }
  destruct (_ =? wrap32 (len key)); [|discriminate].
  match type of H with
  | context [Reader.match_ c key ?p ?x] =>
      destruct (Reader.match_ c key p x) as [[s2 l2] r2] eqn:Em
  end.
  destruct r2 as [[|]|e2|e2|]; try discriminate.
  injection H as _ _ ->.
  unfold Reader.match_ in Em. apply Equivalence.bind_Panic_inv in Em.
  destruct Em as [[l7 Em]|(a' & s4 & l7 & l8 & _ & Em)]; [discriminate|].
  apply (reader_match_loop_reported _ _ _ _ _ _ _ _ _ _ Em).
Qed.

Lemma reader_init_reported (c : Reader.Cdb) (key : list byte) s s' l e :
  (8 <= length (Reader.buf s))%nat ->
  Reader.find_init c key s = (s', l, Panic e) ->
  exists n p, snd (Reader.r c n p) = e.
Proof.
  intros Hb H. rewrite ReaderFind.init_unfold in H by exact Hb.
  cbv zeta in H.
  destruct (negb (error_eqb _ nil_error)).
  { injection H as _ _ <-. eauto. }
  destruct (_ =? 0); discriminate.
Qed.

(** What the statements of a step can end with: [return nil],
    [return io.EOF], or a panic with an error a read has reported. *)
Lemma reader_inner_ends (c : Reader.Cdb) (key : list byte) s s' l r :
  (8 <= length (Reader.buf s))%nat ->
  (context <- get ;;
   (if Reader.loop context =? 0 then Reader.find_init c key else ret tt) ;;
   Reader.find_loop c key ;; return_ (A := error) io_EOF) s = (s', l, r) ->
  r = Return nil_error \/ r = Return io_EOF \/ r = Fuel
  \/ exists e, r = Panic e /\ e <> nil_error
               /\ exists n p, snd (Reader.r c n p) = e.
Proof.
  intros Hb H. destruct r as [v|e|e|].
  - exfalso. apply bind_Next_inv in H.
    destruct H as (a & x1 & k1 & k2 & _ & H).
    apply bind_Next_inv in H. destruct H as (a2 & x2 & k3 & k4 & _ & H).
    apply bind_Next_inv in H. destruct H as (a3 & x3 & k5 & k6 & _ & H).
    discriminate.
  - apply bind_Return_inv in H.
    destruct H as [[k1 H]|(a & x1 & k1 & k2 & Hg & H)]; [discriminate|].
    unfold get in Hg. injection Hg as <- <- <-.
    apply bind_Return_inv in H.
    destruct H as [[k3 H]|(a2 & x2 & k3 & k4 & Hi & H)].
    { destruct (Reader.loop s =? 0); [|discriminate].
      pose proof (Termination.reader_init_shape c key s) as Hs.
      rewrite H in Hs.
      destruct Hs as [_ [[_ [e' Hr]]|[(p & _ & _ & Hr)
                                     |(p & n & _ & _ & _ & _ & Hr)]]];
        try discriminate.
      injection Hr as ->. auto. }
    apply bind_Return_inv in H.
    destruct H as [[k5 H]|(a3 & x3 & k5 & k6 & _ & H)].
    2:{ injection H as _ _ <-. auto. }
    unfold Reader.find_loop in H. apply bind_Return_inv in H.
    destruct H as [[k7 H]|(a4 & x4 & k7 & k8 & _ & H)]; [discriminate|].
    apply (for_Return_inv (fun _ => True)) in H; auto.
    destruct H as (s0 & l0 & _ & _ & H).
    pose proof (ReaderBody.turn_shape c key s0) as Hs. rewrite H in Hs.
    destruct Hs as [_ [[_ [[e' Hr]|Hr]]
                      |[[_ [Hr|[e' Hr]]]|(dp & dl & _ & Hr & _)]]];
      try discriminate; injection Hr as ->; auto.
  - right. right. right. exists e.
    split; [reflexivity|]. split; [apply (reader_panics c key s s' l e H)|].
    apply Equivalence.bind_Panic_inv in H.
    destruct H as [[l1 H]|(a & s1 & l1 & l2 & Hg & H)]; [discriminate|].
    unfold get in Hg. injection Hg as <- <- <-.
    apply Equivalence.bind_Panic_inv in H.
    destruct H as [[l3 H]|(u & s2 & l3 & l4 & Hi & H)].
    { destruct (Reader.loop s =? 0); [|discriminate].
      apply (reader_init_reported c key s s' l3 e Hb H). }
    assert (Hb2 : (8 <= length (Reader.buf s2))%nat).
    { destruct (Reader.loop s =? 0).
      - pose proof (Termination.reader_init_shape c key s) as Hs.
        rewrite Hi in Hs. destruct Hs as [Hl _]. lia.
      - unfold ret in Hi. injection Hi as <- _ _. exact Hb. }
    apply Equivalence.bind_Panic_inv in H.
    destruct H as [[l5 H]|(a' & s3 & l5 & l6 & _ & H)]; [|discriminate].
    unfold Reader.find_loop in H. apply Equivalence.bind_Panic_inv in H.
    destruct H as [[l7 H]|(a' & s3 & l7 & l8 & Hg & H)]; [discriminate|].
    unfold get in Hg. injection Hg as <- <- <-.
    apply (for_Panic_inv_at
             (fun x => (8 <= length (Reader.buf x))%nat)) in H;
      [| |exact Hb2].
    2:{ intros x Hx _.
        destruct (ReaderLoop.turn_frame c key x) as (_ & _ & _ & _ & Hl & _).
        lia. }
    destruct H as (s0 & l0 & Hb0 & H).
    apply (reader_body_reported c key s0 s' l0 e Hb0 H).
  - auto.
Qed.

Lemma fileReader_error (data : list byte) (n : nat) (pos : Z) :
  snd (Reader.fileReader data n pos) = nil_error
  \/ snd (Reader.fileReader data n pos) = io_EOF.
Proof.
  unfold Reader.fileReader. cbn [snd]. destruct (_ <? _)%nat; auto.
Qed.

(** X9: the error values a step can return.  The memory-mapped variant
    returns [nil], [io.EOF] or the bounds error of a slice out of range.
    The positioned-read variant, given a context with a buffer of at least
    8 bytes, returns [nil], [io.EOF] or an error that a read of its reader
    has reported; on a file, whose reads report nothing but [io.EOF], that
    leaves [nil] and [io.EOF]: a read past the end of a damaged database is
    never told apart from a key that is absent. *)
Theorem errors_a_step_returns :
  (forall cm key ms e,
     snd (Mmap.find cm key ms) = Next e ->
     e = nil_error \/ e = io_EOF \/ e = boundsError)
  /\ (forall cr key rs e,
        (8 <= length (Reader.buf rs))%nat ->
        snd (Reader.find cr key rs) = Next e ->
        e = nil_error \/ e = io_EOF
        \/ exists n pos, snd (Reader.r cr n pos) = e)
  /\ (forall data key rs e,
        (8 <= length (Reader.buf rs))%nat ->
        snd (Reader.find (Reader.New (Reader.fileReader data)) key rs)
        = Next e ->
        e = nil_error \/ e = io_EOF).
Proof.
  assert (HR : forall cr key rs e,
            (8 <= length (Reader.buf rs))%nat ->
            snd (Reader.find cr key rs) = Next e ->
            e = nil_error \/ e = io_EOF
            \/ exists n pos, snd (Reader.r cr n pos) = e).
  { intros cr key rs e Hb H. unfold Reader.find, recover in H.
    match type of H with
    | context [bind ?a ?b rs] =>
        destruct (bind a b rs) as [[s1 l1] r1] eqn:E
    end.
    destruct (reader_inner_ends cr key rs s1 l1 r1 Hb E)
      as [->|[->|[->|(e' & -> & _ & Hrep)]]]; cbn [snd] in H;
      try discriminate; injection H as <-; auto. }
  split; [|split].
  - intros cm key ms e H. unfold Mmap.find, recover in H.
    match type of H with
    | context [bind ?a ?b ms] =>
        destruct (bind a b ms) as [[s1 l1] r1] eqn:E
    end.
    destruct r1 as [v|e1|e1|]; cbn [snd] in H; try discriminate;
      injection H as <-.
    + exfalso. apply bind_Next_inv in E.
      destruct E as (a & x1 & k1 & k2 & _ & E).
      apply bind_Next_inv in E. destruct E as (a2 & x2 & k3 & k4 & _ & E).
      apply bind_Next_inv in E. destruct E as (a3 & x3 & k5 & k6 & _ & E).
      discriminate.
    + apply bind_Return_inv in E.
      destruct E as [[k1 E]|(a & x1 & k1 & k2 & Hg & E)]; [discriminate|].
      unfold get in Hg. injection Hg as <- <- <-.
      apply bind_Return_inv in E.
      destruct E as [[k3 E]|(a2 & x2 & k3 & k4 & Hi & E)].
      { destruct (Mmap.loop ms =? 0); [|discriminate].
        pose proof (Termination.mmap_init_shape cm key ms) as Hs.
        rewrite E in Hs.
        destruct Hs as [[_ Hr]|[(p & _ & _ & Hr)
                               |(p & n & _ & _ & _ & _ & Hr)]];
          try discriminate.
        injection Hr as ->. auto. }
      apply bind_Return_inv in E.
      destruct E as [[k5 E]|(a3 & x3 & k5 & k6 & _ & E)].
      2:{ injection E as _ _ <-. auto. }
      unfold Mmap.find_loop in E. apply bind_Return_inv in E.
      destruct E as [[k7 E]|(a4 & x4 & k7 & k8 & _ & E)]; [discriminate|].
      apply (for_Return_inv (fun _ => True)) in E; auto.
      destruct E as (s0 & l0 & _ & _ & E).
      pose proof (MmapLoop.body_shape cm key s0) as Hs. rewrite E in Hs.
      destruct Hs as [[_ [Hr|Hr]]|[[_ [Hr|Hr]]|(dp & dl & _ & Hr & _)]];
        try discriminate; injection Hr as ->; auto.
    + right. right. apply (Equivalence.mmap_panics cm key ms s1 l1 e1 E).
  - exact HR.
  - intros data key rs e Hb H.
    destruct (HR _ key rs e Hb H) as [He|[He|(n & pos & He)]]; auto.
    cbn [Reader.r Reader.New] in He.
    destruct (fileReader_error data n pos) as [Hn|Hn]; rewrite Hn in He; auto.
Qed.

Lemma errors_a_step_returns_witness :
  (boundsError = nil_error \/ boundsError = io_EOF
   \/ boundsError = boundsError)
  /\ (io_EOF = nil_error \/ io_EOF = io_EOF).
Proof.
  split.
  - refine (proj1 errors_a_step_returns
              {| Mmap.mmappedData := db_corrupt |} key_a Mmap.NewContext
              boundsError _).
    vm_compute. reflexivity.
  - refine (proj2 (proj2 errors_a_step_returns) db_corrupt key_a
              Reader.NewContext io_EOF _ _).
    + vm_compute. lia.
    + vm_compute. reflexivity.
Defined.

(** * [FindNext] on a fresh context *)

(** The turns a probe takes leave the table and the hash alone. *)
Lemma probes_to_frame (c : Mmap.Cdb) (key : list byte) (s0 s : Mmap.Context) :
  Mmap.probes_to c key s0 s ->
  Mmap.khash s = Mmap.khash s0 /\ Mmap.hpos s = Mmap.hpos s0
  /\ Mmap.hslots s = Mmap.hslots s0.
Proof.
  induction 1 as [s|s s1 l1 s2 Hc Hb Hp IH]; [auto|].
  pose proof (MmapLoop.body_Next c key s s1 l1 Hb) as ->.
  rewrite MmapBody.khash_advance, MmapBody.hpos_advance,
    MmapBody.hslots_advance in IH.
  exact IH.
Qed.

(** [FindNext] makes the accesses of its step first. *)
Lemma mmap_FindNext_log (c : Mmap.Cdb) (key : list byte) s s1 l1 r1 :
  Mmap.find c key s = (s1, l1, r1) ->
  exists s2 l2 r2, Mmap.FindNext c key s = (s2, l1 ++ l2, r2).
Proof.
  intros H. unfold Mmap.FindNext.
  match goal with
  | |- context [bind (Mmap.find c key) ?k s] => set (K := k)
  end.
  unfold bind. rewrite H.
  destruct r1 as [e|e|e|].
  - destruct (K e s1) as [[s2 l2] r2]. eauto.
  - exists s1, [], (Return e). rewrite app_nil_r. reflexivity.
  - exists s1, [], (Panic e). rewrite app_nil_r. reflexivity.
  - exists s1, [], Fuel. rewrite app_nil_r. reflexivity.
Qed.

Lemma reader_FindNext_log (c : Reader.Cdb) (key : list byte) s s1 l1 r1 :
  Reader.find c key s = (s1, l1, r1) ->
  exists s2 l2 r2, Reader.FindNext c key s = (s2, l1 ++ l2, r2).
Proof.
  intros H. unfold Reader.FindNext.
  match goal with
  | |- context [bind (Reader.find c key) ?k s] => set (K := k)
  end.
  unfold bind. rewrite H.
  destruct r1 as [e|e|e|].
  - destruct (K e s1) as [[s2 l2] r2]. eauto.
  - exists s1, [], (Return e). rewrite app_nil_r. reflexivity.
  - exists s1, [], (Panic e). rewrite app_nil_r. reflexivity.
  - exists s1, [], Fuel. rewrite app_nil_r. reflexivity.
Qed.

(** A first step on a file whose header entry for the key can be read
    begins with the read of that entry, in both variants. *)
Lemma first_step_reads_header (data key : list byte) (p n : Z)
    (ms : Mmap.Context) (rs : Reader.Context) :
  let off := Z.land (checksum key) 255 * 8 in
  Mmap.loop ms = 0 -> Reader.loop rs = 0 ->
  (8 <= length (Reader.buf rs))%nat ->
  readable data off 8 -> nums_at data off = (p, n) ->
  (exists s1 l1 r1,
     Mmap.find {| Mmap.mmappedData := data |} key ms = (s1, (off, 8) :: l1, r1))
  /\ (exists s1 l1 r1,
        Reader.find (Reader.New (Reader.fileReader data)) key rs
        = (s1, (off, 8) :: l1, r1)).
Proof.
  intros off Hm Hr Hb Hro Hn.
  assert (Hoff : Z.land (shl32 (checksum key) 3) 2047 = off)
    by apply header_offset.
  rewrite <- Hoff in Hro, Hn |- *.
  set (cm := {| Mmap.mmappedData := data |}).
  set (cr := Reader.New (Reader.fileReader data)).
  destruct (Z.eq_dec n 0) as [->|Hz]; split.
  - rewrite (MmapFind.find_first cm key ms Hm). unfold recover.
    rewrite (bind_Return _ _ _ _ _ _ (MmapFind.init_run cm key ms p 0 Hro Hn)).
    eauto.
  - rewrite (ReaderFind.step_first cr key rs Hr). unfold recover.
    destruct (Steps.reader_init_file data key rs p 0 Hb Hro Hn)
      as (x & _ & _ & E).
    fold cr in E. cbn [Z.eqb] in E.
    rewrite (bind_Return _ _ _ _ _ _ E). eauto.
  - rewrite (Steps.mmap_started cm key ms p n Hm Hro Hn Hz).
    destruct (Mmap.find_loop cm key _) as [[s2 l2] r2]. eauto.
  - destruct (Steps.reader_started data key rs p n Hb Hr Hro Hn Hz)
      as (x & _ & _ & E).
    fold cr in E. rewrite E.
    destruct (Reader.find_loop cr key _) as [[s2 l2] r2]. eauto.
Qed.

Lemma sim_NewContext : sim Mmap.NewContext Reader.NewContext.
Proof.
  split; [reflexivity|]. split; [vm_compute; lia|].
  unfold Mmap.wf, u32. cbn. lia.
Qed.

(** [FindNext] returns data only after a step that has found a record, and
    then the data the step's context names. *)
Lemma mmap_FindNext_nil_inv (c : Mmap.Cdb) (key : list byte) s s' l d :
  Mmap.wf s ->
  Mmap.FindNext c key s = (s', l, Next (d, nil_error)) ->
  (exists l1, Mmap.find c key s = (s', l1, Next nil_error))
  /\ readable (Mmap.mmappedData c) (Mmap.dpos s') (Mmap.dlen s')
  /\ d = bytes_at (Mmap.mmappedData c) (Mmap.dpos s') (Mmap.dlen s').
Proof.
  intros Hw H.
  pose proof (mmap_find_wf c key s Hw) as Hw1.
  pose proof (Termination.mmap_find_no_Fuel c key s) as Hf.
  destruct (Mmap.find c key s) as [[s1 l1] r1] eqn:E. cbn [fst] in Hw1.
  destruct r1 as [e|e|e|].
  - destruct (error_eqb e nil_error) eqn:Ee.
    + apply error_eqb_nil in Ee. subst e.
      destruct (Simulation.readable_dec (Mmap.mmappedData c) (Mmap.dpos s1)
                  (Mmap.dlen s1)) as [Hr|Hr].
      * rewrite (mmap_FindNext_found c key s s1 l1 E Hr) in H.
        injection H as <- _ <-. eauto.
      * rewrite (mmap_FindNext_crash c key s s1 l1 E Hw1 Hr) in H.
        discriminate.
    + assert (He : e <> nil_error) by (intros ->; discriminate).
      rewrite (mmap_FindNext_miss c key s s1 l1 e E He) in H.
      injection H as _ _ _ Hx. congruence.
  - exfalso. unfold Mmap.FindNext in H.
    rewrite (bind_Return _ _ _ _ _ _ E) in H. discriminate.
  - exfalso. unfold Mmap.FindNext in H.
    rewrite (bind_Panic _ _ _ _ _ _ E) in H. discriminate.
  - exfalso. unfold Mmap.FindNext, bind in H. rewrite E in H. discriminate.
Qed.

Lemma reader_FindNext_nil_inv (c : Reader.Cdb) (key : list byte) s s' l sr :
  Reader.FindNext c key s = (s', l, Next (Some sr, nil_error)) ->
  Reader.find c key s = (s', l, Next nil_error)
  /\ sr = {| Reader.off := Reader.dpos s'; Reader.n := Reader.dlen s' |}.
Proof.
  intros H.
  destruct (Reader.find c key s) as [[s1 l1] r1] eqn:E.
  destruct r1 as [e|e|e|].
  - destruct (error_eqb e nil_error) eqn:Ee.
    + apply error_eqb_nil in Ee. subst e.
      rewrite (reader_FindNext_found c key s s1 l1 E) in H.
      injection H as <- <- <-. auto.
    + assert (He : e <> nil_error) by (intros ->; discriminate).
      rewrite (reader_FindNext_miss c key s s1 l1 e E He) in H.
      discriminate.
  - exfalso. unfold Reader.FindNext in H.
    rewrite (bind_Return _ _ _ _ _ _ E) in H. discriminate.
  - exfalso. unfold Reader.FindNext in H.
    rewrite (bind_Panic _ _ _ _ _ _ E) in H. discriminate.
  - exfalso. unfold Reader.FindNext, bind in H. rewrite E in H. discriminate.
Qed.

(** What a first step does once its probe has come to the slot of [ms]:
    what the loop does from there. *)
Lemma first_step_via (data key : list byte) (p n : Z) (ms s' : Mmap.Context)
    l r :
  len key < 2 ^ 32 ->
  let cm := {| Mmap.mmappedData := data |} in
  let cr := Reader.New (Reader.fileReader data) in
  let off := Z.land (checksum key) 255 * 8 in
  readable data off 8 -> nums_at data off = (p, n) -> n <> 0 ->
  Mmap.probes_to cm key (Mmap.start (checksum key) p n Mmap.NewContext) ms ->
  Mmap.find_loop cm key ms = (s', l, r) ->
  forall e, close r = Next e -> e <> boundsError ->
  (exists l0, Mmap.find cm key Mmap.NewContext = (s', (off, 8) :: l0, Next e))
  /\ exists rs' rl, Reader.find cr key Reader.NewContext = (rs', rl, Next e)
                    /\ sim s' rs'.
Proof.
  intros Hkey cm cr off Hr Hn Hz Hp Hl e Hc He.
  destruct (mmap_started_via cm key Mmap.NewContext ms p n eq_refl Hr Hn Hz Hp
              s' l r Hl) as [l0 E].
  fold off in E. rewrite Hc in E. split; [eauto|].
  apply (Equivalence.find_sim data key Hkey Mmap.NewContext Reader.NewContext
           s' _ e sim_NewContext E He).
Qed.

(** C10: [FindNext] on a context fresh from [NewContext], with no
    [FindStart] and no earlier step, does what [Find] does, on any
    database.  [loop] is 0, so the step is a first step.  On a file whose
    header entry for the key can be read it reads that entry first
    and, when the table is not empty, sets [khash] to that hash and starts
    the probe at the key's own slot.  It then returns the first match, the
    record at the first slot the probe does not go past (and the probe
    never goes past a slot that holds a record of the key), or not found
    ([io.EOF]) at an empty table, at an empty slot, or when every slot has
    been visited; whatever it hands out as found is a record of the key.
    The memory-mapped variant returns the bytes, the positioned-read
    variant the section of the file.  On a context left by an earlier match
    [FindNext] and [Find] differ: in [db_dup] the one returns the second
    record of [a], the other the first. *)
Theorem FindNext_on_new_context (data key : list byte) (p n : Z) :
  len key < 2 ^ 32 ->
  let cm := {| Mmap.mmappedData := data |} in
  let cr := Reader.New (Reader.fileReader data) in
  let off := Z.land (checksum key) 255 * 8 in
  readable data off 8 -> nums_at data off = (p, n) ->
  let s0 := Mmap.start (checksum key) p n Mmap.NewContext in
  (* what [Find] does, on any database: the step is a first step *)
  (forall c k,
     Mmap.FindNext c k Mmap.NewContext = Mmap.Find c k Mmap.NewContext)
  /\ (forall c k,
        Reader.FindNext c k Reader.NewContext
        = Reader.Find c k Reader.NewContext)
  /\ (forall c k,
        Mmap.find c k Mmap.NewContext
        = recover (Mmap.find_init c k ;; Mmap.find_loop c k ;;
                   return_ io_EOF) Mmap.NewContext)
  /\ (forall c k,
        Reader.find c k Reader.NewContext
        = recover (Reader.find_init c k ;; Reader.find_loop c k ;;
                   return_ io_EOF) Reader.NewContext)
  (* the header entry of the key's hash is read first *)
  /\ (exists ms' l r,
        Mmap.FindNext cm key Mmap.NewContext = (ms', (off, 8) :: l, r))
  /\ (exists rs' l r,
        Reader.FindNext cr key Reader.NewContext = (rs', (off, 8) :: l, r))
  (* an empty table: not found *)
  /\ (n = 0 ->
      Mmap.FindNext cm key Mmap.NewContext
      = (Mmap.bucket p 0 Mmap.NewContext, [(off, 8)], Next ([], io_EOF))
      /\ exists rs' rl,
           Reader.FindNext cr key Reader.NewContext
           = (rs', rl, Next (None, io_EOF))
           /\ Reader.core rs' = Mmap.bucket p 0 Mmap.NewContext)
  (* otherwise the probe starts from scratch, with the key's hash *)
  /\ (n <> 0 ->
      Mmap.khash s0 = checksum key /\ Mmap.loop s0 = 0
      /\ Mmap.hpos s0 = p /\ Mmap.hslots s0 = n
      /\ (p + 8 * n < 2 ^ 32 ->
          Mmap.kpos s0 = p + 8 * (shr32 (checksum key) 8 mod n)))
  (* the first match is returned *)
  /\ (n <> 0 ->
      forall ms pos rdlen,
        Mmap.probes_to cm key s0 ms -> Mmap.find_cond ms = true ->
        hit data key (checksum key) (Mmap.kpos ms) pos rdlen ->
        let ms' := Mmap.found pos (len key) rdlen ms in
        (exists rs' rl,
           Reader.FindNext cr key Reader.NewContext
           = (rs', rl, Next (Some {| Reader.off := pos + 8 + len key;
                                     Reader.n := rdlen |}, nil_error))
           /\ Reader.core rs' = ms')
        /\ (readable data (pos + 8 + len key) rdlen ->
            exists l,
              Mmap.FindNext cm key Mmap.NewContext
              = (ms', (off, 8) :: l,
                 Next (bytes_at data (pos + 8 + len key) rdlen, nil_error)))
        /\ (~ readable data (pos + 8 + len key) rdlen ->
            exists l,
              Mmap.FindNext cm key Mmap.NewContext
              = (ms', (off, 8) :: l, Panic boundsError)))
  (* the probe does not go past a record of the key *)
  /\ (forall ms pos rdlen s1 l1,
        hit data key (Mmap.khash ms) (Mmap.kpos ms) pos rdlen ->
        Mmap.find_body cm key ms <> (s1, l1, Next tt))
  (* not found: an empty slot, or no slot left *)
  /\ (n <> 0 ->
      forall ms,
        Mmap.probes_to cm key s0 ms ->
        Mmap.find_cond ms = false
        \/ (Mmap.find_cond ms = true /\ readable data (Mmap.kpos ms) 8
            /\ snd (nums_at data (Mmap.kpos ms)) = 0) ->
        (exists l,
           Mmap.FindNext cm key Mmap.NewContext
           = (ms, (off, 8) :: l, Next ([], io_EOF)))
        /\ exists rs' rl,
             Reader.FindNext cr key Reader.NewContext
             = (rs', rl, Next (None, io_EOF))
             /\ Reader.core rs' = ms)
  (* what is handed out as found is a record of the key *)
  /\ (forall ms' l d,
        Mmap.FindNext cm key Mmap.NewContext = (ms', l, Next (d, nil_error)) ->
        exists kp pos rdlen,
          hit data key (checksum key) kp pos rdlen
          /\ d = bytes_at data (pos + 8 + len key) rdlen)
  /\ (len data < 2 ^ 32 ->
      forall rs' l sr,
        Reader.FindNext cr key Reader.NewContext
        = (rs', l, Next (Some sr, nil_error)) ->
        exists kp pos rdlen,
          hit data key (checksum key) kp pos rdlen
          /\ sr = {| Reader.off := pos + 8 + len key; Reader.n := rdlen |})
  (* on a context left by a match the two differ *)
  /\ snd (Mmap.FindNext {| Mmap.mmappedData := db_dup |} key_a dup_first)
     = Next (["2"%byte; "3"%byte], nil_error)
  /\ snd (Mmap.Find {| Mmap.mmappedData := db_dup |} key_a dup_first)
     = Next (["1"%byte], nil_error).
Proof.
  intros Hkey cm cr off Hr Hn s0.
  assert (Hwf0 : Mmap.wf Mmap.NewContext)
    by (destruct sim_NewContext as (_ & _ & Hw); exact Hw).
  pose proof (Simulation.nums_at_range data off) as [Hup Hun].
  rewrite Hn in Hup, Hun. cbn [fst snd] in Hup, Hun.
  assert (Hfound : forall ms pos rdlen,
            n <> 0 -> Mmap.probes_to cm key s0 ms ->
            Mmap.find_cond ms = true ->
            hit data key (checksum key) (Mmap.kpos ms) pos rdlen ->
            (exists l0, Mmap.find cm key Mmap.NewContext
                        = (Mmap.found pos (len key) rdlen ms, (off, 8) :: l0,
                           Next nil_error))
            /\ exists rs' rl,
                 Reader.find cr key Reader.NewContext
                 = (rs', rl, Next nil_error)
                 /\ sim (Mmap.found pos (len key) rdlen ms) rs').
  { intros ms pos rdlen Hz Hp Hc Hh.
    destruct (probes_to_frame cm key s0 ms Hp) as (Hkh & _).
    assert (Hh' : hit data key (Mmap.khash ms) (Mmap.kpos ms) pos rdlen)
      by (rewrite Hkh; exact Hh).
    pose proof (mmap_body_hit data key ms pos rdlen Hkey Hh') as Hb.
    fold cm in Hb.
    pose proof (MmapFind.loop_first_turn cm key ms _ _ _ Hc Hb
                  ltac:(discriminate)) as Hl.
    apply (first_step_via data key p n ms _ _ _ Hkey Hr Hn Hz Hp Hl);
      [reflexivity|discriminate]. }
  repeat match goal with |- _ /\ _ => split end.
  - intros c k. rewrite mmap_Find_FindNext. reflexivity.
  - intros c k. rewrite reader_Find_FindNext. reflexivity.
  - intros c k. apply MmapFind.find_first. reflexivity.
  - intros c k. apply ReaderFind.step_first. reflexivity.
  - assert (Hb : (8 <= length (Reader.buf Reader.NewContext))%nat)
      by (vm_compute; lia).
    destruct (first_step_reads_header data key p n Mmap.NewContext
                Reader.NewContext eq_refl eq_refl Hb Hr Hn)
      as [(s1 & l1 & r1 & E) _].
    destruct (mmap_FindNext_log cm key _ _ _ _ E) as (s2 & l2 & r2 & E2).
    rewrite E2. cbn [app]. eauto.
  - assert (Hb : (8 <= length (Reader.buf Reader.NewContext))%nat)
      by (vm_compute; lia).
    destruct (first_step_reads_header data key p n Mmap.NewContext
                Reader.NewContext eq_refl eq_refl Hb Hr Hn)
      as [_ (s1 & l1 & r1 & E)].
    destruct (reader_FindNext_log cr key _ _ _ _ E) as (s2 & l2 & r2 & E2).
    rewrite E2. cbn [app]. eauto.
  - intros ->.
    assert (Hoff : Z.land (shl32 (checksum key) 3) 2047 = off)
      by apply header_offset.
    assert (E : Mmap.find cm key Mmap.NewContext
                = (Mmap.bucket p 0 Mmap.NewContext, [(off, 8)], Next io_EOF)).
    { rewrite (MmapFind.find_first cm key Mmap.NewContext eq_refl).
      unfold recover.
      rewrite <- Hoff in Hr, Hn |- *.
      rewrite (bind_Return _ _ _ _ _ _
                 (MmapFind.init_run cm key Mmap.NewContext p 0 Hr Hn)).
      reflexivity. }
    split.
    + apply (mmap_FindNext_miss cm key _ _ _ io_EOF E). discriminate.
    + destruct (Equivalence.find_sim data key Hkey _ _ _ _ io_EOF
                  sim_NewContext E ltac:(discriminate))
        as (rs' & rl & E2 & Hc & _).
      exists rs', rl. split; [|exact Hc].
      apply (reader_FindNext_miss cr key _ _ _ io_EOF E2). discriminate.
  - intros Hz. split; [reflexivity|]. split; [reflexivity|].
    split; [reflexivity|]. split; [reflexivity|].
    intros Hlt. unfold s0, Mmap.start. cbn [Mmap.kpos Mmap.set_kpos].
    assert (Hm : 0 <= shr32 (checksum key) 8 mod n < n)
      by (apply Z.mod_pos_bound; unfold u32 in Hun; lia).
    unfold u32 in *. rewrite shl32_3 by lia. rewrite add32_small by lia. lia.
  - intros Hz ms pos rdlen Hp Hc Hh ms'.
    destruct (Hfound ms pos rdlen Hz Hp Hc Hh)
      as [[l0 E] (rs' & rl & E2 & Hc2 & _)].
    fold ms' in E, Hc2.
    assert (Hdp : Mmap.dpos ms' = pos + 8 + len key) by reflexivity.
    assert (Hdl : Mmap.dlen ms' = rdlen) by reflexivity.
    split; [|split].
    + exists rs', rl. split; [|exact Hc2].
      rewrite (reader_FindNext_found cr key _ _ _ E2).
      replace (Reader.dpos rs') with (Mmap.dpos ms')
        by (rewrite <- Hc2; reflexivity).
      replace (Reader.dlen rs') with (Mmap.dlen ms')
        by (rewrite <- Hc2; reflexivity).
      rewrite Hdp, Hdl. reflexivity.
    + intros Hrd. rewrite <- Hdp, <- Hdl in Hrd |- *.
      rewrite (mmap_FindNext_found cm key _ _ _ E Hrd). cbn [app]. eauto.
    + intros Hrd. rewrite <- Hdp, <- Hdl in Hrd.
      pose proof (mmap_find_wf cm key Mmap.NewContext Hwf0) as Hw.
      rewrite E in Hw. cbn [fst] in Hw.
      rewrite (mmap_FindNext_crash cm key _ _ _ E Hw Hrd). cbn [app]. eauto.
  - intros ms pos rdlen s1 l1 Hh E.
    pose proof (mmap_body_hit data key ms pos rdlen Hkey Hh) as Hb.
    fold cm in Hb. rewrite Hb in E. discriminate.
  - intros Hz ms Hp Hcase.
    assert (Hl : exists l, Mmap.find_loop cm key ms = (ms, l, Next tt)
                           \/ Mmap.find_loop cm key ms
                              = (ms, l, Return io_EOF)).
    { destruct Hcase as [Hc|(Hc & Hrk & Hs)].
      - exists []. left. unfold Mmap.find_loop, bind, get.
        rewrite for_done by exact Hc. reflexivity.
      - destruct (nums_at data (Mmap.kpos ms)) as [h1 q] eqn:Hnk.
        cbn [snd] in Hs. subst q.
        pose proof (MmapBody.body_empty cm key ms h1 Hrk Hnk) as Hb.
        eexists. right.
        apply (MmapFind.loop_first_turn cm key ms _ _ _ Hc Hb).
        discriminate. }
    destruct Hl as [l Hl].
    assert (Hstep : (exists l0, Mmap.find cm key Mmap.NewContext
                                = (ms, (off, 8) :: l0, Next io_EOF))
                    /\ exists rs' rl,
                         Reader.find cr key Reader.NewContext
                         = (rs', rl, Next io_EOF) /\ sim ms rs').
    { destruct Hl as [Hl|Hl];
        apply (first_step_via data key p n ms _ _ _ Hkey Hr Hn Hz Hp Hl);
        try reflexivity; discriminate. }
    destruct Hstep as [[l0 E] (rs' & rl & E2 & Hc2 & _)]. split.
    + exists l0. apply (mmap_FindNext_miss cm key _ _ _ io_EOF E).
      discriminate.
    + exists rs', rl. split; [|exact Hc2].
      apply (reader_FindNext_miss cr key _ _ _ io_EOF E2). discriminate.
  - intros ms' l d H.
    destruct (mmap_FindNext_nil_inv cm key _ _ _ _ Hwf0 H)
      as ([l1 E] & Hrd & ->).
    destruct (mmap_find_found_inv data key _ _ _ Hkey Hwf0 E)
      as [(kp & pos & Hh & Hd) Hkh].
    rewrite (Hkh eq_refl) in Hh.
    exists kp, pos, (Mmap.dlen ms'). split; [exact Hh|].
    cbn [Mmap.mmappedData cm]. rewrite Hd. reflexivity.
  - intros Hd rs' l sr H.
    destruct (reader_FindNext_nil_inv cr key _ _ _ _ H) as [E ->].
    assert (Hb : (8 <= length (Reader.buf Reader.NewContext))%nat)
      by (vm_compute; lia).
    assert (Hwr : Reader.wf Reader.NewContext) by exact Hwf0.
    destruct (reader_find_found_inv data key Reader.NewContext rs' l Hd Hkey
                Hb Hwr E) as [(kp & pos & Hh & Hdp) Hkh].
    rewrite (Hkh eq_refl) in Hh.
    exists kp, pos, (Reader.dlen rs'). split; [exact Hh|].
    rewrite Hdp. reflexivity.
  - vm_compute. reflexivity.
  - vm_compute. reflexivity.
Qed.

(** In [db_dup] the probe for [a] starts at slot 0, which holds the first
    record of [a]. *)
Lemma FindNext_on_new_context_witness :
  Mmap.FindNext {| Mmap.mmappedData := db_dup |} key_a Mmap.NewContext
  = Mmap.Find {| Mmap.mmappedData := db_dup |} key_a Mmap.NewContext
  /\ (exists l,
        Mmap.FindNext {| Mmap.mmappedData := db_dup |} key_a Mmap.NewContext
        = (dup_first, (1568, 8) :: l,
           Next (bytes_at db_dup (2072 + 8 + len key_a) 1, nil_error))).
Proof.
  pose proof (FindNext_on_new_context db_dup key_a 2048 3
                ltac:(vm_compute; reflexivity)
                ltac:(vm_compute; intuition discriminate)
                ltac:(vm_compute; reflexivity)) as H.
  split; [exact (proj1 H _ _)|].
  refine (proj1 (proj2 (proj1 (proj2 (proj2 (proj2 (proj2 (proj2 (proj2
                   (proj2 (proj2 H))))))))
                   _ (Mmap.start (checksum key_a) 2048 3 Mmap.NewContext)
                   2072 1 _ _ _)) _).
  - discriminate.
  - apply Mmap.probes_here.
  - vm_compute. reflexivity.
  - vm_compute. intuition discriminate.
  - vm_compute. intuition discriminate.
Defined.
